(** * phc-sf-parse.c: decoder and encoder of Argon2i hash strings

    A shallow embedding of [phc-sf-parse.c] (Base64 without padding, the
    strict decimal parser, [argon2i_decode_string] and
    [argon2i_encode_string]) and the proofs of its specification.

    Conventions of the embedding.
    - [unsigned] is a 32-bit type: every [unsigned] operation is written
      with its reduction modulo [2^32].
    - [unsigned long] is any type whose maximum [ULONG_MAX] (from
      <limits.h>) is at least [2^32-1]; [ULONG_MAX] is a parameter.
    - [size_t] values are lengths and capacities of objects in memory
      ([nat]); the source guards every subtraction on them, and the
      value [(size_t)-1] returned by [to_base64] is [None].
    - a C string is the list of the [int] values of its characters; the
      terminating zero is implicit at the end of the list, and a zero
      inside the list terminates the string as it does in memory.  A
      pointer into a string is the suffix it points to.
    - a buffer that is written through a pointer is a list updated by
      index. *)

From Stdlib Require Import ZArith Lia String Ascii Bool.
From stdpp Require Import base list.

Local Open Scope Z_scope.

(** ** Characters and C strings *)

Definition ch (a : ascii) : Z := Z.of_N (N_of_ascii a).

Fixpoint cs (s : string) : list Z :=
  match s with
  | EmptyString => []
  | String a s' => ch a :: cs s'
  end.

(** [*str]: the character under the pointer, 0 at the terminator. *)
Definition peek (str : list Z) : Z :=
  match str with
  | [] => 0
  | c :: _ => c
  end.

(** [strlen(str)]. *)
Fixpoint strlen (str : list Z) : nat :=
  match str with
  | [] => O
  | c :: str' => if c =? 0 then O else S (strlen str')
  end.

(** [strncmp(s1, s2, n) == 0]: the strings agree on their first [n]
    characters, or up to the zero that ends both. *)
Fixpoint strncmp_eq (s1 s2 : list Z) (n : nat) : bool :=
  match n with
  | O => true
  | S n' =>
      if peek s1 =? peek s2 then
        if peek s1 =? 0 then true else strncmp_eq (tl s1) (tl s2) n'
      else false
  end.

(** [memcpy(dst, src, n)] into the buffer [mem] at offset [dst]. *)
Fixpoint memcpy (mem : list Z) (dst : nat) (src : list Z) (n : nat) : list Z :=
  match n with
  | O => mem
  | S n' => memcpy (<[dst := peek src]> mem) (S dst) (tl src) n'
  end.

(** [sprintf(tmp, "%lu", x)] of the C library: the decimal digits of
    [x], most significant first, without leading zero.  A number has no
    more decimal digits than binary ones, which bounds the recursion
    ([sprintf_lu_spec]). *)
Fixpoint decimal_digits (fuel : nat) (x : Z) : list Z :=
  match fuel with
  | O => [ch "0" + x mod 10]
  | S fuel' =>
      if x <? 10 then [ch "0" + x]
      else decimal_digits fuel' (x / 10) ++ [ch "0" + x mod 10]
  end.

Definition sprintf_lu (x : Z) : list Z :=
  decimal_digits (Z.to_nat (Z.log2 x)) x.

(** ** Base64 *)

Definition UINT_MOD : Z := 2 ^ 32.

(** [(unsigned)x]. *)
Definition u32 (x : Z) : Z := x mod UINT_MOD.

(** The constant-time comparison macros. *)
Definition EQ (x y : Z) : Z :=
  Z.lxor (Z.land (Z.shiftr (u32 (- (Z.lxor (u32 x) (u32 y)))) 8) 255) 255.
Definition GT (x y : Z) : Z :=
  Z.land (Z.shiftr (u32 (u32 y - u32 x)) 8) 255.
Definition GE (x y : Z) : Z := Z.lxor (GT y x) 255.
Definition LT (x y : Z) : Z := GT y x.
Definition LE (x y : Z) : Z := GE y x.

Definition b64_byte_to_char (x : Z) : Z :=
  Z.lor (Z.lor (Z.lor (Z.lor
    (Z.land (LT x 26) (u32 (x + ch "A")))
    (Z.land (Z.land (GE x 26) (LT x 52)) (u32 (x + (ch "a" - 26)))))
    (Z.land (Z.land (GE x 52) (LT x 62)) (u32 (x + (ch "0" - 52)))))
    (Z.land (EQ x 62) (ch "+")))
    (Z.land (EQ x 63) (ch "/")).

Definition b64_char_to_byte (c : Z) : Z :=
  let x :=
    Z.lor (Z.lor (Z.lor (Z.lor
      (Z.land (Z.land (GE c (ch "A")) (LE c (ch "Z"))) (u32 (c - ch "A")))
      (Z.land (Z.land (GE c (ch "a")) (LE c (ch "z"))) (u32 (c - (ch "a" - 26)))))
      (Z.land (Z.land (GE c (ch "0")) (LE c (ch "9"))) (u32 (c - (ch "0" - 52)))))
      (Z.land (EQ c (ch "+")) 62))
      (Z.land (EQ c (ch "/")) 63) in
  Z.lor x (Z.land (EQ x 0) (Z.lxor (EQ c (ch "A")) 255)).

(** [to_base64].  The destination is the buffer [mem] and the offset
    [dst] of the pointer into it; the source pointer [buf] is the suffix
    of the source array that it points to, and reads as 0 past the end
    of the array, where no call of the code reads. *)

(** [while (acc_len >= 6)]: every iteration takes 6 from [acc_len], so
    [acc_len] iterations are enough ([to_base64_drain_done]). *)
Fixpoint to_base64_drain (fuel : nat) (acc acc_len : Z) (mem : list Z) (dst : nat)
  : Z * list Z * nat :=
  match fuel with
  | O => (acc_len, mem, dst)
  | S fuel' =>
      if 6 <=? acc_len then
        let acc_len := acc_len - 6 in
        let mem := <[dst := b64_byte_to_char (Z.land (Z.shiftr acc acc_len) 63)]> mem in
        to_base64_drain fuel' acc acc_len mem (S dst)
      else (acc_len, mem, dst)
  end.

(** [while (src_len -- > 0)]. *)
Fixpoint to_base64_loop (src_len : nat) (buf : list Z) (acc acc_len : Z)
    (mem : list Z) (dst : nat) : Z * Z * list Z * nat :=
  match src_len with
  | O => (acc, acc_len, mem, dst)
  | S src_len' =>
      let acc := u32 (Z.shiftl acc 8 + hd 0 buf) in
      let buf := tl buf in
      let acc_len := u32 (acc_len + 8) in
      let '(acc_len, mem, dst) := to_base64_drain (Z.to_nat acc_len) acc acc_len mem dst in
      to_base64_loop src_len' buf acc acc_len mem dst
  end.

Definition to_base64 (mem : list Z) (dst : nat) (dst_len : nat)
    (src : list Z) (src_len : nat) : option nat * list Z :=
  let olen := Nat.shiftl (src_len / 3) 2 in
  let olen :=
    match (src_len mod 3)%nat with
    | 2%nat => (olen + 1 + 2)%nat
    | 1%nat => (olen + 2)%nat
    | _ => olen
    end in
  if (dst_len <=? olen)%nat then (None, mem)
  else
    let '(acc, acc_len, mem, dst) := to_base64_loop src_len src 0 0 mem dst in
    let '(mem, dst) :=
      if 0 <? acc_len then
        (<[dst := b64_byte_to_char (Z.land (u32 (Z.shiftl acc (6 - acc_len))) 63)]> mem, S dst)
      else (mem, dst) in
    let mem := <[dst := 0]> mem in
    (Some olen, mem).

(** [from_base64].  [dst] is the destination array, [buf] the offset of
    the write pointer into it, [cap] the initial value of [*dst_len].
    The loop ends with [LoopFull] at [return NULL] and with [LoopBreak]
    at [break]. *)
Inductive from_base64_exit : Type :=
  | LoopFull
  | LoopBreak (src : list Z) (acc acc_len : Z) (len : nat).

Fixpoint from_base64_loop (cap : nat) (src : list Z) (acc acc_len : Z)
    (len : nat) (dst : list Z) (buf : nat) : from_base64_exit * list Z :=
  let d := b64_char_to_byte (peek src) in
  if d =? 255 then (LoopBreak src acc acc_len len, dst)
  else
    match src with
    | [] => (LoopBreak src acc acc_len len, dst)
    | _ :: src' =>
        let acc := u32 (Z.shiftl acc 6 + d) in
        let acc_len := u32 (acc_len + 6) in
        if 8 <=? acc_len then
          let acc_len := acc_len - 8 in
          if (cap <=? len)%nat then (LoopFull, dst)
          else
            let dst := <[buf := Z.land (Z.shiftr acc acc_len) 255]> dst in
            from_base64_loop cap src' acc acc_len (S len) dst (S buf)
        else from_base64_loop cap src' acc acc_len len dst buf
    end.

(** The result is the returned pointer ([None] for NULL), the
    destination array and the final value of [*dst_len]. *)
Definition from_base64 (dst : list Z) (dst_len : nat) (src : list Z)
  : option (list Z) * list Z * nat :=
  match from_base64_loop dst_len src 0 0 0 dst 0 with
  | (LoopFull, dst') => (None, dst', dst_len)
  | (LoopBreak src' acc acc_len len, dst') =>
      if (4 <? acc_len) || negb (Z.land acc (u32 (Z.shiftl 1 acc_len - 1)) =? 0)
      then (None, dst', dst_len)
      else (Some src', dst', len)
  end.

(** ** The strict decimal parser *)

Section Decimal.

Variable ULONG_MAX : Z.

(** [(unsigned long)x]. *)
Definition ulong (x : Z) : Z := x mod (ULONG_MAX + 1).

(** The [for] loop; [n] is [str - orig].  [None] is [return NULL]. *)
Fixpoint decode_decimal_loop (str : list Z) (n : nat) (acc : Z)
  : option (list Z * nat * Z) :=
  let c := peek str in
  if (c <? ch "0") || (c >? ch "9") then Some (str, n, acc)
  else
    match str with
    | [] => Some (str, n, acc)
    | _ :: str' =>
        let c := c - ch "0" in
        if acc >? ULONG_MAX / 10 then None
        else
          let acc := ulong (acc * 10) in
          if ulong c >? ulong (ULONG_MAX - acc) then None
          else decode_decimal_loop str' (S n) (ulong (acc + ulong c))
    end.

(** The result is the returned pointer and the value stored in [*v]. *)
Definition decode_decimal (str : list Z) : option (list Z * Z) :=
  match decode_decimal_loop str 0 0 with
  | None => None
  | Some (str', n, acc) =>
      if (n =? 0)%nat || ((peek str =? ch "0") && negb (n =? 1)%nat)
      then None
      else Some (str', acc)
  end.

End Decimal.

(** ** Argon2i hash strings *)

Record argon2i_params : Type := {
  m : Z;
  t : Z;
  p : Z;
  key_id : list Z;
  key_id_len : nat;
  associated_data : list Z;
  associated_data_len : nat;
  salt : list Z;
  salt_len : nat;
  output : list Z;
  output_len : nat
}.

(** [sizeof] of the four arrays of the structure. *)
Definition sizeof_key_id : nat := 8.
Definition sizeof_associated_data : nat := 32.
Definition sizeof_salt : nat := 48.
Definition sizeof_output : nat := 64.

(** Assignments to the members of [*pp]. *)
Definition set_m (v : Z) (pp : argon2i_params) : argon2i_params :=
  {| m := v; t := t pp; p := p pp;
     key_id := key_id pp; key_id_len := key_id_len pp;
     associated_data := associated_data pp;
     associated_data_len := associated_data_len pp;
     salt := salt pp; salt_len := salt_len pp;
     output := output pp; output_len := output_len pp |}.
Definition set_t (v : Z) (pp : argon2i_params) : argon2i_params :=
  {| m := m pp; t := v; p := p pp;
     key_id := key_id pp; key_id_len := key_id_len pp;
     associated_data := associated_data pp;
     associated_data_len := associated_data_len pp;
     salt := salt pp; salt_len := salt_len pp;
     output := output pp; output_len := output_len pp |}.
Definition set_p (v : Z) (pp : argon2i_params) : argon2i_params :=
  {| m := m pp; t := t pp; p := v;
     key_id := key_id pp; key_id_len := key_id_len pp;
     associated_data := associated_data pp;
     associated_data_len := associated_data_len pp;
     salt := salt pp; salt_len := salt_len pp;
     output := output pp; output_len := output_len pp |}.
Definition set_key_id (v : list Z) (pp : argon2i_params) : argon2i_params :=
  {| m := m pp; t := t pp; p := p pp;
     key_id := v; key_id_len := key_id_len pp;
     associated_data := associated_data pp;
     associated_data_len := associated_data_len pp;
     salt := salt pp; salt_len := salt_len pp;
     output := output pp; output_len := output_len pp |}.
Definition set_key_id_len (v : nat) (pp : argon2i_params) : argon2i_params :=
  {| m := m pp; t := t pp; p := p pp;
     key_id := key_id pp; key_id_len := v;
     associated_data := associated_data pp;
     associated_data_len := associated_data_len pp;
     salt := salt pp; salt_len := salt_len pp;
     output := output pp; output_len := output_len pp |}.
Definition set_associated_data (v : list Z) (pp : argon2i_params) : argon2i_params :=
  {| m := m pp; t := t pp; p := p pp;
     key_id := key_id pp; key_id_len := key_id_len pp;
     associated_data := v;
     associated_data_len := associated_data_len pp;
     salt := salt pp; salt_len := salt_len pp;
     output := output pp; output_len := output_len pp |}.
Definition set_associated_data_len (v : nat) (pp : argon2i_params) : argon2i_params :=
  {| m := m pp; t := t pp; p := p pp;
     key_id := key_id pp; key_id_len := key_id_len pp;
     associated_data := associated_data pp;
     associated_data_len := v;
     salt := salt pp; salt_len := salt_len pp;
     output := output pp; output_len := output_len pp |}.
Definition set_salt (v : list Z) (pp : argon2i_params) : argon2i_params :=
  {| m := m pp; t := t pp; p := p pp;
     key_id := key_id pp; key_id_len := key_id_len pp;
     associated_data := associated_data pp;
     associated_data_len := associated_data_len pp;
     salt := v; salt_len := salt_len pp;
     output := output pp; output_len := output_len pp |}.
Definition set_salt_len (v : nat) (pp : argon2i_params) : argon2i_params :=
  {| m := m pp; t := t pp; p := p pp;
     key_id := key_id pp; key_id_len := key_id_len pp;
     associated_data := associated_data pp;
     associated_data_len := associated_data_len pp;
     salt := salt pp; salt_len := v;
     output := output pp; output_len := output_len pp |}.
Definition set_output (v : list Z) (pp : argon2i_params) : argon2i_params :=
  {| m := m pp; t := t pp; p := p pp;
     key_id := key_id pp; key_id_len := key_id_len pp;
     associated_data := associated_data pp;
     associated_data_len := associated_data_len pp;
     salt := salt pp; salt_len := salt_len pp;
     output := v; output_len := output_len pp |}.
Definition set_output_len (v : nat) (pp : argon2i_params) : argon2i_params :=
  {| m := m pp; t := t pp; p := p pp;
     key_id := key_id pp; key_id_len := key_id_len pp;
     associated_data := associated_data pp;
     associated_data_len := associated_data_len pp;
     salt := salt pp; salt_len := salt_len pp;
     output := output pp; output_len := v |}.

(** Straight-line code with early [return]: a statement either ends the
    function with a value or goes on to the next statement, both with
    the state it leaves. *)
Inductive flow (S : Type) : Type :=
  | Return (r : Z) (s : S)
  | Continue (s : S).
Arguments Return {S} r s.
Arguments Continue {S} s.

Definition stmt (S : Type) : Type := S -> flow S.

Definition seq_stmt {S : Type} (f g : stmt S) : stmt S :=
  fun s => match f s with
           | Return r s' => Return r s'
           | Continue s' => g s'
           end.

Declare Scope stmt_scope.
Delimit Scope stmt_scope with stmt.
Notation "f ;; g" := (seq_stmt f g)
  (at level 100, g at level 200, right associativity) : stmt_scope.

Definition skip {S : Type} : stmt S := fun s => Continue s.

(** [if (c) { body }]. *)
Definition when {S : Type} (c : S -> bool) (body : stmt S) : stmt S :=
  fun s => if c s then body s else Continue s.

(** [return r;]. *)
Definition ret {S : Type} (r : S -> Z) : stmt S := fun s => Return (r s) s.

(** The value and the state a function body ends with; a body that
    falls off its end has no value, and none of the two below does. *)
Definition run {S : Type} (body : stmt S) (s : S) : Z * S :=
  match body s with
  | Return r s' => (r, s')
  | Continue s' => (0, s')
  end.

Section Argon2i.

Variable ULONG_MAX : Z.

(** [x << n] on [unsigned long]. *)
Definition ulong_shiftl (x n : Z) : Z := ulong ULONG_MAX (Z.shiftl x n).

(** *** Decoding *)

(** The state of [argon2i_decode_string]: the structure [*pp] and the
    pointer [str]. *)
Record dstate : Type := { d_pp : argon2i_params; d_str : list Z }.

Definition assign (f : argon2i_params -> argon2i_params) : stmt dstate :=
  fun s => Continue {| d_pp := f (d_pp s); d_str := d_str s |}.

Definition CC (prefix : list Z) : stmt dstate :=
  fun s =>
    let cc_len := strlen prefix in
    if negb (strncmp_eq (d_str s) prefix cc_len) then Return 0 s
    else Continue {| d_pp := d_pp s; d_str := drop cc_len (d_str s) |}.

Definition CC_opt (prefix : list Z) (code : stmt dstate) : stmt dstate :=
  fun s =>
    let cc_len := strlen prefix in
    if strncmp_eq (d_str s) prefix cc_len
    then code {| d_pp := d_pp s; d_str := drop cc_len (d_str s) |}
    else Continue s.

Definition DECIMAL (set_x : Z -> argon2i_params -> argon2i_params) : stmt dstate :=
  fun s =>
    match decode_decimal ULONG_MAX (d_str s) with
    | None => Return 0 s
    | Some (str, dec_x) => Continue {| d_pp := set_x dec_x (d_pp s); d_str := str |}
    end.

Definition BIN (buf : argon2i_params -> list Z)
    (set_buf : list Z -> argon2i_params -> argon2i_params)
    (max_len : nat)
    (set_len : nat -> argon2i_params -> argon2i_params) : stmt dstate :=
  fun s =>
    let bin_len := max_len in
    let '(str, buf', bin_len) := from_base64 (buf (d_pp s)) bin_len (d_str s) in
    let pp := set_buf buf' (d_pp s) in
    match str with
    | None => Return 0 {| d_pp := pp; d_str := d_str s |}
    | Some str => Continue {| d_pp := set_len bin_len pp; d_str := str |}
    end.

Definition argon2i_decode_body : stmt dstate :=
  (assign (set_key_id_len 0) ;;
   assign (set_associated_data_len 0) ;;
   assign (set_salt_len 0) ;;
   assign (set_output_len 0) ;;
   CC (cs "$argon2i") ;;
   CC (cs "$m=") ;;
   DECIMAL set_m ;;
   CC (cs ",t=") ;;
   DECIMAL set_t ;;
   CC (cs ",p=") ;;
   DECIMAL set_p ;;
   when (fun s => (m (d_pp s) <? 1) || (Z.shiftr (m (d_pp s)) 30 >? 3))
     (ret (fun _ => 0)) ;;
   when (fun s => (t (d_pp s) <? 1) || (Z.shiftr (t (d_pp s)) 30 >? 3))
     (ret (fun _ => 0)) ;;
   when (fun s => (p (d_pp s) <? 1) || (p (d_pp s) >? 255))
     (ret (fun _ => 0)) ;;
   when (fun s => m (d_pp s) <? ulong_shiftl (p (d_pp s)) 3)
     (ret (fun _ => 0)) ;;
   CC_opt (cs ",keyid=") (BIN key_id set_key_id sizeof_key_id set_key_id_len) ;;
   CC_opt (cs ",data=")
     (BIN associated_data set_associated_data sizeof_associated_data
        set_associated_data_len) ;;
   when (fun s => peek (d_str s) =? 0) (ret (fun _ => 1)) ;;
   CC (cs "$") ;;
   BIN salt set_salt sizeof_salt set_salt_len ;;
   when (fun s => (salt_len (d_pp s) <? 8)%nat) (ret (fun _ => 0)) ;;
   when (fun s => peek (d_str s) =? 0) (ret (fun _ => 1)) ;;
   CC (cs "$") ;;
   BIN output set_output sizeof_output set_output_len ;;
   when (fun s => (output_len (d_pp s) <? 12)%nat) (ret (fun _ => 0)) ;;
   ret (fun s => if peek (d_str s) =? 0 then 1 else 0))%stmt.

(** The returned value and the structure [*pp] as the call leaves it. *)
Definition argon2i_decode_string (pp : argon2i_params) (str : list Z)
  : Z * argon2i_params :=
  let '(r, s) := run argon2i_decode_body {| d_pp := pp; d_str := str |} in
  (r, d_pp s).

(** *** Encoding *)

(** The state of [argon2i_encode_string]: the destination buffer, the
    offset of [dst] into it, and [dst_len]. *)
Record estate : Type := { e_mem : list Z; e_dst : nat; e_dst_len : nat }.

Definition SS (str : list Z) : stmt estate :=
  fun s =>
    let pp_len := strlen str in
    if (e_dst_len s <=? pp_len)%nat then Return 0 s
    else Continue {| e_mem := memcpy (e_mem s) (e_dst s) str (pp_len + 1);
                     e_dst := (e_dst s + pp_len)%nat;
                     e_dst_len := (e_dst_len s - pp_len)%nat |}.

Definition SX (x : Z) : stmt estate :=
  let tmp := sprintf_lu x in
  SS tmp.

Definition SB (buf : list Z) (len : nat) : stmt estate :=
  fun s =>
    match to_base64 (e_mem s) (e_dst s) (e_dst_len s) buf len with
    | (None, mem) => Return 0 {| e_mem := mem; e_dst := e_dst s; e_dst_len := e_dst_len s |}
    | (Some sb_len, mem) =>
        Continue {| e_mem := mem;
                    e_dst := (e_dst s + sb_len)%nat;
                    e_dst_len := (e_dst_len s - sb_len)%nat |}
    end.

Definition argon2i_encode_body (pp : argon2i_params) : stmt estate :=
  (SS (cs "$argon2i$m=") ;;
   SX (m pp) ;;
   SS (cs ",t=") ;;
   SX (t pp) ;;
   SS (cs ",p=") ;;
   SX (p pp) ;;
   when (fun _ => (0 <? key_id_len pp)%nat)
     (SS (cs ",keyid=") ;; SB (key_id pp) (key_id_len pp)) ;;
   when (fun _ => (0 <? associated_data_len pp)%nat)
     (SS (cs ",data=") ;; SB (associated_data pp) (associated_data_len pp)) ;;
   when (fun _ => (salt_len pp =? 0)%nat) (ret (fun _ => 1)) ;;
   SS (cs "$") ;;
   SB (salt pp) (salt_len pp) ;;
   when (fun _ => (output_len pp =? 0)%nat) (ret (fun _ => 1)) ;;
   SS (cs "$") ;;
   SB (output pp) (output_len pp) ;;
   ret (fun _ => 1))%stmt.

(** The returned value and the buffer [dst] as the call leaves it. *)
Definition argon2i_encode_string (mem : list Z) (dst_len : nat)
    (pp : argon2i_params) : Z * list Z :=
  let '(r, s) := run (argon2i_encode_body pp)
                     {| e_mem := mem; e_dst := 0; e_dst_len := dst_len |} in
  (r, e_mem s).

End Argon2i.

(** ** The test code *)

(** The two NULL-terminated arrays of strings. *)
Definition KAT_GOOD : list (list Z) :=
  [ cs "$argon2i$m=120,t=5000,p=2";
    cs "$argon2i$m=120,t=4294967295,p=2";
    cs "$argon2i$m=2040,t=5000,p=255";
    cs "$argon2i$m=120,t=5000,p=2,keyid=Hj5+dsK0";
    cs "$argon2i$m=120,t=5000,p=2,keyid=Hj5+dsK0ZQ";
    cs "$argon2i$m=120,t=5000,p=2,keyid=Hj5+dsK0ZQA";
    cs "$argon2i$m=120,t=5000,p=2,data=sRlHhRmKUGzdOmXn01XmXygd5Kc";
    cs "$argon2i$m=120,t=5000,p=2,keyid=Hj5+dsK0,data=sRlHhRmKUGzdOmXn01XmXygd5Kc";
    cs "$argon2i$m=120,t=5000,p=2$/LtFjH5rVL8";
    cs "$argon2i$m=120,t=5000,p=2$4fXXG0spB92WPB1NitT8/OH0VKI";
    cs "$argon2i$m=120,t=5000,p=2$BwUgJHHQaynE+a4nZrYRzOllGSjjxuxNXxyNRUtI6Dlw/zlbt6PzOL8Onfqs6TcG";
    cs "$argon2i$m=120,t=5000,p=2,keyid=Hj5+dsK0$4fXXG0spB92WPB1NitT8/OH0VKI";
    cs "$argon2i$m=120,t=5000,p=2,data=sRlHhRmKUGzdOmXn01XmXygd5Kc$4fXXG0spB92WPB1NitT8/OH0VKI";
    cs "$argon2i$m=120,t=5000,p=2,keyid=Hj5+dsK0,data=sRlHhRmKUGzdOmXn01XmXygd5Kc$4fXXG0spB92WPB1NitT8/OH0VKI";
    cs "$argon2i$m=120,t=5000,p=2$4fXXG0spB92WPB1NitT8/OH0VKI$iPBVuORECm5biUsjq33hn9/7BKqy9aPWKhFfK2haEsM";
    cs "$argon2i$m=120,t=5000,p=2,keyid=Hj5+dsK0$4fXXG0spB92WPB1NitT8/OH0VKI$iPBVuORECm5biUsjq33hn9/7BKqy9aPWKhFfK2haEsM";
    cs "$argon2i$m=120,t=5000,p=2,data=sRlHhRmKUGzdOmXn01XmXygd5Kc$4fXXG0spB92WPB1NitT8/OH0VKI$iPBVuORECm5biUsjq33hn9/7BKqy9aPWKhFfK2haEsM";
    cs "$argon2i$m=120,t=5000,p=2,keyid=Hj5+dsK0,data=sRlHhRmKUGzdOmXn01XmXygd5Kc$4fXXG0spB92WPB1NitT8/OH0VKI$iPBVuORECm5biUsjq33hn9/7BKqy9aPWKhFfK2haEsM";
    cs "$argon2i$m=120,t=5000,p=2,keyid=Hj5+dsK0,data=sRlHhRmKUGzdOmXn01XmXygd5Kc$iHSDPHzUhPzK7rCcJgOFfg$EkCWX6pSTqWruiR0";
    cs "$argon2i$m=120,t=5000,p=2,keyid=Hj5+dsK0,data=sRlHhRmKUGzdOmXn01XmXygd5Kc$iHSDPHzUhPzK7rCcJgOFfg$J4moa2MM0/6uf3HbY2Tf5Fux8JIBTwIhmhxGRbsY14qhTltQt+Vw3b7tcJNEbk8ium8AQfZeD4tabCnNqfkD1g" ].

Definition KAT_BAD : list (list Z) :=
  [ cs "$argon2j$m=120,t=5000,p=2";
    cs "$argon2i$t=5000,p=2";
    cs "$argon2i$m=120,p=2";
    cs "$argon2i$m=120,t=5000";
    cs "$argon2i$m=15,t=5000,p=2";
    cs "$argon2i$m=120,t=0,p=2";
    cs "$argon2i$m=120,t=5000,p=0";
    cs "$argon2i$m=2000,t=5000,p=256";
    cs "$argon2i$m=0120,t=5000,p=2";
    cs "$argon2i$m=120,t=05000,p=2";
    cs "$argon2i$m=120,t=5000,p=02";
    cs "$argon2i$m=120,t=4294967296,p=2";
    cs "$argon2i$m=120,t=5000,p=2,keyid=Hj5+dsK0Z";
    cs "$argon2i$m=120,t=5000,p=2,keyid=Hj5+dsK0ZR";
    cs "$argon2i$m=120,t=5000,p=2,keyid=Hj5+dsK0ZQB";
    cs "$argon2i$m=120,t=5000,p=2,keyid=Mwmcv5/avkXJ";
    cs "$argon2i$m=120,t=5000,p=2,data=Vrai0ME0m7lorfxfOCG3+6we5N89+2hXwkbv0C5SECab";
    cs "$argon2i$m=120,t=5000,p=2$+yPbRi6hdw";
    cs "$argon2i$m=120,t=5000,p=2$SIZzzPhYC/CXOf64vWG/IZjO/amlRgvKscaRCYwdg9R1boFN/NjaC1VdXdcOtFx+0A";
    cs "$argon2i$m=120,t=5000,p=2$4fXXG0spB92WPB1NitT8/OH0VKI$iHSDPHzUhPzK7rCcJgOFfg$c+jbgTK0PT0eCMI";
    cs "$argon2i$m=120,t=5000,p=2$4fXXG0spB92WPB1NitT8/OH0VKI$iHSDPHzUhPzK7rCcJgOFfg$KtTPhiUlDb98psIiNxUSZ8GYVEm1CsfEaLJrppBe5poD2/sQOUu5mmowSiQUbH+ZK3PjFdY3KUuf83bT5XqTZy0" ].

(** [strcmp(s1, s2) == 0]. *)
Fixpoint strcmp_eq (s1 s2 : list Z) : bool :=
  if peek s1 =? peek s2 then
    match s1 with
    | [] => true
    | c :: s1' => if c =? 0 then true else strcmp_eq s1' (tl s2)
    end
  else false.

(** What [main] writes: a call of [printf] writes to the standard
    output and a call of [fprintf(stderr, ...)] to the standard error;
    ["%s"] writes the characters of a C string. *)
Inductive event : Type :=
  | Stdout (text : list Z)
  | Stderr (text : list Z).

Definition c_string (s : list Z) : list Z := take (strlen s) s.

Definition newline : list Z := [10].

(** The state of [main] is what it has written so far; [exit] ends it
    as [return] does. *)
Definition fprintf_stderr (text : list Z) (out : list event) : list event :=
  out ++ [Stderr text].

Definition printf (text : list Z) : stmt (list event) :=
  fun out => Continue (out ++ [Stdout text]).

Definition exit (status : Z) : stmt (list event) :=
  fun out => Return status out.

(** [for (s = KAT; *s; s ++) body], with the number of the iteration. *)
Fixpoint for_each (body : nat -> list Z -> stmt (list event)) (i : nat)
    (kat : list (list Z)) : stmt (list event) :=
  match kat with
  | [] => skip
  | str :: kat' => (body i str ;; for_each body (S i) kat')%stmt
  end.

Section Main.

Variable ULONG_MAX : Z.

(** [EXIT_FAILURE], from <stdlib.h>. *)
Variable EXIT_FAILURE : Z.

(** The locals [pp] and [tmp] of the loop bodies are not initialized:
    what they hold at the start of each iteration is not determined by
    the program. *)
Variable pp_good : nat -> argon2i_params.
Variable tmp_good : nat -> list Z.
Variable pp_bad : nat -> argon2i_params.

Definition sizeof_tmp : nat := 300.

Definition good_body (i : nat) (str : list Z) : stmt (list event) :=
  fun out =>
    let '(r, pp) := argon2i_decode_string ULONG_MAX (pp_good i) str in
    if r =? 0 then
      exit EXIT_FAILURE
        (fprintf_stderr (cs "Failed to decode: " ++ c_string str ++ newline) out)
    else
      let '(r, tmp) := argon2i_encode_string (tmp_good i) sizeof_tmp pp in
      if r =? 0 then
        exit EXIT_FAILURE
          (fprintf_stderr
             (cs "Failed to encode back: " ++ c_string str ++ newline) out)
      else
        let out :=
          if negb (strcmp_eq str tmp) then
            fprintf_stderr (cs "  out: " ++ c_string tmp ++ newline)
              (fprintf_stderr (cs "  in:  " ++ c_string str ++ newline)
                 (fprintf_stderr (cs "Decode/encode difference:" ++ newline) out))
          else out in
        let len := strlen str in
        let '(r, tmp) := argon2i_encode_string tmp (len + 1) pp in
        if r =? 0 then
          exit EXIT_FAILURE
            (fprintf_stderr
               (cs "Encode failure (1): " ++ c_string str ++ newline) out)
        else
          let '(r, tmp) := argon2i_encode_string tmp len pp in
          if negb (r =? 0) then
            exit EXIT_FAILURE
              (fprintf_stderr
                 (cs "Encode failure (2): " ++ c_string str ++ newline) out)
          else Continue out.

Definition bad_body (i : nat) (str : list Z) : stmt (list event) :=
  fun out =>
    let '(r, pp) := argon2i_decode_string ULONG_MAX (pp_bad i) str in
    if negb (r =? 0) then
      exit EXIT_FAILURE
        (fprintf_stderr
           (cs "Decoded invalid string: " ++ c_string str ++ newline) out)
    else Continue out.

(** The value that [main] returns, or the status it exits with, and
    what it has written. *)
Definition main : Z * list event :=
  run (for_each good_body 0 KAT_GOOD ;;
       for_each bad_body 0 KAT_BAD ;;
       printf (cs "All tests OK" ++ newline) ;;
       ret (fun _ => 0))%stmt [].

End Main.

(** ** Definitions used to state the properties *)

(** The alphabet of the format, with the value of each character. *)
Definition b64_value (c : Z) : option Z :=
  if (ch "A" <=? c) && (c <=? ch "Z") then Some (c - ch "A")
  else if (ch "a" <=? c) && (c <=? ch "z") then Some (c - ch "a" + 26)
  else if (ch "0" <=? c) && (c <=? ch "9") then Some (c - ch "0" + 52)
  else if c =? ch "+" then Some 62
  else if c =? ch "/" then Some 63
  else None.

Definition char_to_byte_agrees (c : Z) : bool :=
  match b64_value c with
  | Some v => (b64_char_to_byte c =? v) && (0 <=? v) && (v <=? 63)
  | None => b64_char_to_byte c =? 255
  end.

(** Checks of the two mappings, for the tables below. *)
Definition char_to_byte_ranged (c : Z) : bool :=
  let d := b64_char_to_byte c in
  (d =? 255) || ((0 <=? d) && (d <=? 63)).

Definition byte_to_char_inverts (x : Z) : bool :=
  let c := b64_byte_to_char x in
  (b64_char_to_byte c =? x) && (1 <=? c) && (c <=? 127).

Definition char_below_zero (c : Z) : bool := b64_char_to_byte c =? 63.

(** The values a [char] can have, whether the type is signed or not. *)
Definition is_char (c : Z) : Prop := -128 <= c <= 255.

(** The values of an [unsigned char]. *)
Definition is_byte (b : Z) : Prop := 0 <= b <= 255.

(** A string without zero is its own C string. *)
Definition no_zero (s : list Z) : Prop := Forall (fun c => c <> 0) s.

(** Successive writes [mem[i] = x0; mem[i+1] = x1; ...]. *)
Fixpoint store (mem : list Z) (i : nat) (l : list Z) : list Z :=
  match l with
  | [] => mem
  | x :: l' => store (<[i := x]> mem) (S i) l'
  end.

(** The characters that [to_base64_drain] and [to_base64_loop] write,
    in the order in which they write them. *)
Fixpoint drain_chars (fuel : nat) (acc acc_len : Z) : list Z * Z :=
  match fuel with
  | O => ([], acc_len)
  | S fuel' =>
      if 6 <=? acc_len then
        let acc_len := acc_len - 6 in
        let '(l, al) := drain_chars fuel' acc acc_len in
        (b64_byte_to_char (Z.land (Z.shiftr acc acc_len) 63) :: l, al)
      else ([], acc_len)
  end.

Fixpoint loop_chars (src_len : nat) (buf : list Z) (acc acc_len : Z)
  : list Z * Z * Z :=
  match src_len with
  | O => ([], acc, acc_len)
  | S src_len' =>
      let acc := u32 (Z.shiftl acc 8 + hd 0 buf) in
      let acc_len := u32 (acc_len + 8) in
      let '(l1, acc_len) := drain_chars (Z.to_nat acc_len) acc acc_len in
      let '(l2, acc', al') := loop_chars src_len' (tl buf) acc acc_len in
      (l1 ++ l2, acc', al')
  end.


(** The last character that [to_base64] writes for a partial group. *)
Definition last_char (acc acc_len : Z) : list Z :=
  if 0 <? acc_len
  then [b64_byte_to_char (Z.land (u32 (Z.shiftl acc (6 - acc_len))) 63)]
  else [].

(** The length that [to_base64] computes before it writes. *)
Definition base64_olen (src_len : nat) : nat :=
  let olen := Nat.shiftl (src_len / 3) 2 in
  match (src_len mod 3)%nat with
  | 2%nat => (olen + 1 + 2)%nat
  | 1%nat => (olen + 2)%nat
  | _ => olen
  end.

(** Base64 without padding, three bytes to four characters. *)
Fixpoint b64_text (src : list Z) : list Z :=
  match src with
  | [] => []
  | [b1] =>
      [b64_byte_to_char (b1 / 4); b64_byte_to_char (b1 mod 4 * 16)]
  | [b1; b2] =>
      [b64_byte_to_char (b1 / 4);
       b64_byte_to_char (b1 mod 4 * 16 + b2 / 16);
       b64_byte_to_char (b2 mod 16 * 4)]
  | b1 :: b2 :: b3 :: src' =>
      b64_byte_to_char (b1 / 4)
      :: b64_byte_to_char (b1 mod 4 * 16 + b2 / 16)
      :: b64_byte_to_char (b2 mod 16 * 4 + b3 / 64)
      :: b64_byte_to_char (b3 mod 64)
      :: b64_text src'
  end.

(** The loop of [from_base64] without the destination and its
    capacity: the bytes it gives, where it stops and with which
    accumulator. *)
Fixpoint b64_scan (src : list Z) (acc acc_len : Z)
  : list Z * list Z * Z * Z :=
  let d := b64_char_to_byte (peek src) in
  if d =? 255 then ([], src, acc, acc_len)
  else
    match src with
    | [] => ([], src, acc, acc_len)
    | _ :: src' =>
        let acc := u32 (Z.shiftl acc 6 + d) in
        let acc_len := u32 (acc_len + 6) in
        if 8 <=? acc_len then
          let acc_len := acc_len - 8 in
          let '(bytes, rest, acc', al') := b64_scan src' acc acc_len in
          (Z.land (Z.shiftr acc acc_len) 255 :: bytes, rest, acc', al')
        else b64_scan src' acc acc_len
    end.

(** The bytes that [from_base64] decodes when the capacity allows. *)
Definition from_base64_bytes (src : list Z) : list Z :=
  fst (fst (fst (b64_scan src 0 0))).

(** The Base64 run at the start of a string: the characters up to the
    first one that [b64_char_to_byte] sends to [0xFF]. *)
Fixpoint b64_run (src : list Z) : list Z :=
  match src with
  | [] => []
  | c :: src' => if b64_char_to_byte c =? 255 then [] else c :: b64_run src'
  end.

(** The bits of a run, six per character, as one number. *)
Definition add_sextet (v c : Z) : Z := v * 64 + b64_char_to_byte c.

Definition sextets_value (run : list Z) : Z := fold_left add_sextet run 0.

(** The number of whole bytes in the bits of a run. *)
Definition whole_bytes (run : list Z) : Z := (6 * Z.of_nat (length run)) / 8.

(** The bits of a run that do not make a whole byte. *)
Definition leftover_len (run : list Z) : Z := (6 * Z.of_nat (length run)) mod 8.
Definition leftover_bits (run : list Z) : Z :=
  sextets_value run mod 2 ^ leftover_len run.

(** Decimal digits, the digit run at the start of a string and the
    number it writes. *)
Definition is_digit (c : Z) : bool := (ch "0" <=? c) && (c <=? ch "9").

Fixpoint digit_run (str : list Z) : list Z :=
  match str with
  | [] => []
  | c :: str' => if is_digit c then c :: digit_run str' else []
  end.

Definition add_digit (v c : Z) : Z := v * 10 + (c - ch "0").

Definition digits_value (run : list Z) : Z := fold_left add_digit run 0.

(** The text of a binary field: the Base64 of its first [len] bytes. *)
Definition field_text (buf : list Z) (len : nat) : list Z :=
  b64_text (take len buf).

(** The hash string of a structure, by the grammar
    [$argon2i$m=<num>,t=<num>,p=<num>[,keyid=<bin>][,data=<bin>][$<bin>[$<bin>]]]. *)
Definition hash_string (pp : argon2i_params) : list Z :=
  cs "$argon2i$m=" ++ sprintf_lu (m pp)
  ++ cs ",t=" ++ sprintf_lu (t pp)
  ++ cs ",p=" ++ sprintf_lu (p pp)
  ++ (if (0 <? key_id_len pp)%nat
      then cs ",keyid=" ++ field_text (key_id pp) (key_id_len pp) else [])
  ++ (if (0 <? associated_data_len pp)%nat
      then cs ",data=" ++ field_text (associated_data pp) (associated_data_len pp)
      else [])
  ++ (if (salt_len pp =? 0)%nat then []
      else cs "$" ++ field_text (salt pp) (salt_len pp)
           ++ (if (output_len pp =? 0)%nat then []
               else cs "$" ++ field_text (output pp) (output_len pp))).

(** Writing the string [s] and its terminator at [dst], when
    [dst_len] allows, and moving [dst] to the terminator. *)
Definition advance (st : estate) (s : list Z) : estate :=
  {| e_mem := store (e_mem st) (e_dst st) (s ++ [0]);
     e_dst := (e_dst st + length s)%nat;
     e_dst_len := (e_dst_len st - length s)%nat |}.

Definition emit (s : list Z) : stmt estate :=
  fun st =>
    if (e_dst_len st <=? length s)%nat then Return 0 st
    else Continue (advance st s).

(** A binary field of a structure: an array of [size] bytes, [len] of
    which are in use. *)
Definition field_ok (buf : list Z) (len size : nat) : Prop :=
  length buf = size /\ (len <= size)%nat /\ Forall is_byte buf.

(** The structures with numbers that are not negative and fields
    within their arrays: the encoder reads a field up to its length,
    which it does not check against the size of the array. *)
Definition params_typed (pp : argon2i_params) : Prop :=
  0 <= m pp /\ 0 <= t pp /\ 0 <= p pp
  /\ field_ok (key_id pp) (key_id_len pp) sizeof_key_id
  /\ field_ok (associated_data pp) (associated_data_len pp) sizeof_associated_data
  /\ field_ok (salt pp) (salt_len pp) sizeof_salt
  /\ field_ok (output pp) (output_len pp) sizeof_output.

(** The invariants of the data model. *)
Definition params_valid (pp : argon2i_params) : Prop :=
  1 <= m pp <= 4294967295
  /\ 1 <= t pp <= 4294967295
  /\ 1 <= p pp <= 255
  /\ 8 * p pp <= m pp
  /\ (key_id_len pp <= 8)%nat
  /\ (associated_data_len pp <= 32)%nat
  /\ (salt_len pp = 0 \/ 8 <= salt_len pp <= 48)%nat
  /\ (output_len pp = 0 \/ 12 <= output_len pp <= 64)%nat
  /\ (0 < output_len pp -> 0 < salt_len pp)%nat.

(** Two structures hold the same record: the same numbers, and the
    same bytes in use in every field. *)
Definition same_record (pp qq : argon2i_params) : Prop :=
  m pp = m qq /\ t pp = t qq /\ p pp = p qq
  /\ key_id_len pp = key_id_len qq
  /\ take (key_id_len pp) (key_id pp) = take (key_id_len qq) (key_id qq)
  /\ associated_data_len pp = associated_data_len qq
  /\ take (associated_data_len pp) (associated_data pp)
     = take (associated_data_len qq) (associated_data qq)
  /\ salt_len pp = salt_len qq
  /\ take (salt_len pp) (salt pp) = take (salt_len qq) (salt qq)
  /\ output_len pp = output_len qq
  /\ take (output_len pp) (output pp) = take (output_len qq) (output qq).

(** The four arrays of a structure have their declared sizes, whatever
    the structure holds. *)
Definition params_sized (pp : argon2i_params) : Prop :=
  length (key_id pp) = sizeof_key_id
  /\ length (associated_data pp) = sizeof_associated_data
  /\ length (salt pp) = sizeof_salt
  /\ length (output pp) = sizeof_output.

(** The lengths of a structure are within the sizes of its arrays. *)
Definition lens_within (pp : argon2i_params) : Prop :=
  (key_id_len pp <= sizeof_key_id)%nat
  /\ (associated_data_len pp <= sizeof_associated_data)%nat
  /\ (salt_len pp <= sizeof_salt)%nat
  /\ (output_len pp <= sizeof_output)%nat.

(** The arrays of [pp] have the sizes of those of [pp0]. *)
Definition same_sizes (pp0 pp : argon2i_params) : Prop :=
  length (key_id pp) = length (key_id pp0)
  /\ length (associated_data pp) = length (associated_data pp0)
  /\ length (salt pp) = length (salt pp0)
  /\ length (output pp) = length (output pp0).

(** The structure [pp] after the four assignments that open
    [argon2i_decode_string]. *)
Definition lens_zeroed (pp : argon2i_params) : argon2i_params :=
  set_output_len 0 (set_salt_len 0 (set_associated_data_len 0 (set_key_id_len 0 pp))).

(** Two outcomes of [argon2i_decode_string] agree: the same value, and
    the same structure when the value is 1. *)
Definition agree {S : Type} (x y : Z * S) : Prop :=
  fst x = fst y /\ (fst y = 1 -> x = y).

(** From a structure with [P], the statements [g] return 0. *)
Definition zero_if (P : argon2i_params -> Prop) (g : stmt dstate) : Prop :=
  forall s, P (d_pp s) -> fst (run g s) = 0.

(** A statement keeps [P] on the structure and returns 0 or 1 only. *)
Definition preserves (P : argon2i_params -> Prop) (f : stmt dstate) : Prop :=
  forall s, P (d_pp s) ->
    match f s with
    | Return r s' => P (d_pp s') /\ (r = 0 \/ r = 1)
    | Continue s' => P (d_pp s')
    end.

(** The arrays of a structure, as the C type has them: of the declared
    sizes, and of bytes. *)
Definition params_arrays (pp : argon2i_params) : Prop :=
  params_sized pp
  /\ Forall is_byte (key_id pp)
  /\ Forall is_byte (associated_data pp)
  /\ Forall is_byte (salt pp)
  /\ Forall is_byte (output pp).

(** The mapping of [b64_char_to_byte] has one zero, at ['A']. *)
Definition char_to_byte_zero (c : Z) : bool :=
  Bool.eqb (b64_char_to_byte c =? 0) (c =? ch "A").

(** Structures for the examples: one that holds nothing, one that holds
    what a caller left in it, and one record of each shape. *)
Definition blank_params : argon2i_params :=
  {| m := 0; t := 0; p := 0;
     key_id := repeat 0 8; key_id_len := 0;
     associated_data := repeat 0 32; associated_data_len := 0;
     salt := repeat 0 48; salt_len := 0;
     output := repeat 0 64; output_len := 0 |}.

Definition used_params : argon2i_params :=
  {| m := 7; t := 7; p := 7;
     key_id := repeat 170 8; key_id_len := 3;
     associated_data := repeat 170 32; associated_data_len := 3;
     salt := repeat 170 48; salt_len := 9;
     output := repeat 170 64; output_len := 13 |}.

Definition record_params_only : argon2i_params :=
  {| m := 2040; t := 4294967295; p := 255;
     key_id := [72; 106; 53; 43; 100; 0; 0; 0]; key_id_len := 5;
     associated_data := repeat 0 32; associated_data_len := 0;
     salt := repeat 0 48; salt_len := 0;
     output := repeat 0 64; output_len := 0 |}.

Definition record_with_salt : argon2i_params :=
  {| m := 120; t := 5000; p := 2;
     key_id := repeat 0 8; key_id_len := 0;
     associated_data := repeat 255 32; associated_data_len := 32;
     salt := repeat 97 48; salt_len := 8;
     output := repeat 0 64; output_len := 0 |}.

Definition record_with_output : argon2i_params :=
  {| m := 16; t := 1; p := 2;
     key_id := repeat 1 8; key_id_len := 8;
     associated_data := repeat 2 32; associated_data_len := 1;
     salt := repeat 3 48; salt_len := 48;
     output := repeat 254 64; output_len := 64 |}.

Definition all_bytes (l : list Z) : bool :=
  forallb (fun b => (0 <=? b) && (b <=? 255)) l.

(** ** Further definitions used to state properties *)

(** What the comparison macros answer: 0xFF for true, 0x00 for false. *)
Definition mask_of (b : bool) : Z := if b then 255 else 0.

Definition macros_agree (x y : Z) : bool :=
  (EQ x y =? mask_of (x =? y))
  && (GT x y =? mask_of (y <? x))
  && (GE x y =? mask_of (y <=? x))
  && (LT x y =? mask_of (x <? y))
  && (LE x y =? mask_of (x <=? y)).

(** The character of a 6-bit value in the alphabet
    [A-Z a-z 0-9 + /]. *)
Definition b64_char (x : Z) : Z :=
  if x <? 26 then ch "A" + x
  else if x <? 52 then ch "a" + (x - 26)
  else if x <? 62 then ch "0" + (x - 52)
  else if x =? 62 then ch "+"
  else ch "/".

Definition byte_to_char_agrees (x : Z) : bool :=
  b64_byte_to_char x =? b64_char x.

Definition char_back_agrees (c : Z) : bool :=
  (b64_char_to_byte c =? 255) || (b64_byte_to_char (b64_char_to_byte c) =? c).

(** A character of the alphabet, as a character value. *)
Definition alphabet_char (c : Z) : Prop :=
  is_byte c /\ b64_char_to_byte c <> 255.

(** A character below zero, read as the character that
    [b64_char_to_byte] takes it for. *)
Definition as_slash (c : Z) : Z := if c <? 0 then ch "/" else c.

Definition below_zero_agrees (c : Z) : bool :=
  b64_char_to_byte (as_slash c) =? b64_char_to_byte c.

(** The parts of a hash string as [argon2i_decode_string] reads them:
    three numbers, and four binary parts, each of which is absent, or
    present with the bytes that it holds. *)
Record hash_parts : Type := {
  h_m : Z;
  h_t : Z;
  h_p : Z;
  h_keyid : option (list Z);
  h_data : option (list Z);
  h_salt : option (list Z);
  h_output : option (list Z)
}.

Definition part_text (prefix : list Z) (part : option (list Z)) : list Z :=
  match part with
  | None => []
  | Some bytes => prefix ++ b64_text bytes
  end.

Definition part_bytes (part : option (list Z)) : list Z :=
  match part with
  | None => []
  | Some bytes => bytes
  end.

Definition part_ok (lo hi : nat) (part : option (list Z)) : Prop :=
  match part with
  | None => True
  | Some bytes => Forall is_byte bytes /\ (lo <= length bytes <= hi)%nat
  end.

(** The text of the parts, by the grammar
    [$argon2i$m=<num>,t=<num>,p=<num>[,keyid=<bin>][,data=<bin>][$<bin>[$<bin>]]]. *)
Definition parts_text (h : hash_parts) : list Z :=
  cs "$argon2i$m=" ++ sprintf_lu (h_m h)
  ++ cs ",t=" ++ sprintf_lu (h_t h)
  ++ cs ",p=" ++ sprintf_lu (h_p h)
  ++ part_text (cs ",keyid=") (h_keyid h)
  ++ part_text (cs ",data=") (h_data h)
  ++ part_text (cs "$") (h_salt h)
  ++ part_text (cs "$") (h_output h).

(** The parts that [argon2i_decode_string] accepts. *)
Definition parts_valid (h : hash_parts) : Prop :=
  1 <= h_m h <= 4294967295
  /\ 1 <= h_t h <= 4294967295
  /\ 1 <= h_p h <= 255
  /\ 8 * h_p h <= h_m h
  /\ part_ok 0 sizeof_key_id (h_keyid h)
  /\ part_ok 0 sizeof_associated_data (h_data h)
  /\ part_ok 8 sizeof_salt (h_salt h)
  /\ part_ok 12 sizeof_output (h_output h)
  /\ (h_salt h = None -> h_output h = None).

(** The structure that holds the parts, in the arrays of [pp0]: the
    bytes of a part are at the start of its array, and an absent part
    has length 0 and leaves its array as it is. *)
Definition parts_params (pp0 : argon2i_params) (h : hash_parts) : argon2i_params :=
  {| m := h_m h; t := h_t h; p := h_p h;
     key_id := store (key_id pp0) 0 (part_bytes (h_keyid h));
     key_id_len := length (part_bytes (h_keyid h));
     associated_data := store (associated_data pp0) 0 (part_bytes (h_data h));
     associated_data_len := length (part_bytes (h_data h));
     salt := store (salt pp0) 0 (part_bytes (h_salt h));
     salt_len := length (part_bytes (h_salt h));
     output := store (output pp0) 0 (part_bytes (h_output h));
     output_len := length (part_bytes (h_output h)) |}.

(** A binary part as it stands in a string: the characters of the part
    and the bytes that [from_base64] makes of them. *)
Definition raw_part (prefix : list Z) (part : option (list Z * list Z)) : list Z :=
  match part with
  | None => []
  | Some (run, _) => prefix ++ run
  end.

Definition raw_ok (lo hi : nat) (part : option (list Z * list Z)) : Prop :=
  match part with
  | None => True
  | Some (run, bytes) =>
      Forall is_byte bytes /\ (lo <= length bytes <= hi)%nat
      /\ (Forall is_byte run -> run = b64_text bytes)
  end.

Definition raw_bytes (part : option (list Z * list Z)) : option (list Z) :=
  match part with
  | None => None
  | Some (_, bytes) => Some bytes
  end.

(** The parts that [argon2i_encode_string] writes: a key identifier or
    associated data without bytes is not written. *)
Definition drop_empty (part : option (list Z)) : option (list Z) :=
  match part with
  | Some [] => None
  | _ => part
  end.

Definition parts_normal (h : hash_parts) : hash_parts :=
  {| h_m := h_m h; h_t := h_t h; h_p := h_p h;
     h_keyid := drop_empty (h_keyid h);
     h_data := drop_empty (h_data h);
     h_salt := h_salt h;
     h_output := h_output h |}.

(** What every statement of [argon2i_encode_string] keeps, for a call
    on the buffer [mem0] with the capacity [cap]: [dst] and [dst_len]
    add up to [cap], the buffer keeps its length and its characters
    from [cap] on, and it is either as it was, with [dst] at its start,
    or holds characters that are not zero up to [dst] and a zero at
    [dst], with [dst_len] above zero. *)
Definition in_bounds (mem0 : list Z) (cap : nat) (st : estate) : Prop :=
  (e_dst st + e_dst_len st = cap)%nat
  /\ length (e_mem st) = length mem0
  /\ (forall i, (cap <= i)%nat -> e_mem st !! i = mem0 !! i)
  /\ ((e_dst st = 0%nat /\ e_mem st = mem0)
      \/ exists text,
           no_zero text /\ e_dst st = length text /\ (0 < e_dst_len st)%nat
           /\ e_mem st = store mem0 0 (text ++ [0])).

(** A statement of the encoder keeps [P] and returns 0 or 1 only. *)
Definition keeps (P : estate -> Prop) (f : stmt estate) : Prop :=
  forall st, P st ->
    match f st with
    | Return r st' => P st' /\ (r = 0 \/ r = 1)
    | Continue st' => P st'
    end.

(** The parts that a structure holds, and a check of parts that can be
    computed: the parts are valid and none of them is empty. *)
Definition part_of (buf : list Z) (len : nat) : option (list Z) :=
  if (0 <? len)%nat then Some (take len buf) else None.

Definition parts_of (pp : argon2i_params) : hash_parts :=
  {| h_m := m pp; h_t := t pp; h_p := p pp;
     h_keyid := part_of (key_id pp) (key_id_len pp);
     h_data := part_of (associated_data pp) (associated_data_len pp);
     h_salt := part_of (salt pp) (salt_len pp);
     h_output := part_of (output pp) (output_len pp) |}.

Definition part_check (lo hi : nat) (part : option (list Z)) : bool :=
  match part with
  | None => true
  | Some bytes =>
      all_bytes bytes && (0 <? length bytes)%nat
      && (lo <=? length bytes)%nat && (length bytes <=? hi)%nat
  end.

Definition parts_check (h : hash_parts) : bool :=
  (1 <=? h_m h) && (h_m h <=? 4294967295)
  && (1 <=? h_t h) && (h_t h <=? 4294967295)
  && (1 <=? h_p h) && (h_p h <=? 255)
  && (8 * h_p h <=? h_m h)
  && part_check 0 sizeof_key_id (h_keyid h)
  && part_check 0 sizeof_associated_data (h_data h)
  && part_check 8 sizeof_salt (h_salt h)
  && part_check 12 sizeof_output (h_output h)
  && match h_salt h, h_output h with
     | None, Some _ => false
     | _, _ => true
     end.

Fixpoint same_chars (a b : list Z) : bool :=
  match a, b with
  | [], [] => true
  | x :: a', y :: b' => (x =? y) && same_chars a' b'
  | _, _ => false
  end.

(** A string is the text of the valid parts that
    [argon2i_decode_string] reads from it, none of which is empty. *)
Definition kat_good_check (str : list Z) : bool :=
  let h := parts_of (snd (argon2i_decode_string 4294967295 blank_params str)) in
  same_chars str (parts_text h) && parts_check h.

(** A record with the longest hash string: numbers with the most
    digits and fields of the greatest lengths. *)
Definition longest_record : argon2i_params :=
  {| m := 4294967295; t := 4294967295; p := 255;
     key_id := repeat 255 8; key_id_len := 8;
     associated_data := repeat 255 32; associated_data_len := 32;
     salt := repeat 255 48; salt_len := 48;
     output := repeat 255 64; output_len := 64 |}.

(** The strings that [argon2i_encode_string] writes one after the
    other, each with its terminator, the next one over the terminator
    of the one before. *)
Definition pieces (pp : argon2i_params) : list (list Z) :=
  [cs "$argon2i$m="; sprintf_lu (m pp); cs ",t="; sprintf_lu (t pp);
   cs ",p="; sprintf_lu (p pp)]
  ++ (if (0 <? key_id_len pp)%nat
      then [cs ",keyid="; field_text (key_id pp) (key_id_len pp)] else [])
  ++ (if (0 <? associated_data_len pp)%nat
      then [cs ",data="; field_text (associated_data pp) (associated_data_len pp)]
      else [])
  ++ (if (salt_len pp =? 0)%nat then []
      else [cs "$"; field_text (salt pp) (salt_len pp)]
           ++ (if (output_len pp =? 0)%nat then []
               else [cs "$"; field_text (output pp) (output_len pp)])).

Fixpoint emit_all (l : list (list Z)) : stmt estate :=
  match l with
  | [] => ret (fun _ => 1)
  | s :: l' => (emit s ;; emit_all l')%stmt
  end.

(** The pieces that are written when the room is [room]: those before
    the first one that does not fit with its terminator. *)
Fixpoint written (l : list (list Z)) (room : nat) : list (list Z) :=
  match l with
  | [] => []
  | s :: l' =>
      if (room <=? length s)%nat then []
      else s :: written l' (room - length s)
  end.

(** * Proofs *)

(** ** The character mappings *)

Lemma Z_range_forallb (f : Z -> bool) (lo : Z) (n : nat) :
  forallb f (map (fun i => lo + Z.of_nat i) (seq 0 n)) = true ->
  forall c, lo <= c < lo + Z.of_nat n -> f c = true.
Proof.
  intros H c Hc.
  rewrite forallb_forall in H. apply H.
  apply in_map_iff. exists (Z.to_nat (c - lo)). split; [lia|].
  apply in_seq. lia.
Qed.

Lemma char_to_byte_table (c : Z) :
  0 <= c <= 255 -> char_to_byte_agrees c = true.
Proof.
  intros Hc. apply (Z_range_forallb char_to_byte_agrees 0 256); [|lia].
  vm_compute. reflexivity.
Qed.

Lemma char_to_byte_range (c : Z) :
  is_char c ->
  b64_char_to_byte c = 255 \/ 0 <= b64_char_to_byte c <= 63.
Proof.
  intros Hc.
  assert (H : char_to_byte_ranged c = true).
  { apply (Z_range_forallb char_to_byte_ranged (-128) 384).
    - vm_compute. reflexivity.
    - unfold is_char in Hc. lia. }
  revert H. unfold char_to_byte_ranged.
  generalize (b64_char_to_byte c). intros d H.
  apply orb_true_iff in H as [H|H]; [left; lia|right].
  apply andb_true_iff in H. lia.
Qed.

Lemma byte_to_char_table (x : Z) :
  0 <= x <= 63 ->
  b64_char_to_byte (b64_byte_to_char x) = x /\ 1 <= b64_byte_to_char x <= 127.
Proof.
  intros Hx.
  assert (H : byte_to_char_inverts x = true).
  { apply (Z_range_forallb byte_to_char_inverts 0 64); [|lia].
    vm_compute. reflexivity. }
  revert H. unfold byte_to_char_inverts.
  generalize (b64_byte_to_char x). intros c.
  generalize (b64_char_to_byte c). intros d H.
  apply andb_true_iff in H as [H H3]. apply andb_true_iff in H as [H1 H2]. lia.
Qed.

(** The comparison macros hold for values in 0..255.  On an [int]
    below zero, which is what [*src] gives for a byte from 0x80 on when
    [char] is signed, [EQ] answers 0xFF and the result is 63. *)
Remark b64_char_to_byte_below_zero (c : Z) :
  -128 <= c < 0 -> b64_char_to_byte c = 63.
Proof.
  intros Hc. apply Z.eqb_eq.
  apply (Z_range_forallb char_below_zero (-128) 128); [|lia].
  vm_compute. reflexivity.
Qed.

(** ** Writes into a buffer *)

Lemma length_store (l : list Z) : forall mem i, length (store mem i l) = length mem.
Proof.
  induction l as [|x l IH]; intros mem i; simpl; [reflexivity|].
  rewrite IH. apply length_insert.
Qed.

Lemma store_app (l1 l2 : list Z) :
  forall mem i,
    store mem i (l1 ++ l2) = store (store mem i l1) (i + length l1) l2.
Proof.
  induction l1 as [|x l1 IH]; intros mem i; simpl.
  - f_equal. lia.
  - rewrite IH. f_equal. lia.
Qed.

Lemma store_lookup_outside (l : list Z) :
  forall mem i j,
    (j < i \/ i + length l <= j)%nat -> store mem i l !! j = mem !! j.
Proof.
  induction l as [|x l IH]; intros mem i j Hj; simpl in *; [reflexivity|].
  rewrite IH by lia. apply list_lookup_insert_ne. lia.
Qed.

Lemma store_prefix (l : list Z) :
  forall pre room,
    (length l <= length room)%nat ->
    store (pre ++ room) (length pre) l = pre ++ l ++ drop (length l) room.
Proof.
  induction l as [|x l IH]; intros pre room Hl; simpl.
  - rewrite drop_0. reflexivity.
  - destruct room as [|r room]; simpl in Hl; [lia|].
    replace (length pre) with (length pre + 0)%nat at 1 by lia.
    rewrite insert_app_r. simpl.
    replace (pre ++ x :: room) with ((pre ++ [x]) ++ room)
      by (rewrite <- app_assoc; reflexivity).
    replace (S (length pre)) with (length (pre ++ [x]))
      by (rewrite length_app; simpl; lia).
    rewrite IH by lia. rewrite <- app_assoc. reflexivity.
Qed.

Lemma store_middle (l mem : list Z) (i : nat) :
  (i + length l <= length mem)%nat ->
  store mem i l = take i mem ++ l ++ drop (i + length l) mem.
Proof.
  intros H.
  assert (Hi : length (take i mem) = i) by (rewrite length_take; lia).
  transitivity (store (take i mem ++ drop i mem) (length (take i mem)) l).
  { rewrite take_drop, Hi. reflexivity. }
  rewrite store_prefix by (rewrite length_drop; lia).
  rewrite drop_drop. reflexivity.
Qed.

Lemma store_at_0 (l mem : list Z) :
  (length l <= length mem)%nat ->
  store mem 0 l = l ++ drop (length l) mem.
Proof. intros H. apply (store_prefix l [] mem H). Qed.

(** A string that is written over the terminator of the one before
    continues it. *)
Lemma store_continue (l1 l2 : list Z) (z : Z) (mem : list Z) (i : nat) :
  l2 <> [] ->
  store (store mem i (l1 ++ [z])) (i + length l1) l2 = store mem i (l1 ++ l2).
Proof.
  intros Hl2. destruct l2 as [|x l2]; [congruence|].
  rewrite !store_app. simpl. rewrite list_insert_insert_eq. reflexivity.
Qed.

Lemma memcpy_string (s : list Z) :
  forall mem dst,
    memcpy mem dst s (length s + 1) = store mem dst (s ++ [0]).
Proof.
  induction s as [|c s IH]; intros mem dst; simpl; [reflexivity|].
  apply IH.
Qed.

Lemma strlen_no_zero (s rest : list Z) :
  no_zero s -> peek rest = 0 -> strlen (s ++ rest) = length s.
Proof.
  unfold no_zero. induction 1 as [|c s Hc Hs IH]; intros Hrest; simpl.
  - destruct rest as [|r rest]; simpl in *; [reflexivity|]. subst r. reflexivity.
  - destruct (Z.eqb_spec c 0); [contradiction|]. rewrite IH by assumption. reflexivity.
Qed.

(** ** Bit arithmetic of the accumulators *)

Lemma land_63 (a : Z) : Z.land a 63 = a mod 64.
Proof. change 63 with (Z.ones 6). rewrite Z.land_ones by lia. reflexivity. Qed.

Lemma land_255 (a : Z) : Z.land a 255 = a mod 256.
Proof. change 255 with (Z.ones 8). rewrite Z.land_ones by lia. reflexivity. Qed.

(** Shifts and masks by constants become products, quotients and
    remainders, which linear arithmetic decides. *)
Ltac bits_to_arith :=
  unfold u32, UINT_MOD;
  rewrite ?land_63, ?land_255, ?Z.shiftl_mul_pow2, ?Z.shiftr_div_pow2 by lia;
  change (2 ^ 32) with 4294967296; change (2 ^ 8) with 256;
  change (2 ^ 6) with 64; change (2 ^ 4) with 16;
  change (2 ^ 2) with 4; change (2 ^ 0) with 1.

Ltac bits := bits_to_arith; Z.div_mod_to_equations; lia.

Section EncoderBits.

Variables acc b1 b2 b3 : Z.
Hypothesis Hb1 : is_byte b1.
Hypothesis Hb2 : is_byte b2.
Hypothesis Hb3 : is_byte b3.

Lemma enc_bits_1 :
  Z.land (Z.shiftr (u32 (Z.shiftl acc 8 + b1)) 2) 63 = b1 / 4.
Proof. unfold is_byte in *. bits. Qed.

Lemma enc_bits_2 :
  Z.land (Z.shiftr (u32 (Z.shiftl (u32 (Z.shiftl acc 8 + b1)) 8 + b2)) 4) 63
  = b1 mod 4 * 16 + b2 / 16.
Proof. unfold is_byte in *. bits. Qed.

Lemma enc_bits_3 :
  Z.land (Z.shiftr (u32 (Z.shiftl (u32 (Z.shiftl acc 8 + b2)) 8 + b3)) 6) 63
  = b2 mod 16 * 4 + b3 / 64.
Proof. unfold is_byte in *. bits. Qed.

Lemma enc_bits_4 :
  Z.land (Z.shiftr (u32 (Z.shiftl acc 8 + b3)) 0) 63 = b3 mod 64.
Proof. unfold is_byte in *. bits. Qed.

Lemma enc_bits_last_1 :
  Z.land (u32 (Z.shiftl (u32 (Z.shiftl acc 8 + b1)) (6 - 2))) 63 = b1 mod 4 * 16.
Proof. unfold is_byte in *. change (6 - 2) with 4. bits. Qed.

Lemma enc_bits_last_2 :
  Z.land (u32 (Z.shiftl (u32 (Z.shiftl acc 8 + b2)) (6 - 4))) 63 = b2 mod 16 * 4.
Proof. unfold is_byte in *. change (6 - 4) with 2. bits. Qed.

End EncoderBits.

(** ** [to_base64] *)

Lemma list_ind3 {A : Type} (P : list A -> Prop) :
  P [] ->
  (forall a, P [a]) ->
  (forall a b, P [a; b]) ->
  (forall a b c l, P l -> P (a :: b :: c :: l)) ->
  forall l, P l.
Proof.
  intros H0 H1 H2 H3. fix IH 1.
  intros [|a [|b [|c l]]]; [apply H0|apply H1|apply H2|apply H3, IH].
Qed.

(** The inner loop of [to_base64] ends because its test fails, with
    less than 6 bits left. *)
Lemma to_base64_drain_done (fuel : nat) :
  forall acc acc_len mem dst,
    acc_len <= Z.of_nat fuel ->
    fst (fst (to_base64_drain fuel acc acc_len mem dst)) < 6.
Proof.
  induction fuel as [|fuel IH]; intros acc acc_len mem dst Hf;
    cbn [to_base64_drain].
  - cbn [fst]. lia.
  - destruct (Z.leb_spec 6 acc_len) as [Hge|Hlt]; [|cbn [fst]; lia].
    apply IH. lia.
Qed.

Lemma to_base64_drain_chars (fuel : nat) :
  forall acc acc_len mem dst,
    to_base64_drain fuel acc acc_len mem dst =
    (snd (drain_chars fuel acc acc_len),
     store mem dst (fst (drain_chars fuel acc acc_len)),
     (dst + length (fst (drain_chars fuel acc acc_len)))%nat).
Proof.
  induction fuel as [|fuel IH]; intros acc acc_len mem dst; simpl.
  - f_equal. lia.
  - destruct (6 <=? acc_len); simpl.
    + rewrite IH. destruct (drain_chars fuel acc (acc_len - 6)) as [l al]. simpl.
      f_equal. lia.
    + f_equal. lia.
Qed.

Lemma to_base64_loop_chars (src_len : nat) :
  forall buf acc acc_len mem dst,
    to_base64_loop src_len buf acc acc_len mem dst =
    let '(l, acc', al') := loop_chars src_len buf acc acc_len in
    (acc', al', store mem dst l, (dst + length l)%nat).
Proof.
  induction src_len as [|n IH]; intros buf acc acc_len mem dst.
  - simpl. f_equal. lia.
  - cbn [to_base64_loop loop_chars]. cbv zeta.
    rewrite to_base64_drain_chars.
    destruct (drain_chars _ _ _) as [l1 al1]. cbn [fst snd].
    rewrite IH.
    destruct (loop_chars n (tl buf) _ al1) as [[l2 acc'] al'].
    rewrite store_app, length_app. f_equal. lia.
Qed.

(** The three states of the loop between two source bytes. *)
Lemma loop_chars_0 (n : nat) (b : Z) (buf : list Z) (acc : Z) :
  loop_chars (S n) (b :: buf) acc 0 =
  let a := u32 (Z.shiftl acc 8 + b) in
  let '(l, acc', al') := loop_chars n buf a 2 in
  (b64_byte_to_char (Z.land (Z.shiftr a 2) 63) :: l, acc', al').
Proof. reflexivity. Qed.

Lemma loop_chars_2 (n : nat) (b : Z) (buf : list Z) (acc : Z) :
  loop_chars (S n) (b :: buf) acc 2 =
  let a := u32 (Z.shiftl acc 8 + b) in
  let '(l, acc', al') := loop_chars n buf a 4 in
  (b64_byte_to_char (Z.land (Z.shiftr a 4) 63) :: l, acc', al').
Proof. reflexivity. Qed.

Lemma loop_chars_4 (n : nat) (b : Z) (buf : list Z) (acc : Z) :
  loop_chars (S n) (b :: buf) acc 4 =
  let a := u32 (Z.shiftl acc 8 + b) in
  let '(l, acc', al') := loop_chars n buf a 0 in
  (b64_byte_to_char (Z.land (Z.shiftr a 6) 63)
   :: b64_byte_to_char (Z.land (Z.shiftr a 0) 63) :: l, acc', al').
Proof. reflexivity. Qed.

Lemma loop_chars_text (rest : list Z) (bytes : list Z) :
  Forall is_byte bytes ->
  forall acc,
  exists l acc' al',
    loop_chars (length bytes) (bytes ++ rest) acc 0 = (l, acc', al')
    /\ b64_text bytes = l ++ last_char acc' al'.
Proof.
  induction bytes as [|b1|b1 b2|b1 b2 b3 bytes IH] using list_ind3;
    intros Hb acc.
  - exists [], acc, 0. split; reflexivity.
  - inversion_clear Hb as [|? ? H1 _].
    eexists _, _, _. split.
    + cbn [length app]. rewrite loop_chars_0. cbv zeta. cbn [loop_chars]. reflexivity.
    + unfold last_char. cbn [Z.ltb Z.compare app b64_text].
      rewrite enc_bits_1, enc_bits_last_1 by assumption. reflexivity.
  - inversion_clear Hb as [|? ? H1 Hb']. inversion_clear Hb' as [|? ? H2 _].
    eexists _, _, _. split.
    + cbn [length app]. rewrite loop_chars_0. cbv zeta.
      rewrite loop_chars_2. cbv zeta. cbn [loop_chars]. reflexivity.
    + unfold last_char. cbn [Z.ltb Z.compare app b64_text].
      rewrite enc_bits_1, enc_bits_2, enc_bits_last_2 by assumption. reflexivity.
  - inversion_clear Hb as [|? ? H1 Hb']. inversion_clear Hb' as [|? ? H2 Hb].
    inversion_clear Hb as [|? ? H3 Hb'].
    destruct (IH Hb' (u32 (Z.shiftl (u32 (Z.shiftl (u32 (Z.shiftl acc 8 + b1)) 8 + b2)) 8 + b3)))
      as (l & acc' & al' & Hl & Ht).
    exists (b64_byte_to_char (b1 / 4)
            :: b64_byte_to_char (b1 mod 4 * 16 + b2 / 16)
            :: b64_byte_to_char (b2 mod 16 * 4 + b3 / 64)
            :: b64_byte_to_char (b3 mod 64) :: l), acc', al'.
    split.
    + cbn [length app]. rewrite loop_chars_0. cbv zeta.
      rewrite loop_chars_2. cbv zeta. rewrite loop_chars_4. cbv zeta.
      rewrite Hl.
      rewrite enc_bits_1, enc_bits_2, enc_bits_3, enc_bits_4 by assumption.
      reflexivity.
    + cbn [b64_text]. rewrite Ht. reflexivity.
Qed.

Lemma length_b64_text (bytes : list Z) :
  length (b64_text bytes) = base64_olen (length bytes).
Proof.
  induction bytes as [|b1|b1 b2|b1 b2 b3 bytes IH] using list_ind3;
    try reflexivity.
  cbn [b64_text length]. rewrite IH. unfold base64_olen.
  replace (S (S (S (length bytes)))) with (length bytes + 1 * 3)%nat by lia.
  rewrite Nat.div_add, Nat.Div0.mod_add by lia.
  rewrite !Nat.shiftl_mul_pow2. change (2 ^ 2)%nat with 4%nat.
  destruct (length bytes mod 3)%nat as [|[|[|k]]]; simpl length; lia.
Qed.

Lemma b64_text_chars (bytes : list Z) :
  Forall is_byte bytes ->
  Forall (fun c => 1 <= c <= 127 /\ b64_char_to_byte c <> 255) (b64_text bytes).
Proof.
  assert (Hc : forall x, 0 <= x <= 63 ->
            1 <= b64_byte_to_char x <= 127
            /\ b64_char_to_byte (b64_byte_to_char x) <> 255).
  { intros x Hx. destruct (byte_to_char_table x Hx) as [-> ?]. lia. }
  induction bytes as [|b1|b1 b2|b1 b2 b3 bytes IH] using list_ind3; intros Hb.
  - constructor.
  - inversion_clear Hb as [|? ? H1 _]. unfold is_byte in *. cbn [b64_text].
    repeat constructor; apply Hc; Z.div_mod_to_equations; lia.
  - inversion_clear Hb as [|? ? H1 Hb']. inversion_clear Hb' as [|? ? H2 _].
    unfold is_byte in *. cbn [b64_text].
    repeat constructor; apply Hc; Z.div_mod_to_equations; lia.
  - inversion_clear Hb as [|? ? H1 Hb']. inversion_clear Hb' as [|? ? H2 Hb].
    inversion_clear Hb as [|? ? H3 Hb'].
    unfold is_byte in *. cbn [b64_text].
    repeat (constructor; [apply Hc; Z.div_mod_to_equations; lia|]).
    apply IH, Hb'.
Qed.

Lemma b64_text_no_zero (bytes : list Z) :
  Forall is_byte bytes -> no_zero (b64_text bytes).
Proof.
  intros Hb. unfold no_zero.
  eapply Forall_impl; [apply b64_text_chars, Hb|].
  intros c Hc. simpl in Hc. lia.
Qed.

(** [to_base64] refuses a destination that has no room for the text
    and its terminator, and writes them otherwise. *)
Lemma to_base64_text (mem : list Z) (dst dst_len : nat) (src : list Z) (src_len : nat) :
  (src_len <= length src)%nat ->
  Forall is_byte (take src_len src) ->
  to_base64 mem dst dst_len src src_len =
  let text := b64_text (take src_len src) in
  if (dst_len <=? length text)%nat then (None, mem)
  else (Some (length text), store mem dst (text ++ [0])).
Proof.
  intros Hlen Hb. cbv zeta.
  assert (Hn : length (take src_len src) = src_len) by (rewrite length_take; lia).
  rewrite length_b64_text, Hn.
  unfold to_base64. fold (base64_olen src_len).
  destruct (dst_len <=? base64_olen src_len)%nat; [reflexivity|].
  rewrite to_base64_loop_chars.
  destruct (loop_chars_text (drop src_len src) _ Hb 0) as (l & acc' & al' & Hl & Ht).
  rewrite Hn, take_drop in Hl. rewrite Hl, Ht.
  unfold last_char. destruct (0 <? al').
  - f_equal. rewrite <- app_assoc, !store_app. simpl.
    replace (dst + length l + 1)%nat with (S (dst + length l)) by lia.
    reflexivity.
  - rewrite app_nil_r, store_app. reflexivity.
Qed.

(** ** [from_base64] *)

(** The loop writes the bytes of [b64_scan] for as long as the capacity
    allows. *)
Lemma from_base64_loop_scan (cap : nat) (src : list Z) :
  forall acc acc_len len dst buf,
    from_base64_loop cap src acc acc_len len dst buf =
    let '(bytes, rest, acc', al') := b64_scan src acc acc_len in
    if (cap - len <? length bytes)%nat
    then (LoopFull, store dst buf (take (cap - len) bytes))
    else (LoopBreak rest acc' al' (len + length bytes), store dst buf bytes).
Proof.
  induction src as [|c src IH]; intros acc acc_len len dst buf.
  - cbn [from_base64_loop b64_scan].
    destruct (b64_char_to_byte (peek []) =? 255);
      cbn [length store Nat.ltb Nat.leb]; rewrite Nat.add_0_r; reflexivity.
  - cbn [from_base64_loop b64_scan]. cbv zeta.
    destruct (b64_char_to_byte (peek (c :: src)) =? 255).
    { cbn [length store Nat.ltb Nat.leb]. rewrite Nat.add_0_r. reflexivity. }
    set (a := u32 (Z.shiftl acc 6 + b64_char_to_byte (peek (c :: src)))).
    set (al := u32 (acc_len + 6)).
    destruct (8 <=? al); [|apply IH].
    rewrite IH.
    destruct (b64_scan src a (al - 8)) as [[[bytes rest] acc'] al'].
    cbn [length].
    destruct (Nat.leb_spec cap len) as [Hfull|Hroom].
    + replace (cap - len)%nat with 0%nat by lia. reflexivity.
    + replace (cap - len)%nat with (S (cap - S len)) by lia.
      cbn [take store].
      change (S (cap - S len) <? S (length bytes))%nat
        with (cap - S len <? length bytes)%nat.
      replace (len + S (length bytes))%nat with (S len + length bytes)%nat by lia.
      reflexivity.
Qed.

(** The four states of the loop between two characters. *)
Section ScanSteps.

Variables (c : Z) (src : list Z) (acc : Z).
Hypothesis Hc : b64_char_to_byte c <> 255.

Let a : Z := u32 (Z.shiftl acc 6 + b64_char_to_byte c).

Lemma b64_scan_0 : b64_scan (c :: src) acc 0 = b64_scan src a 6.
Proof.
  cbn [b64_scan peek]. destruct (Z.eqb_spec (b64_char_to_byte c) 255); [contradiction|].
  reflexivity.
Qed.

Lemma b64_scan_6 :
  b64_scan (c :: src) acc 6 =
  let '(bytes, rest, acc', al') := b64_scan src a 4 in
  (Z.land (Z.shiftr a 4) 255 :: bytes, rest, acc', al').
Proof.
  cbn [b64_scan peek]. destruct (Z.eqb_spec (b64_char_to_byte c) 255); [contradiction|].
  reflexivity.
Qed.

Lemma b64_scan_4 :
  b64_scan (c :: src) acc 4 =
  let '(bytes, rest, acc', al') := b64_scan src a 2 in
  (Z.land (Z.shiftr a 2) 255 :: bytes, rest, acc', al').
Proof.
  cbn [b64_scan peek]. destruct (Z.eqb_spec (b64_char_to_byte c) 255); [contradiction|].
  reflexivity.
Qed.

Lemma b64_scan_2 :
  b64_scan (c :: src) acc 2 =
  let '(bytes, rest, acc', al') := b64_scan src a 0 in
  (Z.land (Z.shiftr a 0) 255 :: bytes, rest, acc', al').
Proof.
  cbn [b64_scan peek]. destruct (Z.eqb_spec (b64_char_to_byte c) 255); [contradiction|].
  reflexivity.
Qed.

End ScanSteps.

Lemma b64_scan_stop (src : list Z) (acc acc_len : Z) :
  b64_char_to_byte (peek src) = 255 ->
  b64_scan src acc acc_len = ([], src, acc, acc_len).
Proof.
  intros H. destruct src as [|c src]; cbn [b64_scan]; rewrite H; reflexivity.
Qed.

Section DecoderBits.

Variables acc b1 b2 b3 : Z.
Hypothesis Hb1 : is_byte b1.
Hypothesis Hb2 : is_byte b2.
Hypothesis Hb3 : is_byte b3.

Lemma dec_bits_1 :
  Z.land (Z.shiftr
    (u32 (Z.shiftl (u32 (Z.shiftl acc 6 + b1 / 4)) 6 + (b1 mod 4 * 16 + b2 / 16))) 4) 255
  = b1.
Proof. unfold is_byte in *. bits. Qed.

Lemma dec_bits_2 :
  Z.land (Z.shiftr
    (u32 (Z.shiftl (u32 (Z.shiftl acc 6 + (b1 mod 4 * 16 + b2 / 16))) 6
          + (b2 mod 16 * 4 + b3 / 64))) 2) 255
  = b2.
Proof. unfold is_byte in *. bits. Qed.

Lemma dec_bits_3 :
  Z.land (Z.shiftr
    (u32 (Z.shiftl (u32 (Z.shiftl acc 6 + (b2 mod 16 * 4 + b3 / 64))) 6 + b3 mod 64)) 0) 255
  = b3.
Proof. unfold is_byte in *. bits. Qed.

Lemma dec_bits_last_1 :
  Z.land (Z.shiftr
    (u32 (Z.shiftl (u32 (Z.shiftl acc 6 + b1 / 4)) 6 + b1 mod 4 * 16)) 4) 255
  = b1.
Proof. unfold is_byte in *. bits. Qed.

Lemma dec_bits_last_2 :
  Z.land (Z.shiftr
    (u32 (Z.shiftl (u32 (Z.shiftl acc 6 + (b1 mod 4 * 16 + b2 / 16))) 6
          + b2 mod 16 * 4)) 2) 255
  = b2.
Proof. unfold is_byte in *. bits. Qed.

Lemma dec_bits_zero_4 :
  Z.land (u32 (Z.shiftl acc 6 + b1 mod 4 * 16)) (u32 (Z.shiftl 1 4 - 1)) = 0.
Proof.
  unfold is_byte in *. change (u32 (Z.shiftl 1 4 - 1)) with (Z.ones 4).
  rewrite Z.land_ones by lia. bits.
Qed.

Lemma dec_bits_zero_2 :
  Z.land (u32 (Z.shiftl acc 6 + b2 mod 16 * 4)) (u32 (Z.shiftl 1 2 - 1)) = 0.
Proof.
  unfold is_byte in *. change (u32 (Z.shiftl 1 2 - 1)) with (Z.ones 2).
  rewrite Z.land_ones by lia. bits.
Qed.

End DecoderBits.

Lemma sextet_back (x : Z) :
  0 <= x <= 63 ->
  b64_char_to_byte (b64_byte_to_char x) = x
  /\ b64_char_to_byte (b64_byte_to_char x) <> 255.
Proof. intros Hx. destruct (byte_to_char_table x Hx) as [-> _]. lia. Qed.

(** Scanning the text of [bytes] gives [bytes] back and leaves no bit. *)
Lemma b64_scan_text (rest : list Z) (bytes : list Z) :
  b64_char_to_byte (peek rest) = 255 ->
  Forall is_byte bytes ->
  forall acc,
  exists acc' al',
    b64_scan (b64_text bytes ++ rest) acc 0 = (bytes, rest, acc', al')
    /\ 0 <= al' <= 4
    /\ Z.land acc' (u32 (Z.shiftl 1 al' - 1)) = 0.
Proof.
  intros Hrest.
  induction bytes as [|b1|b1 b2|b1 b2 b3 bytes IH] using list_ind3;
    intros Hb acc.
  - exists acc, 0. cbn [b64_text app]. rewrite b64_scan_stop by assumption.
    split; [reflexivity|]. split; [lia|]. apply Z.land_0_r.
  - inversion_clear Hb as [|? ? H1 _].
    assert (Hs1 : 0 <= b1 / 4 <= 63)
      by (unfold is_byte in *; Z.div_mod_to_equations; lia).
    assert (Hs2 : 0 <= b1 mod 4 * 16 <= 63)
      by (unfold is_byte in *; Z.div_mod_to_equations; lia).
    destruct (sextet_back _ Hs1) as [E1 N1]. destruct (sextet_back _ Hs2) as [E2 N2].
    eexists _, 4. cbn [b64_text app].
    rewrite b64_scan_0 by assumption. rewrite b64_scan_6 by assumption.
    rewrite b64_scan_stop by assumption. rewrite E1, E2.
    rewrite dec_bits_last_1 by assumption.
    split; [reflexivity|]. split; [lia|]. apply dec_bits_zero_4.
  - inversion_clear Hb as [|? ? H1 Hb']. inversion_clear Hb' as [|? ? H2 _].
    assert (Hs1 : 0 <= b1 / 4 <= 63)
      by (unfold is_byte in *; Z.div_mod_to_equations; lia).
    assert (Hs2 : 0 <= b1 mod 4 * 16 + b2 / 16 <= 63)
      by (unfold is_byte in *; Z.div_mod_to_equations; lia).
    assert (Hs3 : 0 <= b2 mod 16 * 4 <= 63)
      by (unfold is_byte in *; Z.div_mod_to_equations; lia).
    destruct (sextet_back _ Hs1) as [E1 N1]. destruct (sextet_back _ Hs2) as [E2 N2].
    destruct (sextet_back _ Hs3) as [E3 N3].
    eexists _, 2. cbn [b64_text app].
    rewrite b64_scan_0 by assumption. rewrite b64_scan_6 by assumption.
    rewrite b64_scan_4 by assumption.
    rewrite b64_scan_stop by assumption. rewrite E1, E2, E3.
    rewrite dec_bits_1, dec_bits_last_2 by assumption.
    split; [reflexivity|]. split; [lia|]. apply dec_bits_zero_2.
  - inversion_clear Hb as [|? ? H1 Hb']. inversion_clear Hb' as [|? ? H2 Hb].
    inversion_clear Hb as [|? ? H3 Hb'].
    assert (Hs1 : 0 <= b1 / 4 <= 63)
      by (unfold is_byte in *; Z.div_mod_to_equations; lia).
    assert (Hs2 : 0 <= b1 mod 4 * 16 + b2 / 16 <= 63)
      by (unfold is_byte in *; Z.div_mod_to_equations; lia).
    assert (Hs3 : 0 <= b2 mod 16 * 4 + b3 / 64 <= 63)
      by (unfold is_byte in *; Z.div_mod_to_equations; lia).
    assert (Hs4 : 0 <= b3 mod 64 <= 63)
      by (unfold is_byte in *; Z.div_mod_to_equations; lia).
    destruct (sextet_back _ Hs1) as [E1 N1]. destruct (sextet_back _ Hs2) as [E2 N2].
    destruct (sextet_back _ Hs3) as [E3 N3]. destruct (sextet_back _ Hs4) as [E4 N4].
    cbn [b64_text app].
    rewrite b64_scan_0 by assumption. rewrite b64_scan_6 by assumption.
    rewrite b64_scan_4 by assumption. rewrite b64_scan_2 by assumption.
    rewrite E1, E2, E3, E4.
    rewrite dec_bits_1, dec_bits_2, dec_bits_3 by assumption.
    match goal with
    | |- context [b64_scan _ ?a 0] => destruct (IH Hb' a) as (acc' & al' & Hs & Hal & Hz)
    end.
    exists acc', al'. rewrite Hs. split; [reflexivity|]. split; assumption.
Qed.

(** [from_base64] on the text of [bytes], followed by a character that
    is not of the alphabet. *)
Lemma from_base64_text (dst : list Z) (cap : nat) (bytes rest : list Z) :
  b64_char_to_byte (peek rest) = 255 ->
  Forall is_byte bytes ->
  (length bytes <= cap)%nat ->
  from_base64 dst cap (b64_text bytes ++ rest) =
  (Some rest, store dst 0 bytes, length bytes).
Proof.
  intros Hrest Hb Hcap. unfold from_base64.
  rewrite from_base64_loop_scan.
  destruct (b64_scan_text rest bytes Hrest Hb 0) as (acc' & al' & Hs & Hal & Hz).
  rewrite Hs. rewrite Nat.sub_0_r.
  destruct (Nat.ltb_spec cap (length bytes)) as [?|_]; [lia|].
  rewrite Hz. destruct (Z.ltb_spec 4 al') as [?|_]; [lia|].
  reflexivity.
Qed.

(** ** [from_base64] and the Base64 run of its input *)

Lemma from_base64_scan (dst : list Z) (cap : nat) (src : list Z) :
  from_base64 dst cap src =
  let '(bytes, rest, acc, acc_len) := b64_scan src 0 0 in
  if (cap <? length bytes)%nat then (None, store dst 0 (take cap bytes), cap)
  else if (4 <? acc_len) || negb (Z.land acc (u32 (Z.shiftl 1 acc_len - 1)) =? 0)
       then (None, store dst 0 bytes, cap)
       else (Some rest, store dst 0 bytes, length bytes).
Proof.
  unfold from_base64. rewrite from_base64_loop_scan.
  destruct (b64_scan src 0 0) as [[[bytes rest] acc] acc_len].
  rewrite Nat.sub_0_r. destruct (cap <? length bytes)%nat; reflexivity.
Qed.

Lemma b64_run_stops (src : list Z) :
  b64_char_to_byte (peek (drop (length (b64_run src)) src)) = 255.
Proof.
  induction src as [|c src IH]; cbn [b64_run].
  - vm_compute. reflexivity.
  - destruct (Z.eqb_spec (b64_char_to_byte c) 255) as [E|E]; cbn [length drop peek];
      assumption.
Qed.

Lemma b64_run_alphabet (src : list Z) :
  Forall (fun c => b64_char_to_byte c <> 255) (b64_run src).
Proof.
  induction src as [|c src IH]; cbn [b64_run]; [constructor|].
  destruct (Z.eqb_spec (b64_char_to_byte c) 255); constructor; assumption.
Qed.

Lemma u32_add_sextet (v d : Z) :
  u32 (Z.shiftl (u32 v) 6 + d) = u32 (v * 64 + d).
Proof. bits. Qed.

(** The state of the loop after a run: the low 32 bits of its bits,
    the number of bits that wait, and one byte for eight bits. *)
Lemma b64_scan_run (src : list Z) :
  forall v al,
    al = 0 \/ al = 2 \/ al = 4 \/ al = 6 ->
    let run := b64_run src in
    let '(bytes, rest, acc', al') := b64_scan src (u32 v) al in
    rest = drop (length run) src
    /\ acc' = u32 (fold_left add_sextet run v)
    /\ al' = (al + 6 * Z.of_nat (length run)) mod 8
    /\ Z.of_nat (length bytes) = (al + 6 * Z.of_nat (length run)) / 8.
Proof.
  induction src as [|c src IH]; intros v al Hal; cbv zeta.
  - cbn [b64_scan b64_run length drop fold_left].
    destruct (b64_char_to_byte (peek []) =? 255); cbn [length];
      (split; [reflexivity|]; split; [reflexivity|]; split;
       [Z.div_mod_to_equations; lia|Z.div_mod_to_equations; lia]).
  - cbn [b64_scan b64_run peek]. cbv zeta.
    destruct (Z.eqb_spec (b64_char_to_byte c) 255) as [E|E].
    { cbn [length drop fold_left].
      split; [reflexivity|]. split; [reflexivity|].
      split; Z.div_mod_to_equations; lia. }
    rewrite u32_add_sextet. fold (add_sextet v c).
    assert (Hu : u32 (al + 6) = al + 6).
    { unfold u32, UINT_MOD. apply Z.mod_small. change (2 ^ 32) with 4294967296. lia. }
    rewrite Hu. cbn [length drop fold_left].
    destruct (Z.leb_spec 8 (al + 6)) as [Hge|Hlt].
    + assert (Hal' : al + 6 - 8 = 0 \/ al + 6 - 8 = 2 \/ al + 6 - 8 = 4 \/ al + 6 - 8 = 6)
        by lia.
      specialize (IH (add_sextet v c) (al + 6 - 8) Hal'). cbv zeta in IH.
      destruct (b64_scan src (u32 (add_sextet v c)) (al + 6 - 8))
        as [[[bytes rest] acc'] al'].
      destruct IH as (Hr & Ha & Hl & Hb). cbn [length].
      split; [assumption|]. split; [assumption|].
      rewrite Nat2Z.inj_succ.
      split; [rewrite Hl|rewrite Nat2Z.inj_succ, Hb]; Z.div_mod_to_equations; lia.
    + assert (Hal' : al + 6 = 0 \/ al + 6 = 2 \/ al + 6 = 4 \/ al + 6 = 6) by lia.
      specialize (IH (add_sextet v c) (al + 6) Hal'). cbv zeta in IH.
      destruct (b64_scan src (u32 (add_sextet v c)) (al + 6))
        as [[[bytes rest] acc'] al'].
      destruct IH as (Hr & Ha & Hl & Hb).
      split; [assumption|]. split; [assumption|].
      rewrite Nat2Z.inj_succ.
      split; [rewrite Hl|rewrite Hb]; Z.div_mod_to_equations; lia.
Qed.

Lemma leftover_len_cases (run : list Z) :
  leftover_len run = 0 \/ leftover_len run = 2
  \/ leftover_len run = 4 \/ leftover_len run = 6.
Proof. unfold leftover_len. Z.div_mod_to_equations. lia. Qed.

Lemma leftover_len_6 (run : list Z) :
  leftover_len run = 6 <-> (length run mod 4 = 1)%nat.
Proof.
  unfold leftover_len.
  pose proof (Nat.div_mod_eq (length run) 4) as E.
  pose proof (Nat.mod_upper_bound (length run) 4) as B.
  split; intros H.
  - Z.div_mod_to_equations. lia.
  - rewrite H in E. rewrite E. Z.div_mod_to_equations. lia.
Qed.

(** The bits that the last test of [from_base64] looks at are the bits
    of the run that do not make a whole byte. *)
Lemma leftover_test (run : list Z) :
  Z.land (u32 (sextets_value run)) (u32 (Z.shiftl 1 (leftover_len run) - 1))
  = leftover_bits run.
Proof.
  unfold leftover_bits.
  destruct (leftover_len_cases run) as [E|[E|[E|E]]]; rewrite E.
  - change (u32 (Z.shiftl 1 0 - 1)) with (Z.ones 0).
    rewrite Z.land_ones by lia. bits.
  - change (u32 (Z.shiftl 1 2 - 1)) with (Z.ones 2).
    rewrite Z.land_ones by lia. bits.
  - change (u32 (Z.shiftl 1 4 - 1)) with (Z.ones 4).
    rewrite Z.land_ones by lia. bits.
  - change (u32 (Z.shiftl 1 6 - 1)) with (Z.ones 6).
    rewrite Z.land_ones by lia. bits.
Qed.

(** The loop of [from_base64], when the capacity allows, ends at the
    end of the run, with the bits of the run in its accumulator. *)
Lemma from_base64_loop_run (dst : list Z) (cap : nat) (src : list Z) :
  (length (from_base64_bytes src) <= cap)%nat ->
  fst (from_base64_loop cap src 0 0 0 dst 0)
  = LoopBreak (drop (length (b64_run src)) src) (u32 (sextets_value (b64_run src)))
      (leftover_len (b64_run src)) (length (from_base64_bytes src)).
Proof.
  intros Hcap. rewrite from_base64_loop_scan. unfold from_base64_bytes in *.
  pose proof (b64_scan_run src 0 0 (or_introl eq_refl)) as H. cbv zeta in H.
  change (u32 0) with 0 in H.
  destruct (b64_scan src 0 0) as [[[bytes rest] acc] al]. cbn [fst] in *.
  destruct H as (Hr & Ha & Hl & Hb). cbn [Z.add] in Hl.
  rewrite Nat.sub_0_r.
  destruct (Nat.ltb_spec cap (length bytes)) as [?|_]; [lia|].
  cbn [fst Nat.add]. rewrite Hr, Ha, Hl. reflexivity.
Qed.

(** [from_base64] in terms of the run of its input. *)
Lemma from_base64_run (dst : list Z) (cap : nat) (src : list Z) :
  let run := b64_run src in
  let bytes := from_base64_bytes src in
  Z.of_nat (length bytes) = whole_bytes run
  /\ from_base64 dst cap src =
     if (cap <? length bytes)%nat then (None, store dst 0 (take cap bytes), cap)
     else if (4 <? leftover_len run) || negb (leftover_bits run =? 0)
          then (None, store dst 0 bytes, cap)
          else (Some (drop (length run) src), store dst 0 bytes, length bytes).
Proof.
  cbv zeta. rewrite from_base64_scan. unfold from_base64_bytes.
  pose proof (b64_scan_run src 0 0 (or_introl eq_refl)) as H. cbv zeta in H.
  change (u32 0) with 0 in H.
  destruct (b64_scan src 0 0) as [[[bytes rest] acc] al]. cbn [fst].
  destruct H as (Hr & Ha & Hl & Hb). cbn [Z.add] in Hl, Hb.
  split; [exact Hb|].
  fold (sextets_value (b64_run src)) in Ha. fold (leftover_len (b64_run src)) in Hl.
  rewrite Hr, Ha, Hl, leftover_test. reflexivity.
Qed.

(** ** The strict decimal parser *)

Lemma is_digit_range (c : Z) : is_digit c = true <-> 48 <= c <= 57.
Proof.
  unfold is_digit. change (ch "0") with 48. change (ch "9") with 57.
  rewrite andb_true_iff, !Z.leb_le. reflexivity.
Qed.

Lemma not_digit_test (c : Z) :
  (c <? ch "0") || (c >? ch "9") = negb (is_digit c).
Proof.
  unfold is_digit. change (ch "0") with 48. change (ch "9") with 57.
  destruct (Z.ltb_spec c 48), (Z.leb_spec 48 c), (Z.leb_spec c 57);
    rewrite ?Z.gtb_ltb; destruct (Z.ltb_spec 57 c); simpl; try reflexivity; lia.
Qed.

Lemma add_digits_ge (run : list Z) :
  Forall (fun c => is_digit c = true) run ->
  forall acc, 0 <= acc -> acc <= fold_left add_digit run acc.
Proof.
  induction 1 as [|c run Hc _ IH]; intros acc Hacc; simpl; [lia|].
  apply is_digit_range in Hc.
  etransitivity; [|apply IH]; unfold add_digit; change (ch "0") with 48; lia.
Qed.

Lemma digit_run_digits (str : list Z) :
  Forall (fun c => is_digit c = true) (digit_run str).
Proof.
  induction str as [|c str IH]; simpl; [constructor|].
  destruct (is_digit c) eqn:Hc; constructor; assumption.
Qed.

Lemma digit_run_app (l rest : list Z) :
  Forall (fun c => is_digit c = true) l ->
  is_digit (peek rest) = false ->
  digit_run (l ++ rest) = l.
Proof.
  intros Hl Hrest. induction Hl as [|c l Hc _ IH]; simpl.
  - destruct rest as [|r rest]; simpl in *; [reflexivity|]. rewrite Hrest. reflexivity.
  - rewrite Hc, IH. reflexivity.
Qed.

Lemma digit_run_stops (str : list Z) :
  is_digit (peek (drop (length (digit_run str)) str)) = false.
Proof.
  induction str as [|c str IH]; simpl; [reflexivity|].
  destruct (is_digit c) eqn:Hc; simpl; assumption.
Qed.

Section DecimalProofs.

Variable ULONG_MAX : Z.
Hypothesis ULONG_MAX_ge : 4294967295 <= ULONG_MAX.

Lemma decode_decimal_loop_run (str : list Z) :
  forall n acc,
    0 <= acc <= ULONG_MAX ->
    decode_decimal_loop ULONG_MAX str n acc =
    let run := digit_run str in
    if fold_left add_digit run acc >? ULONG_MAX then None
    else Some (drop (length run) str, (n + length run)%nat, fold_left add_digit run acc).
Proof.
  induction str as [|c str IH]; intros n acc Hacc.
  - cbn [decode_decimal_loop digit_run fold_left length drop peek]. cbv zeta.
    rewrite Nat.add_0_r.
    destruct (Z.gtb_spec acc ULONG_MAX); [lia|].
    destruct (orb _ _); reflexivity.
  - cbn [decode_decimal_loop digit_run peek]. cbv zeta.
    rewrite not_digit_test.
    destruct (is_digit c) eqn:Hc; cbn [negb fold_left length drop].
    + apply is_digit_range in Hc.
      assert (Hv : add_digit acc c = acc * 10 + (c - 48)) by reflexivity.
      pose proof (add_digits_ge (digit_run str) (digit_run_digits str)
                    (add_digit acc c)) as Hge.
      change (ch "0") with 48.
      assert (Hc' : ulong ULONG_MAX (c - 48) = c - 48)
        by (apply Z.mod_small; lia).
      rewrite Hc'.
      rewrite !Z.gtb_ltb.
      destruct (Z.ltb_spec (ULONG_MAX / 10) acc) as [Ho|Ho].
      { destruct (Z.ltb_spec ULONG_MAX
                    (fold_left add_digit (digit_run str) (add_digit acc c)));
          [reflexivity|].
        exfalso. assert (0 <= add_digit acc c) by lia.
        specialize (Hge H0). Z.div_mod_to_equations. lia. }
      assert (Ha : ulong ULONG_MAX (acc * 10) = acc * 10).
      { apply Z.mod_small. Z.div_mod_to_equations. lia. }
      rewrite Ha.
      assert (Hd : ulong ULONG_MAX (ULONG_MAX - acc * 10) = ULONG_MAX - acc * 10).
      { apply Z.mod_small. Z.div_mod_to_equations. lia. }
      rewrite Hd.
      destruct (Z.ltb_spec (ULONG_MAX - acc * 10) (c - 48)) as [Ho2|Ho2].
      { destruct (Z.ltb_spec ULONG_MAX
                    (fold_left add_digit (digit_run str) (add_digit acc c)));
          [reflexivity|].
        exfalso. assert (0 <= add_digit acc c) by lia.
        specialize (Hge H0). lia. }
      assert (Hs : ulong ULONG_MAX (acc * 10 + (c - 48)) = add_digit acc c).
      { rewrite Hv. apply Z.mod_small. lia. }
      rewrite Hs.
      rewrite IH by lia. cbv zeta.
      rewrite !Z.gtb_ltb.
      replace (S n + length (digit_run str))%nat
        with (n + S (length (digit_run str)))%nat by lia.
      reflexivity.
    + rewrite Nat.add_0_r.
      destruct (Z.gtb_spec acc ULONG_MAX); [lia|reflexivity].
Qed.

(** [decode_decimal] in terms of the digit run of its input. *)
Lemma decode_decimal_run (str : list Z) :
  decode_decimal ULONG_MAX str =
  let run := digit_run str in
  if (length run =? 0)%nat || ((peek str =? ch "0") && negb (length run =? 1)%nat)
  then None
  else if digits_value run >? ULONG_MAX then None
  else Some (drop (length run) str, digits_value run).
Proof.
  unfold decode_decimal. rewrite decode_decimal_loop_run by lia. cbv zeta.
  fold (digits_value (digit_run str)). cbn [Nat.add].
  destruct (digits_value (digit_run str) >? ULONG_MAX);
    destruct (orb _ _); reflexivity.
Qed.

End DecimalProofs.

(** The digits that [sprintf] writes. *)
Lemma decimal_digits_spec (fuel : nat) :
  forall x,
    0 <= x < 2 ^ (Z.of_nat fuel + 1) ->
    exists d l,
      decimal_digits fuel x = d :: l
      /\ Forall (fun c => is_digit c = true) (d :: l)
      /\ digits_value (d :: l) = x
      /\ (d = ch "0" -> x = 0 /\ l = []).
Proof.
  unfold digits_value.
  induction fuel as [|fuel IH]; intros x Hx.
  - change (2 ^ (Z.of_nat 0 + 1)) with 2 in Hx.
    exists (ch "0" + x mod 10), []. cbn [decimal_digits fold_left].
    unfold add_digit. change (ch "0") with 48.
    rewrite Z.mod_small by lia.
    split; [reflexivity|]. split; [|split; [lia|intros; split; [lia|reflexivity]]].
    constructor; [|constructor]. apply is_digit_range. lia.
  - cbn [decimal_digits]. destruct (Z.ltb_spec x 10) as [Hs|Hb].
    + exists (ch "0" + x), []. cbn [fold_left]. unfold add_digit. change (ch "0") with 48.
      split; [reflexivity|]. split; [|split; [lia|intros; split; [lia|reflexivity]]].
      constructor; [|constructor]. apply is_digit_range. lia.
    + assert (Hq : 0 <= x / 10 < 2 ^ (Z.of_nat fuel + 1)).
      { replace (Z.of_nat (S fuel) + 1) with (Z.succ (Z.of_nat fuel + 1)) in Hx by lia.
        rewrite Z.pow_succ_r in Hx by lia.
        Z.div_mod_to_equations. lia. }
      destruct (IH _ Hq) as (d & l & Hd & Hf & Hv & Hz).
      exists d, (l ++ [ch "0" + x mod 10]). rewrite Hd.
      split; [reflexivity|]. split; [|split].
      * change (d :: l ++ [ch "0" + x mod 10]) with ((d :: l) ++ [ch "0" + x mod 10]).
        apply Forall_app. split; [assumption|].
        constructor; [|constructor]. apply is_digit_range.
        change (ch "0") with 48. Z.div_mod_to_equations. lia.
      * change (d :: l ++ [ch "0" + x mod 10]) with ((d :: l) ++ [ch "0" + x mod 10]).
        rewrite fold_left_app, Hv. cbn [fold_left]. unfold add_digit.
        change (ch "0") with 48. Z.div_mod_to_equations. lia.
      * intros H0. destruct (Hz H0) as [Hx0 _]. exfalso.
        Z.div_mod_to_equations. lia.
Qed.

Lemma sprintf_lu_spec (x : Z) :
  0 <= x ->
  exists d l,
    sprintf_lu x = d :: l
    /\ Forall (fun c => is_digit c = true) (d :: l)
    /\ digits_value (d :: l) = x
    /\ (d = ch "0" -> x = 0 /\ l = []).
Proof.
  intros Hx. unfold sprintf_lu. apply decimal_digits_spec.
  destruct (Z.eq_dec x 0) as [->|Hne]; [simpl; lia|].
  rewrite Z2Nat.id by apply Z.log2_nonneg.
  split; [lia|]. replace (Z.log2 x + 1) with (Z.succ (Z.log2 x)) by lia.
  apply Z.log2_spec. lia.
Qed.

Lemma length_decimal_digits (fuel : nat) :
  forall x k,
    0 <= x < 10 ^ Z.of_nat (S k) ->
    (length (decimal_digits fuel x) <= S k)%nat.
Proof.
  induction fuel as [|fuel IH]; intros x k Hx; cbn [decimal_digits].
  - simpl. lia.
  - destruct (Z.ltb_spec x 10) as [Hs|Hb]; [simpl; lia|].
    rewrite length_app. cbn [length].
    destruct k as [|k]; [change (10 ^ Z.of_nat 1) with 10 in Hx; lia|].
    specialize (IH (x / 10) k).
    assert (0 <= x / 10 < 10 ^ Z.of_nat (S k)); [|lia].
    replace (Z.of_nat (S (S k))) with (Z.succ (Z.of_nat (S k))) in Hx by lia.
    rewrite Z.pow_succ_r in Hx by lia.
    Z.div_mod_to_equations. lia.
Qed.

Lemma sprintf_lu_digits (x : Z) :
  0 <= x -> Forall (fun c => is_digit c = true) (sprintf_lu x).
Proof.
  intros Hx. destruct (sprintf_lu_spec x Hx) as (d & l & -> & H & _). exact H.
Qed.

Lemma digits_no_zero (l : list Z) :
  Forall (fun c => is_digit c = true) l -> no_zero l.
Proof.
  unfold no_zero. intros H. eapply Forall_impl; [exact H|].
  intros c Hc. simpl in Hc. apply is_digit_range in Hc. lia.
Qed.

(** [decode_decimal] reads back what [sprintf] wrote. *)
Lemma decode_decimal_sprintf (ULONG_MAX x : Z) (rest : list Z) :
  4294967295 <= ULONG_MAX ->
  0 <= x <= ULONG_MAX ->
  is_digit (peek rest) = false ->
  decode_decimal ULONG_MAX (sprintf_lu x ++ rest) = Some (rest, x).
Proof.
  intros HU Hx Hrest. rewrite decode_decimal_run by lia. cbv zeta.
  destruct (sprintf_lu_spec x) as (d & l & Hd & Hf & Hv & Hz); [lia|].
  rewrite digit_run_app by (try apply sprintf_lu_digits; try assumption; lia).
  rewrite Hd, Hv, <- Hd, drop_app_length, Hd.
  cbn [peek app length].
  destruct (Z.eqb_spec d (ch "0")) as [H0|H0].
  - destruct (Hz H0) as [_ ->]. cbn.
    destruct (Z.gtb_spec x ULONG_MAX); [lia|reflexivity].
  - cbn. destruct (Z.gtb_spec x ULONG_MAX); [lia|reflexivity].
Qed.

Lemma decode_decimal_too_big (ULONG_MAX x : Z) (rest : list Z) :
  4294967295 <= ULONG_MAX < x ->
  is_digit (peek rest) = false ->
  decode_decimal ULONG_MAX (sprintf_lu x ++ rest) = None.
Proof.
  intros Hx Hrest. assert (Hx0 : 0 <= x) by lia.
  rewrite decode_decimal_run by lia. cbv zeta.
  rewrite digit_run_app by (try apply sprintf_lu_digits; assumption).
  destruct (sprintf_lu_spec x) as (d & l & Hd & Hf & Hv & Hz); [lia|].
  rewrite Hd, Hv.
  destruct (orb _ _); [reflexivity|].
  destruct (Z.gtb_spec x ULONG_MAX); [reflexivity|lia].
Qed.

(** ** [argon2i_encode_string] *)

Lemma SS_emit (s : list Z) (st : estate) : no_zero s -> SS s st = emit s st.
Proof.
  intros Hs. unfold SS, emit. cbv zeta.
  assert (Hl : strlen s = length s).
  { rewrite <- (app_nil_r s) at 1. apply strlen_no_zero; [assumption|reflexivity]. }
  rewrite Hl. destruct (e_dst_len st <=? length s)%nat; [reflexivity|].
  rewrite memcpy_string. reflexivity.
Qed.

Lemma SX_emit (x : Z) (st : estate) : 0 <= x -> SX x st = emit (sprintf_lu x) st.
Proof.
  intros Hx. unfold SX. cbv zeta. apply SS_emit, digits_no_zero, sprintf_lu_digits, Hx.
Qed.

Lemma field_ok_take (buf : list Z) (len size : nat) :
  field_ok buf len size ->
  (len <= length buf)%nat /\ Forall is_byte (take len buf)
  /\ length (take len buf) = len.
Proof.
  intros (Hsize & Hlen & Hb). split; [lia|]. split.
  - apply Forall_take, Hb.
  - rewrite length_take. lia.
Qed.

Lemma SB_emit (buf : list Z) (len size : nat) (st : estate) :
  field_ok buf len size -> SB buf len st = emit (field_text buf len) st.
Proof.
  intros Hf. destruct (field_ok_take _ _ _ Hf) as (Hlen & Hb & _).
  unfold SB, emit, field_text. rewrite to_base64_text by assumption. cbv zeta.
  destruct (e_dst_len st <=? length (b64_text (take len buf)))%nat.
  - destruct st; reflexivity.
  - reflexivity.
Qed.

(** One statement of the body at a time. *)
Lemma run_emit_seq (f g : stmt estate) (s : list Z) (st : estate) :
  f st = emit s st ->
  run (f ;; g)%stmt st =
  if (e_dst_len st <=? length s)%nat then (0, st) else run g (advance st s).
Proof.
  intros Hf. unfold run, seq_stmt. rewrite Hf. unfold emit.
  destruct (e_dst_len st <=? length s)%nat; reflexivity.
Qed.

Lemma run_when_true (h g : stmt estate) (st : estate) :
  run (when (fun _ => true) h ;; g)%stmt st = run (h ;; g)%stmt st.
Proof. reflexivity. Qed.

Lemma run_when_false (h g : stmt estate) (st : estate) :
  run (when (fun _ => false) h ;; g)%stmt st = run g st.
Proof. reflexivity. Qed.

Lemma run_seq_assoc (f1 f2 g : stmt estate) (st : estate) :
  run ((f1 ;; f2) ;; g)%stmt st = run (f1 ;; f2 ;; g)%stmt st.
Proof. unfold run, seq_stmt. destruct (f1 st); reflexivity. Qed.

Lemma advance_advance (st : estate) (s1 s2 : list Z) :
  advance (advance st s1) s2 = advance st (s1 ++ s2).
Proof.
  unfold advance. cbn [e_mem e_dst e_dst_len]. f_equal.
  - rewrite store_continue by (destruct s2; discriminate).
    rewrite <- app_assoc. reflexivity.
  - rewrite length_app. lia.
  - rewrite length_app. lia.
Qed.

Lemma e_dst_len_advance (st : estate) (s : list Z) :
  e_dst_len (advance st s) = (e_dst_len st - length s)%nat.
Proof. reflexivity. Qed.

Lemma cs_no_zero_7 : no_zero (cs ",keyid=").
Proof. repeat constructor; discriminate. Qed.
Lemma cs_no_zero_6 : no_zero (cs ",data=").
Proof. repeat constructor; discriminate. Qed.
Lemma cs_no_zero_1 : no_zero (cs "$").
Proof. repeat constructor; discriminate. Qed.

Create HintDb emits discriminated.
#[local] Hint Extern 1 (no_zero (cs _)) =>
  (repeat constructor; discriminate) : emits.

Lemma run_SS (s : list Z) (g : stmt estate) (st : estate) :
  no_zero s ->
  run (SS s ;; g)%stmt st =
  if (e_dst_len st <=? length s)%nat then (0, st) else run g (advance st s).
Proof. intros H. apply run_emit_seq, SS_emit, H. Qed.

Lemma run_SX (x : Z) (g : stmt estate) (st : estate) :
  0 <= x ->
  run (SX x ;; g)%stmt st =
  if (e_dst_len st <=? length (sprintf_lu x))%nat then (0, st)
  else run g (advance st (sprintf_lu x)).
Proof. intros H. apply run_emit_seq, SX_emit, H. Qed.

Lemma run_SB (buf : list Z) (len size : nat) (g : stmt estate) (st : estate) :
  field_ok buf len size ->
  run (SB buf len ;; g)%stmt st =
  if (e_dst_len st <=? length (field_text buf len))%nat then (0, st)
  else run g (advance st (field_text buf len)).
Proof. intros H. apply run_emit_seq, (SB_emit _ _ _ _ H). Qed.

(** Runs the next statement of the body: a test of a length that is
    known, or a write, which the capacity allows or not. *)
Ltac encode_step :=
  first
    [ rewrite run_when_true, ?run_seq_assoc
    | rewrite run_when_false
    | rewrite run_SS by auto with emits
    | rewrite run_SX by assumption
    | erewrite run_SB by eassumption ].

Lemma encode_run (pp : argon2i_params) (st : estate) :
  params_typed pp ->
  ((e_dst_len st <= length (hash_string pp))%nat ->
   fst (run (argon2i_encode_body pp) st) = 0)
  /\ ((length (hash_string pp) < e_dst_len st)%nat ->
      run (argon2i_encode_body pp) st = (1, advance st (hash_string pp))).
Proof.
  intros (Hm & Ht & Hp & Hk & Ha & Hs & Ho).
  unfold argon2i_encode_body, hash_string.
  destruct (0 <? key_id_len pp)%nat, (0 <? associated_data_len pp)%nat,
    (salt_len pp =? 0)%nat, (output_len pp =? 0)%nat;
    (split; intros Hcap;
     rewrite ?length_app in Hcap; cbn [length] in Hcap;
     repeat (encode_step;
             rewrite ?e_dst_len_advance;
             match goal with
             | |- context [Nat.leb ?a ?b] =>
                 destruct (Nat.leb_spec a b); [try reflexivity; try lia|]
             | _ => idtac
             end);
     try lia;
     rewrite ?advance_advance; rewrite ?app_nil_r, <- ?app_assoc; reflexivity).
Qed.

Lemma encode_success (mem : list Z) (cap : nat) (pp : argon2i_params) :
  params_typed pp ->
  (length (hash_string pp) < cap)%nat ->
  argon2i_encode_string mem cap pp = (1, store mem 0 (hash_string pp ++ [0])).
Proof.
  intros Hpp Hcap. unfold argon2i_encode_string.
  destruct (encode_run pp {| e_mem := mem; e_dst := 0; e_dst_len := cap |} Hpp)
    as [_ Hok].
  rewrite (Hok Hcap). reflexivity.
Qed.

Lemma encode_failure (mem : list Z) (cap : nat) (pp : argon2i_params) :
  params_typed pp ->
  (cap <= length (hash_string pp))%nat ->
  fst (argon2i_encode_string mem cap pp) = 0.
Proof.
  intros Hpp Hcap. unfold argon2i_encode_string.
  destruct (encode_run pp {| e_mem := mem; e_dst := 0; e_dst_len := cap |} Hpp)
    as [Hfail _].
  specialize (Hfail Hcap).
  destruct (run _ _) as [r s]. exact Hfail.
Qed.

(** What the buffer holds after a successful call. *)
Lemma encode_buffer (mem : list Z) (cap : nat) (pp : argon2i_params) :
  params_typed pp ->
  (length (hash_string pp) < cap)%nat ->
  (cap <= length mem)%nat ->
  argon2i_encode_string mem cap pp
  = (1, hash_string pp ++ 0 :: drop (S (length (hash_string pp))) mem).
Proof.
  intros Hpp Hcap Hmem. rewrite encode_success by assumption. f_equal.
  revert Hcap. generalize (hash_string pp). intros hs Hcap.
  rewrite store_at_0 by (rewrite length_app; cbn [length]; lia).
  rewrite <- app_assoc, length_app. cbn [length app].
  replace (length hs + 1)%nat with (S (length hs)) by lia.
  reflexivity.
Qed.

Lemma params_valid_typed (pp : argon2i_params) :
  params_valid pp ->
  params_sized pp ->
  Forall is_byte (key_id pp) -> Forall is_byte (associated_data pp) ->
  Forall is_byte (salt pp) -> Forall is_byte (output pp) ->
  params_typed pp.
Proof.
  unfold params_valid, params_sized, params_typed, field_ok,
    sizeof_key_id, sizeof_associated_data, sizeof_salt, sizeof_output.
  intros (Hm & Ht & Hp & Hmp & Hk & Ha & Hs & Ho & Hos) (Lk & La & Ls & Lo) Bk Ba Bs Bo.
  repeat split; try assumption; lia.
Qed.

Lemma hash_string_no_zero (pp : argon2i_params) :
  params_typed pp -> no_zero (hash_string pp).
Proof.
  intros (Hm & Ht & Hp & Hk & Ha & Hs & Ho). unfold hash_string, no_zero, field_text.
  destruct (field_ok_take _ _ _ Hk) as (_ & Bk & _).
  destruct (field_ok_take _ _ _ Ha) as (_ & Ba & _).
  destruct (field_ok_take _ _ _ Hs) as (_ & Bs & _).
  destruct (field_ok_take _ _ _ Ho) as (_ & Bo & _).
  repeat (apply Forall_app; split);
    try (apply digits_no_zero, sprintf_lu_digits; assumption);
    try (repeat constructor; discriminate).
  - destruct (0 <? key_id_len pp)%nat; [|constructor].
    apply Forall_app; split; [apply cs_no_zero_7|apply b64_text_no_zero, Bk].
  - destruct (0 <? associated_data_len pp)%nat; [|constructor].
    apply Forall_app; split; [apply cs_no_zero_6|apply b64_text_no_zero, Ba].
  - destruct (salt_len pp =? 0)%nat; [constructor|].
    repeat (apply Forall_app; split);
      [apply cs_no_zero_1|apply b64_text_no_zero, Bs|].
    destruct (output_len pp =? 0)%nat; [constructor|].
    apply Forall_app; split; [apply cs_no_zero_1|apply b64_text_no_zero, Bo].
Qed.

(** No hash string of a valid record is longer than 259 characters. *)
Lemma length_sprintf_lu_32 (x : Z) :
  0 <= x <= 4294967295 -> (length (sprintf_lu x) <= 10)%nat.
Proof.
  intros Hx. unfold sprintf_lu. apply (length_decimal_digits _ x 9).
  change (10 ^ Z.of_nat 10) with 10000000000. lia.
Qed.

Lemma base64_olen_le (n k : nat) :
  (n <= k)%nat -> (base64_olen n <= base64_olen k)%nat.
Proof.
  assert (H : forall a, (base64_olen a <= base64_olen (S a))%nat).
  { intros a. unfold base64_olen. rewrite !Nat.shiftl_mul_pow2.
    change (2 ^ 2)%nat with 4%nat.
    pose proof (Nat.div_mod_eq a 3) as Ea.
    pose proof (Nat.div_mod_eq (S a) 3) as Eb.
    pose proof (Nat.mod_upper_bound a 3) as Ua.
    pose proof (Nat.mod_upper_bound (S a) 3) as Ub.
    destruct (a mod 3)%nat as [|[|[|?]]], (S a mod 3)%nat as [|[|[|?]]]; lia. }
  induction 1 as [|k _ IH]; [lia|]. etransitivity; [exact IH|apply H].
Qed.

Lemma length_field_text (buf : list Z) (len size : nat) :
  field_ok buf len size ->
  length (field_text buf len) = base64_olen len.
Proof.
  intros Hf. destruct (field_ok_take _ _ _ Hf) as (_ & _ & Hl).
  unfold field_text. rewrite length_b64_text, Hl. reflexivity.
Qed.

Lemma length_hash_string (pp : argon2i_params) :
  params_valid pp -> params_typed pp ->
  (length (hash_string pp) <= 259)%nat.
Proof.
  intros (Hm & Ht & Hp & Hmp & Hk & Ha & Hs & Ho & Hos) (_ & _ & _ & Fk & Fa & Fs & Fo).
  unfold hash_string. rewrite !length_app.
  pose proof (length_sprintf_lu_32 (m pp)) as Lm.
  pose proof (length_sprintf_lu_32 (t pp)) as Lt.
  assert (Lp : (length (sprintf_lu (p pp)) <= 3)%nat).
  { unfold sprintf_lu. apply (length_decimal_digits _ (p pp) 2).
    change (10 ^ Z.of_nat 3) with 1000. lia. }
  assert (Lk : (length (field_text (key_id pp) (key_id_len pp)) <= 11)%nat).
  { rewrite (length_field_text _ _ _ Fk). apply (base64_olen_le _ 8). lia. }
  assert (La : (length (field_text (associated_data pp) (associated_data_len pp)) <= 43)%nat).
  { rewrite (length_field_text _ _ _ Fa). apply (base64_olen_le _ 32). lia. }
  assert (Ls : (length (field_text (salt pp) (salt_len pp)) <= 64)%nat).
  { rewrite (length_field_text _ _ _ Fs). apply (base64_olen_le _ 48). lia. }
  assert (Lo : (length (field_text (output pp) (output_len pp)) <= 86)%nat).
  { rewrite (length_field_text _ _ _ Fo). apply (base64_olen_le _ 64). lia. }
  destruct (0 <? key_id_len pp)%nat, (0 <? associated_data_len pp)%nat,
    (salt_len pp =? 0)%nat, (output_len pp =? 0)%nat;
    rewrite ?length_app; cbn [length cs]; lia.
Qed.

(** ** [argon2i_decode_string] *)

Lemma strncmp_eq_prefix (lit rest : list Z) :
  no_zero lit ->
  strlen lit = length lit /\ strncmp_eq (lit ++ rest) lit (length lit) = true.
Proof.
  intros Hl. split.
  - rewrite <- (app_nil_r lit) at 1. apply strlen_no_zero; [assumption|reflexivity].
  - induction Hl as [|c lit Hc _ IH]; [reflexivity|].
    cbn [app length strncmp_eq peek tl]. rewrite Z.eqb_refl.
    destruct (Z.eqb_spec c 0); [contradiction|]. exact IH.
Qed.

Lemma check_range32 (v : Z) :
  1 <= v <= 4294967295 -> (v <? 1) || (Z.shiftr v 30 >? 3) = false.
Proof.
  intros Hv. rewrite Z.shiftr_div_pow2 by lia. change (2 ^ 30) with 1073741824.
  rewrite Z.gtb_ltb.
  destruct (Z.ltb_spec v 1); [lia|].
  destruct (Z.ltb_spec 3 (v / 1073741824)); [|reflexivity].
  exfalso. Z.div_mod_to_equations. lia.
Qed.

Lemma check_range32_fail (v : Z) :
  v < 1 \/ 4294967295 < v -> (v <? 1) || (Z.shiftr v 30 >? 3) = true.
Proof.
  intros Hv. rewrite Z.shiftr_div_pow2 by lia. change (2 ^ 30) with 1073741824.
  rewrite Z.gtb_ltb.
  destruct (Z.ltb_spec v 1); [reflexivity|].
  destruct (Z.ltb_spec 3 (v / 1073741824)); [reflexivity|].
  exfalso. Z.div_mod_to_equations. lia.
Qed.

Lemma check_p_range (v : Z) : 1 <= v <= 255 -> (v <? 1) || (v >? 255) = false.
Proof.
  intros Hv. rewrite Z.gtb_ltb.
  destruct (Z.ltb_spec v 1); [lia|]. destruct (Z.ltb_spec 255 v); [lia|reflexivity].
Qed.

Section DecodeProofs.

Variable ULONG_MAX : Z.
Hypothesis ULONG_MAX_ge : 4294967295 <= ULONG_MAX.

Lemma ulong_shiftl_p (vp : Z) :
  1 <= vp <= 255 -> ulong_shiftl ULONG_MAX vp 3 = 8 * vp.
Proof.
  intros Hp. unfold ulong_shiftl, ulong. rewrite Z.shiftl_mul_pow2 by lia.
  change (2 ^ 3) with 8. rewrite Z.mod_small; lia.
Qed.

Lemma check_m_range (vm vp : Z) :
  1 <= vp <= 255 -> 8 * vp <= vm -> (vm <? ulong_shiftl ULONG_MAX vp 3) = false.
Proof.
  intros Hp Hm. rewrite ulong_shiftl_p by assumption.
  destruct (Z.ltb_spec vm (8 * vp)); [lia|reflexivity].
Qed.

Lemma run_assign (f : argon2i_params -> argon2i_params) (g : stmt dstate) (st : dstate) :
  run (assign f ;; g)%stmt st = run g {| d_pp := f (d_pp st); d_str := d_str st |}.
Proof. reflexivity. Qed.

Lemma run_CC (lit rest : list Z) (g : stmt dstate) (pp : argon2i_params) :
  no_zero lit ->
  run (CC lit ;; g)%stmt {| d_pp := pp; d_str := lit ++ rest |}
  = run g {| d_pp := pp; d_str := rest |}.
Proof.
  intros Hl. destruct (strncmp_eq_prefix lit rest Hl) as [Hlen Hcmp].
  unfold run, seq_stmt, CC. cbv zeta. cbn [d_pp d_str].
  rewrite Hlen, Hcmp, drop_app_length. reflexivity.
Qed.

Lemma run_CC_fail (lit : list Z) (g : stmt dstate) (st : dstate) :
  strncmp_eq (d_str st) lit (strlen lit) = false ->
  run (CC lit ;; g)%stmt st = (0, st).
Proof.
  intros H. unfold run, seq_stmt, CC. cbv zeta. rewrite H. reflexivity.
Qed.

Lemma run_CC_opt_yes (lit rest : list Z) (code g : stmt dstate) (pp : argon2i_params) :
  no_zero lit ->
  run (CC_opt lit code ;; g)%stmt {| d_pp := pp; d_str := lit ++ rest |}
  = run (code ;; g)%stmt {| d_pp := pp; d_str := rest |}.
Proof.
  intros Hl. destruct (strncmp_eq_prefix lit rest Hl) as [Hlen Hcmp].
  unfold run, seq_stmt, CC_opt. cbv zeta. cbn [d_pp d_str].
  rewrite Hlen, Hcmp, drop_app_length. reflexivity.
Qed.

Lemma run_CC_opt_no (lit : list Z) (code g : stmt dstate) (st : dstate) :
  strncmp_eq (d_str st) lit (strlen lit) = false ->
  run (CC_opt lit code ;; g)%stmt st = run g st.
Proof.
  intros H. unfold run, seq_stmt, CC_opt. cbv zeta. rewrite H. reflexivity.
Qed.

Lemma run_DECIMAL (set_x : Z -> argon2i_params -> argon2i_params)
    (x : Z) (rest : list Z) (g : stmt dstate) (pp : argon2i_params) :
  0 <= x <= ULONG_MAX ->
  is_digit (peek rest) = false ->
  run (DECIMAL ULONG_MAX set_x ;; g)%stmt {| d_pp := pp; d_str := sprintf_lu x ++ rest |}
  = run g {| d_pp := set_x x pp; d_str := rest |}.
Proof.
  intros Hx Hrest. unfold run, seq_stmt, DECIMAL. cbn [d_pp d_str].
  rewrite decode_decimal_sprintf by assumption. reflexivity.
Qed.

Lemma run_DECIMAL_fail (set_x : Z -> argon2i_params -> argon2i_params)
    (g : stmt dstate) (st : dstate) :
  decode_decimal ULONG_MAX (d_str st) = None ->
  run (DECIMAL ULONG_MAX set_x ;; g)%stmt st = (0, st).
Proof.
  intros H. unfold run, seq_stmt, DECIMAL. rewrite H. reflexivity.
Qed.

Lemma run_guard (c : dstate -> bool) (r : dstate -> Z) (g : stmt dstate) (st : dstate) :
  c st = false -> run (when c (ret r) ;; g)%stmt st = run g st.
Proof. intros H. unfold run, seq_stmt, when. rewrite H. reflexivity. Qed.

Lemma run_guard_yes (c : dstate -> bool) (r : dstate -> Z) (g : stmt dstate) (st : dstate) :
  c st = true -> run (when c (ret r) ;; g)%stmt st = (r st, st).
Proof. intros H. unfold run, seq_stmt, when, ret. rewrite H. reflexivity. Qed.

Lemma run_BIN (buf : argon2i_params -> list Z)
    (set_buf : list Z -> argon2i_params -> argon2i_params) (max_len : nat)
    (set_len : nat -> argon2i_params -> argon2i_params)
    (bytes rest : list Z) (g : stmt dstate) (pp : argon2i_params) :
  b64_char_to_byte (peek rest) = 255 ->
  Forall is_byte bytes ->
  (length bytes <= max_len)%nat ->
  run (BIN buf set_buf max_len set_len ;; g)%stmt
      {| d_pp := pp; d_str := b64_text bytes ++ rest |}
  = run g {| d_pp := set_len (length bytes) (set_buf (store (buf pp) 0 bytes) pp);
             d_str := rest |}.
Proof.
  intros Hrest Hb Hlen. unfold run, seq_stmt, BIN. cbv zeta. cbn [d_pp d_str].
  rewrite from_base64_text by assumption. reflexivity.
Qed.

End DecodeProofs.

(** ** Decoding what the encoder wrote *)

Lemma take_store_field (buf0 buf : list Z) (len size : nat) :
  length buf0 = size ->
  field_ok buf len size ->
  take (length (take len buf)) (store buf0 0 (take len buf)) = take len buf.
Proof.
  intros H0 Hf. destruct (field_ok_take _ _ _ Hf) as (_ & _ & Hl).
  destruct Hf as (Hsize & Hlen & _).
  rewrite store_at_0 by lia. apply take_app_length.
Qed.

Ltac project :=
  cbn [d_pp d_str m t p key_id key_id_len associated_data associated_data_len
       salt salt_len output output_len
       set_m set_t set_p set_key_id set_key_id_len
       set_associated_data set_associated_data_len
       set_salt set_salt_len set_output set_output_len].

Section RoundTrip.

Variable ULONG_MAX : Z.
Hypothesis ULONG_MAX_ge : 4294967295 <= ULONG_MAX.

Variables pp0 r : argon2i_params.
Hypothesis pp0_sized : params_sized pp0.
Hypothesis r_valid : params_valid r.
Hypothesis r_typed : params_typed r.

(** Runs the next statement of [argon2i_decode_body] on a hash string. *)
Ltac decode_step :=
  first
    [ rewrite run_assign
    | rewrite run_CC by auto with emits
    | rewrite run_DECIMAL by (first [lia | reflexivity])
    | rewrite run_guard_yes by reflexivity
    | rewrite run_guard by
        (project;
         first [ reflexivity
               | apply check_range32; lia
               | apply check_p_range; lia
               | apply check_m_range; lia
               | apply Nat.ltb_ge; lia ])
    | rewrite run_CC_opt_yes by auto with emits
    | rewrite run_CC_opt_no by reflexivity
    | rewrite run_BIN by (first [reflexivity | assumption | lia]) ];
  project.

Lemma decode_hash_string (junk : list Z) :
  exists pp',
    argon2i_decode_string ULONG_MAX pp0 (hash_string r ++ 0 :: junk) = (1, pp')
    /\ same_record pp' r.
Proof.
  destruct r_valid as (Hm & Ht & Hp & Hmp & Hk & Ha & Hs & Ho & Hos).
  destruct r_typed as (_ & _ & _ & Fk & Fa & Fs & Fo).
  destruct pp0_sized as (Sk & Sa & Ss & So).
  destruct (field_ok_take _ _ _ Fk) as (_ & Bk & Lk).
  destruct (field_ok_take _ _ _ Fa) as (_ & Ba & La).
  destruct (field_ok_take _ _ _ Fs) as (_ & Bs & Ls).
  destruct (field_ok_take _ _ _ Fo) as (_ & Bo & Lo).
  pose proof (take_store_field _ _ _ _ Sk Fk) as Tk.
  pose proof (take_store_field _ _ _ _ Sa Fa) as Ta.
  pose proof (take_store_field _ _ _ _ Ss Fs) as Ts.
  pose proof (take_store_field _ _ _ _ So Fo) as To.
  unfold argon2i_decode_string, argon2i_decode_body, hash_string, field_text.
  change (cs "$argon2i$m=") with (cs "$argon2i" ++ cs "$m=").
  unfold sizeof_key_id, sizeof_associated_data, sizeof_salt, sizeof_output in *.
  destruct (Nat.ltb_spec 0 (key_id_len r)) as [Ck|Ck];
  destruct (Nat.ltb_spec 0 (associated_data_len r)) as [Ca|Ca];
  destruct (Nat.eqb_spec (salt_len r) 0) as [Cs|Cs];
  destruct (Nat.eqb_spec (output_len r) 0) as [Co|Co];
  try (exfalso; lia);
  rewrite ?app_nil_r, <- ?app_assoc; cbn [app];
  repeat decode_step;
  (eexists; split; [reflexivity|]);
  unfold same_record; project;
  rewrite ?Lk, ?La, ?Ls, ?Lo in *;
  repeat split; try reflexivity; try assumption; try lia;
  try (replace (key_id_len r) with 0%nat by lia; reflexivity);
  try (replace (associated_data_len r) with 0%nat by lia; reflexivity);
  try (replace (salt_len r) with 0%nat by lia; reflexivity);
  try (replace (output_len r) with 0%nat by lia; reflexivity).
Qed.

End RoundTrip.

(** ** [argon2i_decode_string] and the width of [unsigned long] *)

Lemma agree_refl {S : Type} (x : Z * S) : agree x x.
Proof. split; [reflexivity|]. intros _. reflexivity. Qed.

Lemma agree_zero {S : Type} (x : Z * S) (s : S) : fst x = 0 -> agree x (0, s).
Proof. intros H. split; [exact H|]. cbn. discriminate. Qed.

Lemma agree_step {S : Type} (f gU g32 : stmt S) (st : S) :
  (forall s, agree (run gU s) (run g32 s)) ->
  agree (run (f ;; gU)%stmt st) (run (f ;; g32)%stmt st).
Proof.
  intros H. unfold run at 1 2. unfold seq_stmt.
  destruct (f st) as [r s|s]; [apply agree_refl|apply H].
Qed.

Lemma zero_use (P : argon2i_params -> Prop) (g : stmt dstate) (s : dstate) :
  zero_if P g -> P (d_pp s) -> fst (run g s) = 0.
Proof. intros H. apply H. Qed.

Lemma zero_guard_hit (P : argon2i_params -> Prop) (c : dstate -> bool)
    (g : stmt dstate) :
  (forall s, P (d_pp s) -> c s = true) ->
  zero_if P (when c (ret (fun _ => 0)) ;; g)%stmt.
Proof.
  intros Hc s Hs. unfold run, seq_stmt, when, ret. rewrite (Hc s Hs). reflexivity.
Qed.

Lemma zero_guard_skip (P : argon2i_params -> Prop) (c : dstate -> bool)
    (g : stmt dstate) :
  zero_if P g -> zero_if P (when c (ret (fun _ => 0)) ;; g)%stmt.
Proof.
  intros Hg s Hs. unfold run at 1. unfold seq_stmt, when, ret.
  destruct (c s); [reflexivity|]. apply (Hg s Hs).
Qed.

Lemma zero_CC (P : argon2i_params -> Prop) (lit : list Z) (g : stmt dstate) :
  zero_if P g -> zero_if P (CC lit ;; g)%stmt.
Proof.
  intros Hg s Hs. unfold run at 1. unfold seq_stmt, CC. cbv zeta.
  destruct (negb _); [reflexivity|]. apply Hg. exact Hs.
Qed.

Lemma zero_DECIMAL (P : argon2i_params -> Prop) (U : Z)
    (set_x : Z -> argon2i_params -> argon2i_params) (g : stmt dstate) :
  (forall v pp, P pp -> P (set_x v pp)) ->
  zero_if P g -> zero_if P (DECIMAL U set_x ;; g)%stmt.
Proof.
  intros Hset Hg s Hs. unfold run at 1. unfold seq_stmt, DECIMAL.
  destruct (decode_decimal U (d_str s)) as [[str v]|]; [|reflexivity].
  apply Hg. cbn [d_pp]. apply Hset, Hs.
Qed.

Section Widths.

Variable ULONG_MAX : Z.
Hypothesis ULONG_MAX_ge : 4294967295 <= ULONG_MAX.

Lemma agree_DECIMAL (set_x : Z -> argon2i_params -> argon2i_params)
    (gU g32 : stmt dstate) (st : dstate) :
  (forall s, agree (run gU s) (run g32 s)) ->
  (forall v str, 4294967295 < v ->
     fst (run gU {| d_pp := set_x v (d_pp st); d_str := str |}) = 0) ->
  agree (run (DECIMAL ULONG_MAX set_x ;; gU)%stmt st)
        (run (DECIMAL 4294967295 set_x ;; g32)%stmt st).
Proof.
  intros Hg Hz. unfold run at 1 2. unfold seq_stmt, DECIMAL.
  rewrite !decode_decimal_run by lia. cbv zeta.
  destruct (orb _ _); [apply agree_refl|].
  destruct (Z.gtb_spec (digits_value (digit_run (d_str st))) ULONG_MAX),
    (Z.gtb_spec (digits_value (digit_run (d_str st))) 4294967295);
    try lia.
  - apply agree_refl.
  - apply agree_zero, Hz. assumption.
  - apply Hg.
Qed.

Lemma agree_guards (g : stmt dstate) (st : dstate) :
  agree
    (run (when (fun s => (p (d_pp s) <? 1) || (p (d_pp s) >? 255))
            (ret (fun _ => 0)) ;;
          when (fun s => m (d_pp s) <? ulong_shiftl ULONG_MAX (p (d_pp s)) 3)
            (ret (fun _ => 0)) ;; g)%stmt st)
    (run (when (fun s => (p (d_pp s) <? 1) || (p (d_pp s) >? 255))
            (ret (fun _ => 0)) ;;
          when (fun s => m (d_pp s) <? ulong_shiftl 4294967295 (p (d_pp s)) 3)
            (ret (fun _ => 0)) ;; g)%stmt st).
Proof.
  unfold run, seq_stmt, when, ret.
  rewrite Z.gtb_ltb.
  destruct (Z.ltb_spec (p (d_pp st)) 1); [apply agree_refl|].
  destruct (Z.ltb_spec 255 (p (d_pp st))); [apply agree_refl|]. cbn [orb].
  rewrite !ulong_shiftl_p by lia. apply agree_refl.
Qed.

(** Whatever the width of [unsigned long], the call returns what it
    returns with 32 bits, and leaves the same structure when it
    succeeds. *)
Lemma decode_any_width (pp : argon2i_params) (str : list Z) :
  agree (argon2i_decode_string ULONG_MAX pp str)
        (argon2i_decode_string 4294967295 pp str).
Proof.
  assert (H : forall st, agree (run (argon2i_decode_body ULONG_MAX) st)
                               (run (argon2i_decode_body 4294967295) st)).
  { intros st. unfold argon2i_decode_body.
    do 6 (apply agree_step; intros ?).
    apply agree_DECIMAL; [intros ?|intros v str' Hv].
    2:{ apply (zero_use (fun pp => 4294967295 < m pp)); [|project; exact Hv].
        apply zero_CC, zero_DECIMAL; [intros; assumption|].
        apply zero_CC, zero_DECIMAL; [intros; assumption|].
        apply zero_guard_hit. intros s' Hs. apply check_range32_fail. lia. }
    apply agree_step; intros ?.
    apply agree_DECIMAL; [intros ?|intros v str' Hv].
    2:{ apply (zero_use (fun pp => 4294967295 < t pp)); [|project; exact Hv].
        apply zero_CC, zero_DECIMAL; [intros; assumption|].
        apply zero_guard_skip, zero_guard_hit.
        intros s' Hs. apply check_range32_fail. lia. }
    apply agree_step; intros ?.
    apply agree_DECIMAL; [intros ?|intros v str' Hv].
    2:{ apply (zero_use (fun pp => 4294967295 < p pp)); [|project; exact Hv].
        apply zero_guard_skip, zero_guard_skip, zero_guard_hit.
        intros s' Hs. rewrite Z.gtb_ltb.
        destruct (Z.ltb_spec 255 (p (d_pp s'))); [|lia]. apply orb_true_r. }
    do 2 (apply agree_step; intros ?).
    apply agree_guards. }
  unfold argon2i_decode_string.
  specialize (H {| d_pp := pp; d_str := str |}).
  destruct (run (argon2i_decode_body ULONG_MAX) _) as [r1 s1].
  destruct (run (argon2i_decode_body 4294967295) _) as [r2 s2].
  destruct H as [H1 H2]. cbn [fst] in *. split; [exact H1|].
  intros H. specialize (H2 H). injection H2 as -> ->. reflexivity.
Qed.

Lemma decode_returns_as_32 (pp : argon2i_params) (str : list Z) :
  fst (argon2i_decode_string ULONG_MAX pp str)
  = fst (argon2i_decode_string 4294967295 pp str).
Proof. apply decode_any_width. Qed.

Lemma decode_succeeds_as_32 (pp pp' : argon2i_params) (str : list Z) :
  argon2i_decode_string 4294967295 pp str = (1, pp') ->
  argon2i_decode_string ULONG_MAX pp str = (1, pp').
Proof.
  intros H. destruct (decode_any_width pp str) as [_ H2].
  rewrite H in H2. apply H2. reflexivity.
Qed.

End Widths.

(** ** What every call of [argon2i_decode_string] leaves *)

Section Preserves.

Variable P : argon2i_params -> Prop.

Lemma preserves_seq (f g : stmt dstate) :
  preserves P f -> preserves P g -> preserves P (f ;; g)%stmt.
Proof.
  intros Hf Hg s Hs. unfold seq_stmt. specialize (Hf s Hs).
  destruct (f s) as [r s'|s']; [exact Hf|]. apply Hg, Hf.
Qed.

Lemma preserves_CC (lit : list Z) : preserves P (CC lit).
Proof.
  intros s Hs. unfold CC. cbv zeta.
  destruct (negb _); cbn [d_pp]; [split; [exact Hs|left; reflexivity]|exact Hs].
Qed.

Lemma preserves_CC_opt (lit : list Z) (code : stmt dstate) :
  preserves P code -> preserves P (CC_opt lit code).
Proof.
  intros Hc s Hs. unfold CC_opt. cbv zeta.
  destruct (strncmp_eq _ _ _); [|exact Hs]. apply Hc. exact Hs.
Qed.

Lemma preserves_DECIMAL (U : Z) (set_x : Z -> argon2i_params -> argon2i_params) :
  (forall v pp, P pp -> P (set_x v pp)) -> preserves P (DECIMAL U set_x).
Proof.
  intros Hset s Hs. unfold DECIMAL.
  destruct (decode_decimal U (d_str s)) as [[str v]|]; cbn [d_pp].
  - apply Hset, Hs.
  - split; [exact Hs|left; reflexivity].
Qed.

Lemma preserves_guard (c : dstate -> bool) (r : Z) :
  r = 0 \/ r = 1 -> preserves P (when c (ret (fun _ => r))).
Proof.
  intros Hr s Hs. unfold when, ret. destruct (c s); [split|]; assumption.
Qed.

Lemma preserves_ret (r : dstate -> Z) :
  (forall s, r s = 0 \/ r s = 1) -> preserves P (ret r).
Proof. intros Hr s Hs. unfold ret. split; [exact Hs|apply Hr]. Qed.

Lemma preserves_BIN (buf : argon2i_params -> list Z)
    (set_buf : list Z -> argon2i_params -> argon2i_params) (max_len : nat)
    (set_len : nat -> argon2i_params -> argon2i_params) :
  (forall buf' pp, P pp -> length buf' = length (buf pp) -> P (set_buf buf' pp)) ->
  (forall n pp, P pp -> (n <= max_len)%nat -> P (set_len n pp)) ->
  preserves P (BIN buf set_buf max_len set_len).
Proof.
  intros Hbuf Hlen s Hs. unfold BIN. cbv zeta.
  destruct (from_base64_run (buf (d_pp s)) max_len (d_str s)) as [_ E].
  cbv zeta in E. rewrite E. clear E.
  destruct (Nat.ltb_spec max_len (length (from_base64_bytes (d_str s)))) as [Hfull|Hroom].
  { cbn [d_pp]. split; [|left; reflexivity]. apply Hbuf; [exact Hs|apply length_store]. }
  destruct (orb _ _); cbn [d_pp].
  - split; [|left; reflexivity]. apply Hbuf; [exact Hs|apply length_store].
  - apply Hlen; [|exact Hroom]. apply Hbuf; [exact Hs|apply length_store].
Qed.

Lemma preserves_run (f : stmt dstate) (s : dstate) :
  preserves P f -> P (d_pp s) ->
  (fst (run f s) = 0 \/ fst (run f s) = 1) /\ P (d_pp (snd (run f s))).
Proof.
  intros Hf Hs. specialize (Hf s Hs). unfold run.
  destruct (f s) as [r s'|s']; cbn [fst snd].
  - destruct Hf as [HP Hr]. split; assumption.
  - split; [left; reflexivity|exact Hf].
Qed.

End Preserves.

Lemma decode_invariant (U : Z) (pp : argon2i_params) (str : list Z) :
  (fst (argon2i_decode_string U pp str) = 0
   \/ fst (argon2i_decode_string U pp str) = 1)
  /\ lens_within (snd (argon2i_decode_string U pp str))
  /\ same_sizes pp (snd (argon2i_decode_string U pp str)).
Proof.
  set (P := fun qq => lens_within qq /\ same_sizes pp qq).
  assert (H0 : P (lens_zeroed pp)).
  { unfold P, lens_within, same_sizes, lens_zeroed. project.
    repeat split; apply Nat.le_0_l. }
  unfold argon2i_decode_string, argon2i_decode_body.
  rewrite !run_assign. cbn [d_pp d_str]. fold (lens_zeroed pp).
  match goal with
  | |- context [run ?f ?s] =>
      assert (Hf : preserves P f);
      [|destruct (preserves_run P f s Hf H0) as [Hr HP];
        destruct (run f s) as [r s']; cbn [fst snd] in *;
        split; [exact Hr|exact HP]]
  end.
  unfold P, lens_within, same_sizes,
    sizeof_key_id, sizeof_associated_data, sizeof_salt, sizeof_output.
  repeat first
    [ apply preserves_seq
    | apply preserves_CC
    | apply preserves_CC_opt
    | apply preserves_DECIMAL; intros v qq Hq; project; exact Hq
    | apply preserves_guard; auto
    | apply preserves_ret; intros s; destruct (peek (d_str s) =? 0); auto
    | apply preserves_BIN;
      [ intros buf' qq Hq Hl; project; rewrite ?Hl; exact Hq
      | intros n qq Hq Hn; project; intuition lia ] ].
Qed.

(** * The specification *)

(** ** Base64 *)

Lemma char_to_byte_zero_table (c : Z) :
  0 <= c <= 255 -> char_to_byte_zero c = true.
Proof.
  intros Hc. apply (Z_range_forallb char_to_byte_zero 0 256); [|lia].
  vm_compute. reflexivity.
Qed.

Lemma b64_value_cases (c : Z) :
  (ch "A" <= c <= ch "Z" -> b64_value c = Some (c - ch "A"))
  /\ (ch "a" <= c <= ch "z" -> b64_value c = Some (c - ch "a" + 26))
  /\ (ch "0" <= c <= ch "9" -> b64_value c = Some (c - ch "0" + 52))
  /\ (c = ch "+" -> b64_value c = Some 62)
  /\ (c = ch "/" -> b64_value c = Some 63).
Proof.
  unfold b64_value.
  change (ch "A") with 65. change (ch "Z") with 90. change (ch "a") with 97.
  change (ch "z") with 122. change (ch "0") with 48. change (ch "9") with 57.
  change (ch "+") with 43. change (ch "/") with 47.
  repeat split; intros H;
    destruct (Z.leb_spec 65 c), (Z.leb_spec c 90), (Z.leb_spec 97 c),
      (Z.leb_spec c 122), (Z.leb_spec 48 c), (Z.leb_spec c 57),
      (Z.eqb_spec c 43), (Z.eqb_spec c 47);
    cbn [andb]; try lia; reflexivity.
Qed.

(** C8 does not hold of the code on a character below zero.  The
    comment of [b64_char_to_byte] says that 0xFF is returned for a
    character that is not a Base64 character, and the comparison macros
    are documented for values in 0..255; [from_base64] passes [*src]
    without a cast, so where [char] is signed a byte from 0x80 on
    arrives as an [int] in -128..-1.  There [EQ] answers 0xFF against
    ['+'] and against ['/'], and [b64_char_to_byte] returns 63, the
    value of ['/']: the four bytes 0xFF are decoded as ["////"]. *)
Theorem C8_char_below_zero :
  is_char (-1)
  /\ b64_value (-1) = None
  /\ EQ (-1) (ch "+") = 255
  /\ EQ (-1) (ch "/") = 255
  /\ b64_char_to_byte (-1) = 63
  /\ b64_char_to_byte (-1) <> 255
  /\ (forall c, -128 <= c < 0 -> b64_value c = None /\ b64_char_to_byte c = 63)
  /\ from_base64 (repeat 0 3) 3 [-1; -1; -1; -1]
     = (Some [], [255; 255; 255], 3%nat).
Proof.
  split; [unfold is_char; lia|].
  split; [reflexivity|].
  split; [vm_compute; reflexivity|].
  split; [vm_compute; reflexivity|].
  split; [vm_compute; reflexivity|].
  split; [vm_compute; discriminate|].
  split; [|vm_compute; reflexivity].
  intros c Hc. split; [|apply b64_char_to_byte_below_zero; exact Hc].
  unfold b64_value.
  change (ch "A") with 65. change (ch "a") with 97. change (ch "0") with 48.
  change (ch "+") with 43. change (ch "/") with 47.
  destruct (Z.leb_spec 65 c); [lia|].
  destruct (Z.leb_spec 97 c); [lia|].
  destruct (Z.leb_spec 48 c); [lia|].
  destruct (Z.eqb_spec c 43); [lia|].
  destruct (Z.eqb_spec c 47); [lia|]. reflexivity.
Qed.

(** C5. The bytes [b] that [to_base64] writes into a buffer with room
    for the text and its terminator are the bytes that [from_base64]
    reads back from that buffer, with their number, when its capacity
    is at least that number; [from_base64] stops at the terminator. *)
Theorem C5_base64_round_trip (b mem out : list Z) (dst dst_len cap : nat) :
  Forall is_byte b ->
  (length b <= 64)%nat ->
  (base64_olen (length b) < dst_len)%nat ->
  (dst + dst_len <= length mem)%nat ->
  (length b <= cap <= length out)%nat ->
  exists n mem' rest,
    to_base64 mem dst dst_len b (length b) = (Some n, mem')
    /\ from_base64 out cap (drop dst mem')
       = (Some rest, b ++ drop (length b) out, length b)
    /\ peek rest = 0.
Proof.
  intros Hb _ Hroom Hmem Hcap.
  assert (Htake : take (length b) b = b) by (apply take_ge; lia).
  rewrite to_base64_text by (rewrite ?Htake; auto). cbv zeta. rewrite Htake.
  pose proof (length_b64_text b) as Hlen.
  destruct (Nat.leb_spec dst_len (length (b64_text b))) as [?|_]; [lia|].
  eexists _, _, (0 :: drop (dst + S (length (b64_text b))) mem).
  split; [reflexivity|]. split; [|reflexivity].
  rewrite store_middle by (rewrite length_app; cbn [length]; lia).
  assert (Hd : length (take dst mem) = dst) by (rewrite length_take; lia).
  rewrite <- Hd at 1. rewrite drop_app_length, <- app_assoc. cbn [app].
  rewrite from_base64_text by (try reflexivity; try assumption; lia).
  rewrite store_at_0 by lia.
  rewrite length_app. cbn [length].
  repeat f_equal. lia.
Qed.

Lemma C5_base64_round_trip_witness :
  exists n mem' rest,
    to_base64 (repeat 1 8) 0 8 [104; 105; 33; 255] 4 = (Some n, mem')
    /\ from_base64 (repeat 0 4) 4 (drop 0 mem')
       = (Some rest, [104; 105; 33; 255] ++ drop 4 (repeat 0 4), 4%nat)
    /\ peek rest = 0.
Proof.
  apply (C5_base64_round_trip [104; 105; 33; 255] (repeat 1 8) (repeat 0 4) 0 8 4).
  - repeat constructor; unfold is_byte; lia.
  - simpl; lia.
  - vm_compute; lia.
  - simpl; lia.
  - simpl; lia.
Defined.

(** C4. The loop of [from_base64] stops at the first character that is
    not of the alphabet, with the bits of the run in [acc] and the
    number of those that wait for a byte in [acc_len].  The call then
    fails when more than 4 bits are left, which is when the length of
    the run is 1 modulo 4, and when one of the bits that are left is
    not zero; the 9 characters of ["Hj5+dsK0Z"] are refused as a key
    identifier. *)
Theorem C4_leftover_bits (ULONG_MAX : Z) (pp : argon2i_params) (dst : list Z) (cap : nat)
    (src : list Z) :
  4294967295 <= ULONG_MAX ->
  let run := b64_run src in
  b64_char_to_byte (peek (drop (length run) src)) = 255
  /\ Forall (fun c => b64_char_to_byte c <> 255) run
  /\ ((length (from_base64_bytes src) <= cap)%nat ->
      fst (from_base64_loop cap src 0 0 0 dst 0)
      = LoopBreak (drop (length run) src) (u32 (sextets_value run))
          (leftover_len run) (length (from_base64_bytes src)))
  /\ Z.land (u32 (sextets_value run)) (u32 (Z.shiftl 1 (leftover_len run) - 1))
     = leftover_bits run
  /\ (4 < leftover_len run <-> (length run mod 4 = 1)%nat)
  /\ (fst (fst (from_base64 dst cap src)) = None <->
      Z.of_nat cap < whole_bytes run
      \/ 4 < leftover_len run
      \/ leftover_bits run <> 0)
  /\ fst (fst (from_base64 dst 8 (cs "Hj5+dsK0Z"))) = None
  /\ fst (argon2i_decode_string ULONG_MAX pp
            (cs "$argon2i$m=120,t=5000,p=2,keyid=Hj5+dsK0Z")) = 0.
Proof.
  intros HU run.
  assert (Hmain : forall dst cap src,
    fst (fst (from_base64 dst cap src)) = None <->
    Z.of_nat cap < whole_bytes (b64_run src)
    \/ 4 < leftover_len (b64_run src)
    \/ leftover_bits (b64_run src) <> 0).
  { clear. intros dst cap src.
    destruct (from_base64_run dst cap src) as [Hn E]. cbv zeta in Hn, E.
    rewrite E, <- Hn. clear E Hn.
    destruct (Nat.ltb_spec cap (length (from_base64_bytes src))) as [Hfull|Hroom];
      cbn [fst].
    { split; [intros _; left; lia|reflexivity]. }
    destruct (Z.ltb_spec 4 (leftover_len (b64_run src))) as [H6|H6]; cbn [orb fst].
    { split; [intros _; right; left; exact H6|reflexivity]. }
    destruct (Z.eqb_spec (leftover_bits (b64_run src)) 0) as [Hz|Hz]; cbn [negb fst].
    - split; [discriminate|]. intros [?|[?|?]]; [lia|lia|contradiction].
    - split; [intros _; right; right; exact Hz|reflexivity]. }
  split; [apply b64_run_stops|]. split; [apply b64_run_alphabet|].
  split; [apply from_base64_loop_run|]. split; [apply leftover_test|].
  split.
  { rewrite <- leftover_len_6.
    destruct (leftover_len_cases run) as [E|[E|[E|E]]]; rewrite E; lia. }
  split; [apply Hmain|]. split.
  - apply Hmain. right. left. vm_compute. reflexivity.
  - rewrite (decode_returns_as_32 ULONG_MAX HU). vm_compute. reflexivity.
Qed.

Lemma C4_leftover_bits_witness :
  fst (fst (from_base64 (repeat 0 8) 8 (cs "Hj5+dsK0ZR"))) = None.
Proof.
  pose proof (C4_leftover_bits 4294967295
                {| m := 0; t := 0; p := 0;
                   key_id := repeat 0 8; key_id_len := 0;
                   associated_data := repeat 0 32; associated_data_len := 0;
                   salt := repeat 0 48; salt_len := 0;
                   output := repeat 0 64; output_len := 0 |}
                (repeat 0 8) 8 (cs "Hj5+dsK0ZR") ltac:(lia)) as H.
  cbv zeta in H. destruct H as (_ & _ & _ & _ & _ & Hiff & _).
  apply Hiff. right. right. vm_compute. discriminate.
Defined.

(** C10. [from_base64] writes the bytes that it decodes, in their order
    and from the start of the destination, and none after the first
    [*dst_len] of them: the bytes of the destination from [*dst_len] on
    are untouched.  When there are more bytes to decode it returns NULL
    with exactly [*dst_len] bytes written.  [*dst_len] changes on
    success only, to the number of decoded bytes. *)
Theorem C10_capacity (dst : list Z) (cap : nat) (src : list Z) :
  let bytes := from_base64_bytes src in
  let '(ret, dst', len') := from_base64 dst cap src in
  dst' = store dst 0 (take cap bytes)
  /\ (length (take cap bytes) <= cap)%nat
  /\ length dst' = length dst
  /\ (forall i, (cap <= i)%nat -> dst' !! i = dst !! i)
  /\ ((cap <= length dst)%nat ->
      take (length (take cap bytes)) dst' = take cap bytes)
  /\ ((cap < length bytes)%nat -> ret = None /\ length (take cap bytes) = cap)
  /\ (ret = None -> len' = cap)
  /\ (forall rest, ret = Some rest -> len' = length bytes /\ (len' <= cap)%nat).
Proof.
  cbv zeta.
  destruct (from_base64_run dst cap src) as [_ E]. cbv zeta in E. rewrite E. clear E.
  set (bytes := from_base64_bytes src).
  assert (Hw : (length (take cap bytes) <= cap)%nat) by (rewrite length_take; lia).
  assert (Hout : forall i, (cap <= i)%nat ->
            store dst 0 (take cap bytes) !! i = dst !! i).
  { intros i Hi. apply store_lookup_outside. lia. }
  assert (Hin : (cap <= length dst)%nat ->
            take (length (take cap bytes)) (store dst 0 (take cap bytes))
            = take cap bytes).
  { intros Hd. rewrite store_at_0 by lia. apply take_app_length. }
  destruct (Nat.ltb_spec cap (length bytes)) as [Hfull|Hroom].
  { split; [reflexivity|]. split; [exact Hw|]. split; [apply length_store|].
    split; [exact Hout|]. split; [exact Hin|].
    split; [|split; [reflexivity|discriminate]].
    intros _. split; [reflexivity|]. rewrite length_take. lia. }
  assert (Ht : take cap bytes = bytes) by (apply take_ge; exact Hroom).
  rewrite Ht in *.
  destruct (orb _ _).
  - split; [reflexivity|]. split; [exact Hw|]. split; [apply length_store|].
    split; [exact Hout|]. split; [exact Hin|].
    split; [intros; lia|]. split; [reflexivity|discriminate].
  - split; [reflexivity|]. split; [exact Hw|]. split; [apply length_store|].
    split; [exact Hout|]. split; [exact Hin|].
    split; [intros; lia|]. split; [discriminate|].
    intros rest _. split; [reflexivity|exact Hroom].
Qed.

(** ** The decimal parser *)

(** C2. [decode_decimal] returns NULL exactly when its input starts
    with no digit, or with a run of more than one digit whose first is
    '0', or with a run whose value is above [ULONG_MAX]; otherwise it
    gives the value of the run and the pointer to the first character
    after it.  It refuses ["0120"] and [""], and accepts ["0"] and what
    every run of digits without a leading zero whose value is at most
    [ULONG_MAX], such as what [sprintf] writes for that value. *)
Theorem C2_decode_decimal (ULONG_MAX : Z) (str : list Z) :
  4294967295 <= ULONG_MAX ->
  let run := digit_run str in
  (decode_decimal ULONG_MAX str = None <->
     run = []
     \/ (peek str = ch "0" /\ (1 < length run)%nat)
     \/ ULONG_MAX < digits_value run)
  /\ (forall str' v,
        decode_decimal ULONG_MAX str = Some (str', v) ->
        v = digits_value run /\ 0 <= v <= ULONG_MAX
        /\ str' = drop (length run) str /\ is_digit (peek str') = false)
  /\ decode_decimal ULONG_MAX (cs "0120") = None
  /\ decode_decimal ULONG_MAX (cs "") = None
  /\ decode_decimal ULONG_MAX (cs "0") = Some ([], 0)
  /\ (forall digits rest,
        digits <> [] -> Forall (fun c => is_digit c = true) digits ->
        (peek digits = ch "0" -> length digits = 1%nat) ->
        digits_value digits <= ULONG_MAX ->
        is_digit (peek rest) = false ->
        decode_decimal ULONG_MAX (digits ++ rest)
        = Some (rest, digits_value digits))
  /\ (forall v rest,
        0 <= v <= ULONG_MAX -> is_digit (peek rest) = false ->
        decode_decimal ULONG_MAX (sprintf_lu v ++ rest) = Some (rest, v))
  /\ (forall v rest,
        ULONG_MAX < v -> is_digit (peek rest) = false ->
        decode_decimal ULONG_MAX (sprintf_lu v ++ rest) = None).
Proof.
  intros HU run.
  pose proof (decode_decimal_run ULONG_MAX HU str) as E. cbv zeta in E.
  fold run in E.
  assert (Hpos : 0 <= digits_value run).
  { apply (add_digits_ge run (digit_run_digits str) 0). lia. }
  assert (Hnil : length run = 0%nat <-> run = []).
  { destruct run; simpl; split; intros; try reflexivity; try discriminate; lia. }
  split; [|split; [|split; [|split; [|split; [|split; [|split]]]]]].
  - rewrite E.
    destruct (Nat.eqb_spec (length run) 0) as [L0|L0];
      destruct (Z.eqb_spec (peek str) (ch "0")) as [P0|P0];
      destruct (Nat.eqb_spec (length run) 1) as [L1|L1]; cbn [orb andb negb];
      destruct (Z.gtb_spec (digits_value run) ULONG_MAX) as [V|V];
      split; try reflexivity; try discriminate; intros H;
      try (left; apply Hnil; assumption);
      try (right; left; split; [assumption|lia]);
      try (right; right; lia);
      destruct H as [H|[[H1 H2]|H]]; try lia; try contradiction;
      apply Hnil in H; contradiction.
  - intros str' v. rewrite E.
    destruct (orb _ _); [discriminate|].
    destruct (Z.gtb_spec (digits_value run) ULONG_MAX) as [V|V]; [discriminate|].
    intros [= <- <-]. split; [reflexivity|]. split; [lia|].
    split; [reflexivity|apply digit_run_stops].
  - rewrite decode_decimal_run by lia. reflexivity.
  - rewrite decode_decimal_run by lia. reflexivity.
  - rewrite decode_decimal_run by lia. cbv zeta.
    change (digits_value (digit_run (cs "0"))) with 0.
    destruct (Z.gtb_spec 0 ULONG_MAX); [lia|reflexivity].
  - intros digits rest Hne Hd Hmin Hval Hrest.
    rewrite decode_decimal_run by assumption. cbv zeta.
    rewrite digit_run_app by assumption. rewrite drop_app_length.
    destruct digits as [|d digits]; [congruence|]. cbn [peek app] in *.
    destruct (Z.gtb_spec (digits_value (d :: digits)) ULONG_MAX) as [V|V]; [lia|].
    destruct (Z.eqb_spec d (ch "0")) as [D0|D0].
    + rewrite (Hmin D0). reflexivity.
    + cbn [length Nat.eqb orb andb]. reflexivity.
  - intros v rest Hv Hrest. apply decode_decimal_sprintf; assumption.
  - intros v rest Hv Hrest. apply decode_decimal_too_big; [lia|assumption].
Qed.

Lemma C2_decode_decimal_witness :
  decode_decimal 18446744073709551615 (cs "5000,p=2") = Some (cs ",p=2", 5000).
Proof.
  assert (HU : 4294967295 <= 18446744073709551615) by lia.
  destruct (C2_decode_decimal 18446744073709551615 (cs "5000,p=2") HU)
    as (_ & _ & _ & _ & _ & _ & Hok & _).
  apply (Hok 5000 (cs ",p=2")); [lia|reflexivity].
Defined.

(** ** Hash strings *)

Lemma check_p_fail (v : Z) :
  v < 1 \/ 255 < v -> (v <? 1) || (v >? 255) = true.
Proof.
  intros Hv. rewrite Z.gtb_ltb.
  destruct (Z.ltb_spec v 1); [reflexivity|].
  destruct (Z.ltb_spec 255 v); [reflexivity|lia].
Qed.

Lemma check_m_fail (U vm vp : Z) :
  4294967295 <= U ->
  1 <= vp <= 255 -> vm < 8 * vp -> (vm <? ulong_shiftl U vp 3) = true.
Proof.
  intros HU Hp Hm. rewrite ulong_shiftl_p by assumption.
  destruct (Z.ltb_spec vm (8 * vp)); [reflexivity|lia].
Qed.

(** C3. [argon2i_decode_string] returns 0 on every string whose numbers
    are outside their ranges: [m] and [t] in 1..2^32-1, which the code
    tests with [(x >> 30) > 3], [p] in 1..255 and [m >= 8 p].  So it
    does on [m=15,t=5000,p=2], on [p=0] and [p=256], on
    [t=4294967296] and on [t=0]. *)
Theorem C3_range_rejection (ULONG_MAX : Z) (pp : argon2i_params) :
  4294967295 <= ULONG_MAX ->
  (forall vm vt vp rest,
      0 <= vm -> 0 <= vt -> 0 <= vp ->
      is_digit (peek rest) = false ->
      ~ (1 <= vm <= 4294967295 /\ 1 <= vt <= 4294967295
         /\ 1 <= vp <= 255 /\ 8 * vp <= vm) ->
      fst (argon2i_decode_string ULONG_MAX pp
             (cs "$argon2i$m=" ++ sprintf_lu vm ++ cs ",t=" ++ sprintf_lu vt
              ++ cs ",p=" ++ sprintf_lu vp ++ rest)) = 0)
  /\ (forall x, 0 <= x -> (Z.shiftr x 30 >? 3) = true <-> 4294967295 < x)
  /\ fst (argon2i_decode_string ULONG_MAX pp (cs "$argon2i$m=15,t=5000,p=2")) = 0
  /\ fst (argon2i_decode_string ULONG_MAX pp (cs "$argon2i$m=120,t=5000,p=0")) = 0
  /\ fst (argon2i_decode_string ULONG_MAX pp (cs "$argon2i$m=2000,t=5000,p=256")) = 0
  /\ fst (argon2i_decode_string ULONG_MAX pp (cs "$argon2i$m=120,t=4294967296,p=2")) = 0
  /\ fst (argon2i_decode_string ULONG_MAX pp (cs "$argon2i$m=120,t=0,p=2")) = 0.
Proof.
  intros HU.
  split; [|split; [|repeat split;
                     rewrite (decode_returns_as_32 ULONG_MAX HU);
                     vm_compute; reflexivity]].
  - intros vm vt vp rest Hm Ht Hp Hrest Hbad.
    unfold argon2i_decode_string, argon2i_decode_body.
    change (cs "$argon2i$m=") with (cs "$argon2i" ++ cs "$m=").
    rewrite <- ?app_assoc.
    rewrite !run_assign. project.
    rewrite !run_CC by auto with emits.
    destruct (Z_le_gt_dec vm ULONG_MAX) as [Lm|Lm];
      [|rewrite run_DECIMAL_fail
          by (project; apply decode_decimal_too_big; [lia|reflexivity]);
        reflexivity].
    rewrite run_DECIMAL by (first [lia|reflexivity]).
    rewrite run_CC by auto with emits.
    destruct (Z_le_gt_dec vt ULONG_MAX) as [Lt|Lt];
      [|rewrite run_DECIMAL_fail
          by (project; apply decode_decimal_too_big; [lia|reflexivity]);
        reflexivity].
    rewrite run_DECIMAL by (first [lia|reflexivity]).
    rewrite run_CC by auto with emits.
    destruct (Z_le_gt_dec vp ULONG_MAX) as [Lp|Lp];
      [|rewrite run_DECIMAL_fail
          by (project; apply decode_decimal_too_big; [lia|assumption]);
        reflexivity].
    rewrite run_DECIMAL by (first [lia|assumption]).
    destruct (Z_le_gt_dec 1 vm) as [Rm1|Rm1], (Z_le_gt_dec vm 4294967295) as [Rm2|Rm2];
      try (rewrite run_guard_yes
             by (project; apply check_range32_fail; lia); reflexivity).
    rewrite run_guard by (project; apply check_range32; lia).
    destruct (Z_le_gt_dec 1 vt) as [Rt1|Rt1], (Z_le_gt_dec vt 4294967295) as [Rt2|Rt2];
      try (rewrite run_guard_yes
             by (project; apply check_range32_fail; lia); reflexivity).
    rewrite run_guard by (project; apply check_range32; lia).
    destruct (Z_le_gt_dec 1 vp) as [Rp1|Rp1], (Z_le_gt_dec vp 255) as [Rp2|Rp2];
      try (rewrite run_guard_yes by (project; apply check_p_fail; lia); reflexivity).
    rewrite run_guard by (project; apply check_p_range; lia).
    rewrite run_guard_yes by (project; apply check_m_fail; lia). reflexivity.
  - intros x Hx. rewrite Z.shiftr_div_pow2 by lia. change (2 ^ 30) with 1073741824.
    rewrite Z.gtb_ltb, Z.ltb_lt. split; intros H; Z.div_mod_to_equations; lia.
Qed.

Lemma C3_range_rejection_witness :
  fst (argon2i_decode_string 18446744073709551615
         {| m := 0; t := 0; p := 0;
            key_id := repeat 0 8; key_id_len := 0;
            associated_data := repeat 0 32; associated_data_len := 0;
            salt := repeat 0 48; salt_len := 0;
            output := repeat 0 64; output_len := 0 |}
         (cs "$argon2i$m=" ++ sprintf_lu 2039 ++ cs ",t=" ++ sprintf_lu 3
          ++ cs ",p=" ++ sprintf_lu 255 ++ cs "$c2FsdHNhbHQ")) = 0.
Proof.
  assert (HU : 4294967295 <= 18446744073709551615) by lia.
  destruct (C3_range_rejection 18446744073709551615
              {| m := 0; t := 0; p := 0;
                 key_id := repeat 0 8; key_id_len := 0;
                 associated_data := repeat 0 32; associated_data_len := 0;
                 salt := repeat 0 48; salt_len := 0;
                 output := repeat 0 64; output_len := 0 |} HU) as [H _].
  apply (H 2039 3 255 (cs "$c2FsdHNhbHQ")); try lia; reflexivity.
Defined.

Lemma all_bytes_Forall (l : list Z) : all_bytes l = true -> Forall is_byte l.
Proof.
  unfold all_bytes. rewrite forallb_forall. intros H.
  apply Forall_forall. intros b Hb. apply list_elem_of_In in Hb.
  specialize (H b Hb). apply andb_true_iff in H. unfold is_byte. lia.
Qed.

Lemma params_arrays_check (pp : argon2i_params) :
  length (key_id pp) = 8%nat -> length (associated_data pp) = 32%nat ->
  length (salt pp) = 48%nat -> length (output pp) = 64%nat ->
  all_bytes (key_id pp) = true -> all_bytes (associated_data pp) = true ->
  all_bytes (salt pp) = true -> all_bytes (output pp) = true ->
  params_arrays pp.
Proof.
  intros L1 L2 L3 L4 B1 B2 B3 B4. unfold params_arrays, params_sized.
  repeat split; try assumption; apply all_bytes_Forall; assumption.
Qed.

(** C1. A record that satisfies the invariants of the data model is
    encoded by [argon2i_encode_string] into every buffer of 260
    characters or more, as its hash string, and
    [argon2i_decode_string] reads the same record back from that
    buffer, whatever the shape of the record: parameters only, with a
    salt, with a salt and an output. *)
Theorem C1_round_trip (ULONG_MAX : Z) (r pp0 : argon2i_params)
    (mem : list Z) (cap : nat) :
  4294967295 <= ULONG_MAX ->
  params_valid r -> params_arrays r ->
  params_sized pp0 ->
  (260 <= cap <= length mem)%nat ->
  exists mem' pp',
    argon2i_encode_string mem cap r = (1, mem')
    /\ take (strlen mem') mem' = hash_string r
    /\ argon2i_decode_string ULONG_MAX pp0 mem' = (1, pp')
    /\ same_record pp' r.
Proof.
  intros HU Hv (Hs & Bk & Ba & Bs & Bo) Hs0 Hcap.
  pose proof (params_valid_typed r Hv Hs Bk Ba Bs Bo) as Ht.
  pose proof (length_hash_string r Hv Ht) as Hl.
  destruct (decode_hash_string ULONG_MAX HU pp0 r Hs0 Hv Ht
              (drop (S (length (hash_string r))) mem)) as (pp' & Hd & Hr).
  exists (hash_string r ++ 0 :: drop (S (length (hash_string r))) mem), pp'.
  split; [apply encode_buffer; [assumption|lia|lia]|].
  split; [|split; assumption].
  rewrite strlen_no_zero by (try apply hash_string_no_zero; auto).
  apply take_app_length.
Qed.

Lemma C1_round_trip_witness :
  (exists mem' pp',
      argon2i_encode_string (repeat 1 300) 300 record_params_only = (1, mem')
      /\ take (strlen mem') mem' = hash_string record_params_only
      /\ argon2i_decode_string 18446744073709551615 used_params mem' = (1, pp')
      /\ same_record pp' record_params_only)
  /\ (exists mem' pp',
         argon2i_encode_string (repeat 1 300) 300 record_with_salt = (1, mem')
         /\ take (strlen mem') mem' = hash_string record_with_salt
         /\ argon2i_decode_string 18446744073709551615 used_params mem' = (1, pp')
         /\ same_record pp' record_with_salt)
  /\ (exists mem' pp',
         argon2i_encode_string (repeat 1 300) 300 record_with_output = (1, mem')
         /\ take (strlen mem') mem' = hash_string record_with_output
         /\ argon2i_decode_string 4294967295 blank_params mem' = (1, pp')
         /\ same_record pp' record_with_output).
Proof.
  split; [|split].
  - apply (C1_round_trip 18446744073709551615 record_params_only used_params
             (repeat 1 300) 300).
    + lia.
    + unfold params_valid; simpl; lia.
    + apply params_arrays_check; reflexivity.
    + repeat split.
    + simpl; lia.
  - apply (C1_round_trip 18446744073709551615 record_with_salt used_params
             (repeat 1 300) 300).
    + lia.
    + unfold params_valid; simpl; lia.
    + apply params_arrays_check; reflexivity.
    + repeat split.
    + simpl; lia.
  - apply (C1_round_trip 4294967295 record_with_output blank_params
             (repeat 1 300) 300).
    + lia.
    + unfold params_valid; simpl; lia.
    + apply params_arrays_check; reflexivity.
    + repeat split.
    + simpl; lia.
Defined.

(** C6. Let [n] be the length of the string that
    [argon2i_encode_string] writes for a record that satisfies the
    invariants.  With room for [n+1] characters the call returns 1,
    with room for [n] it returns 0. *)
Theorem C6_boundary_capacity (r : argon2i_params) (mem mem1 mem2 : list Z)
    (cap : nat) :
  params_valid r -> params_arrays r ->
  (cap <= length mem)%nat ->
  argon2i_encode_string mem cap r = (1, mem1) ->
  let n := strlen mem1 in
  (n + 1 <= length mem2)%nat ->
  fst (argon2i_encode_string mem2 (n + 1) r) = 1
  /\ fst (argon2i_encode_string mem2 n r) = 0.
Proof.
  intros Hv (Hs & Bk & Ba & Bs & Bo) Hcap Henc n Hmem2.
  pose proof (params_valid_typed r Hv Hs Bk Ba Bs Bo) as Ht.
  assert (Hn : n = length (hash_string r)).
  { destruct (le_lt_dec cap (length (hash_string r))) as [Hle|Hlt].
    - pose proof (encode_failure mem cap r Ht Hle) as H0.
      rewrite Henc in H0. discriminate.
    - rewrite encode_buffer in Henc by assumption.
      assert (Hm : mem1 = hash_string r ++ 0 :: drop (S (length (hash_string r))) mem)
        by congruence.
      unfold n. rewrite Hm.
      apply strlen_no_zero; [apply hash_string_no_zero, Ht|reflexivity]. }
  rewrite Hn. split.
  - rewrite encode_success by (try assumption; lia). reflexivity.
  - apply encode_failure; [assumption|lia].
Qed.

Lemma C6_boundary_capacity_witness :
  fst (argon2i_encode_string (repeat 0 60) (48 + 1) record_params_only) = 1
  /\ fst (argon2i_encode_string (repeat 0 60) 48 record_params_only) = 0.
Proof.
  assert (Hv : params_valid record_params_only)
    by (unfold params_valid; simpl; lia).
  assert (Ha : params_arrays record_params_only)
    by (apply params_arrays_check; reflexivity).
  assert (Hcap : (300 <= length (repeat 7 300))%nat) by (simpl; lia).
  pose proof (C6_boundary_capacity record_params_only (repeat 7 300)
                (snd (argon2i_encode_string (repeat 7 300) 300 record_params_only))
                (repeat 0 60) 300 Hv Ha Hcap eq_refl) as H.
  apply H. vm_compute. lia.
Defined.

(** C7, as the specification states it, does not hold: the call on
    ["$argon2i$m=120,t=0,p=2"] returns 0 and leaves a structure that is
    not the one it was given: [m] has changed from 7 to 120, [t] from 7
    to 0, and the four lengths are zero. *)
Lemma C7_counterexample :
  fst (argon2i_decode_string 18446744073709551615 used_params
         (cs "$argon2i$m=120,t=0,p=2")) = 0
  /\ snd (argon2i_decode_string 18446744073709551615 used_params
            (cs "$argon2i$m=120,t=0,p=2"))
     = set_p 2 (set_t 0 (set_m 120 (lens_zeroed used_params)))
  /\ snd (argon2i_decode_string 18446744073709551615 used_params
            (cs "$argon2i$m=120,t=0,p=2"))
     <> used_params.
Proof.
  split; [vm_compute; reflexivity|].
  split; [vm_compute; reflexivity|].
  intros H. apply (f_equal m) in H. vm_compute in H. discriminate.
Qed.

(** C7, amended.  [argon2i_decode_string] returns 0 or 1 and nothing
    else.  It does not restore the structure when it fails: the four
    lengths are set to zero on entry and what was parsed before the
    failure stays written; a string that does not start with
    ["$argon2i"] leaves the structure with its four lengths at zero and
    nothing else changed.  On every path the lengths that the call
    leaves are within the sizes of the arrays, and the arrays keep
    their sizes. *)
Theorem C7_failure_leaves_partial_record (ULONG_MAX : Z) (pp : argon2i_params)
    (str : list Z) :
  (fst (argon2i_decode_string ULONG_MAX pp str) = 0
   \/ fst (argon2i_decode_string ULONG_MAX pp str) = 1)
  /\ lens_within (snd (argon2i_decode_string ULONG_MAX pp str))
  /\ same_sizes pp (snd (argon2i_decode_string ULONG_MAX pp str))
  /\ (strncmp_eq str (cs "$argon2i") 8 = false ->
      argon2i_decode_string ULONG_MAX pp str = (0, lens_zeroed pp)).
Proof.
  destruct (decode_invariant ULONG_MAX pp str) as (H01 & Hl & Hs).
  split; [exact H01|]. split; [exact Hl|]. split; [exact Hs|].
  intros Hcmp. unfold argon2i_decode_string, argon2i_decode_body.
  rewrite !run_assign. cbn [d_pp d_str].
  rewrite run_CC_fail by exact Hcmp. reflexivity.
Qed.

Lemma C7_failure_leaves_partial_record_witness :
  argon2i_decode_string 4294967295 used_params (cs "$argon2j$m=120,t=5000,p=2")
  = (0, lens_zeroed used_params).
Proof.
  apply (C7_failure_leaves_partial_record 4294967295 used_params
           (cs "$argon2j$m=120,t=5000,p=2")).
  reflexivity.
Defined.

(** C9. [argon2i_decode_string] accepts a key identifier without
    characters: it returns 1 on
    ["$argon2i$m=120,t=5000,p=2,keyid="] with [key_id_len] at 0, and
    leaves the structure that it leaves on
    ["$argon2i$m=120,t=5000,p=2"]; encoding that structure gives the
    second string, which is not the first. *)
Theorem C9_empty_keyid (ULONG_MAX : Z) (pp0 : argon2i_params)
    (mem : list Z) (cap : nat) :
  4294967295 <= ULONG_MAX ->
  params_arrays pp0 ->
  (26 <= cap <= length mem)%nat ->
  let with_keyid := cs "$argon2i$m=120,t=5000,p=2,keyid=" in
  let without := cs "$argon2i$m=120,t=5000,p=2" in
  exists pp',
    argon2i_decode_string ULONG_MAX pp0 with_keyid = (1, pp')
    /\ key_id_len pp' = 0%nat
    /\ argon2i_decode_string ULONG_MAX pp0 without = (1, pp')
    /\ argon2i_encode_string mem cap pp' = (1, without ++ 0 :: drop 26 mem)
    /\ strlen (without ++ 0 :: drop 26 mem) = 25%nat
    /\ without <> with_keyid.
Proof.
  intros HU (Hs & Bk & Ba & Bs & Bo) Hcap with_keyid without.
  exists (set_p 2 (set_t 5000 (set_m 120 (lens_zeroed pp0)))).
  split; [apply (decode_succeeds_as_32 ULONG_MAX HU); vm_compute; reflexivity|].
  split; [reflexivity|].
  split; [apply (decode_succeeds_as_32 ULONG_MAX HU); vm_compute; reflexivity|].
  split; [|split; [reflexivity|discriminate]].
  assert (Ht : params_typed (set_p 2 (set_t 5000 (set_m 120 (lens_zeroed pp0))))).
  { destruct Hs as (Lk & La & Ls & Lo).
    unfold params_typed, field_ok, lens_zeroed. project.
    repeat split; try assumption; try lia; apply Nat.le_0_l. }
  assert (Hh : hash_string (set_p 2 (set_t 5000 (set_m 120 (lens_zeroed pp0))))
               = without) by (vm_compute; reflexivity).
  rewrite encode_buffer by (first [assumption | rewrite Hh; simpl; lia | lia]).
  rewrite Hh. reflexivity.
Qed.

Lemma C9_empty_keyid_witness :
  exists pp',
    argon2i_decode_string 18446744073709551615 used_params
      (cs "$argon2i$m=120,t=5000,p=2,keyid=") = (1, pp')
    /\ key_id_len pp' = 0%nat
    /\ argon2i_decode_string 18446744073709551615 used_params
         (cs "$argon2i$m=120,t=5000,p=2") = (1, pp')
    /\ argon2i_encode_string (repeat 9 40) 40 pp'
       = (1, cs "$argon2i$m=120,t=5000,p=2" ++ 0 :: drop 26 (repeat 9 40))
    /\ strlen (cs "$argon2i$m=120,t=5000,p=2" ++ 0 :: drop 26 (repeat 9 40)) = 25%nat
    /\ cs "$argon2i$m=120,t=5000,p=2" <> cs "$argon2i$m=120,t=5000,p=2,keyid=".
Proof.
  apply (C9_empty_keyid 18446744073709551615 used_params (repeat 9 40) 40).
  - lia.
  - apply params_arrays_check; reflexivity.
  - simpl; lia.
Defined.

Lemma C10_capacity_witness :
  fst (fst (from_base64 (repeat 0 8) 8 (cs "Mwmcv5/avkXJ"))) = None
  /\ snd (fst (from_base64 (repeat 0 8) 8 (cs "Mwmcv5/avkXJ")))
     = [51; 9; 156; 191; 159; 218; 190; 69]
  /\ snd (from_base64 (repeat 0 8) 8 (cs "Mwmcv5/avkXJ")) = 8%nat.
Proof.
  pose proof (C10_capacity (repeat 0 8) 8 (cs "Mwmcv5/avkXJ")) as H.
  cbv zeta in H.
  destruct (from_base64 (repeat 0 8) 8 (cs "Mwmcv5/avkXJ")) as [[ret dst'] len'].
  destruct H as (Hd & _ & _ & _ & _ & Hfull & Hnone & _). cbn [fst snd].
  assert (Hlt : (8 < length (from_base64_bytes (cs "Mwmcv5/avkXJ")))%nat)
    by (vm_compute; lia).
  destruct (Hfull Hlt) as [Hret _].
  split; [exact Hret|]. split; [rewrite Hd; vm_compute; reflexivity|].
  apply Hnone, Hret.
Defined.

(** * Further properties of the code *)

(** ** The comparison macros and the two character mappings *)

(** X1. On values in 0..255 the macros [EQ], [GT], [GE], [LT] and [LE]
    answer 0xFF when the comparison holds and 0x00 when it does not. *)
Theorem X1_comparison_macros (x y : Z) :
  0 <= x <= 255 -> 0 <= y <= 255 ->
  EQ x y = mask_of (x =? y)
  /\ GT x y = mask_of (y <? x)
  /\ GE x y = mask_of (y <=? x)
  /\ LT x y = mask_of (x <? y)
  /\ LE x y = mask_of (x <=? y).
Proof.
  intros Hx Hy.
  assert (H : macros_agree x y = true).
  { assert (Hrow : forallb (macros_agree x)
                     (map (fun i => 0 + Z.of_nat i) (seq 0 256)) = true).
    { apply (Z_range_forallb
               (fun x => forallb (macros_agree x)
                           (map (fun i => 0 + Z.of_nat i) (seq 0 256))) 0 256);
        [vm_compute; reflexivity|lia]. }
    apply (Z_range_forallb (macros_agree x) 0 256); [exact Hrow|lia]. }
  revert H. unfold macros_agree.
  generalize (EQ x y), (GT x y), (GE x y), (LT x y), (LE x y).
  intros e g ge l le H.
  repeat (apply andb_true_iff in H; destruct H as [H ?]).
  lia.
Qed.

Lemma X1_comparison_macros_witness :
  EQ 43 43 = 255 /\ GT 200 7 = 255 /\ GE 7 200 = 0 /\ LT 7 200 = 255 /\ LE 200 7 = 0.
Proof.
  destruct (X1_comparison_macros 43 43) as (He & _); [lia|lia|].
  destruct (X1_comparison_macros 200 7) as (_ & Hg & _ & _ & Hle); [lia|lia|].
  destruct (X1_comparison_macros 7 200) as (_ & _ & Hge & Hl & _); [lia|lia|].
  repeat split; assumption.
Defined.

Lemma byte_to_char_alphabet (x : Z) :
  0 <= x <= 63 -> b64_byte_to_char x = b64_char x.
Proof.
  intros Hx. apply Z.eqb_eq.
  apply (Z_range_forallb byte_to_char_agrees 0 64); [vm_compute; reflexivity|lia].
Qed.

Lemma char_to_byte_back (c : Z) :
  is_byte c -> b64_char_to_byte c <> 255 ->
  b64_byte_to_char (b64_char_to_byte c) = c.
Proof.
  intros Hc Hv.
  assert (H : char_back_agrees c = true).
  { apply (Z_range_forallb char_back_agrees 0 256); [vm_compute; reflexivity|].
    unfold is_byte in Hc. lia. }
  revert H Hv. unfold char_back_agrees.
  generalize (b64_char_to_byte c). intros d H Hv.
  apply orb_true_iff in H as [H|H]; [apply Z.eqb_eq in H; contradiction|].
  apply Z.eqb_eq in H. exact H.
Qed.

(** X2. The two character mappings are inverse of each other:
    [b64_byte_to_char] sends the values 0..63 to the 64 characters
    [A-Z a-z 0-9 + /], in that order, [b64_char_to_byte] sends each of
    these characters back to its value, and every character in 0..255
    that [b64_char_to_byte] does not send to 0xFF comes back from its
    value. *)
Theorem X2_mappings_inverse :
  (forall x, 0 <= x <= 63 ->
     b64_byte_to_char x = b64_char x
     /\ b64_value (b64_byte_to_char x) = Some x
     /\ b64_char_to_byte (b64_byte_to_char x) = x)
  /\ (forall c, 0 <= c <= 255 -> b64_char_to_byte c <> 255 ->
        0 <= b64_char_to_byte c <= 63
        /\ b64_byte_to_char (b64_char_to_byte c) = c).
Proof.
  split.
  - intros x Hx. split; [apply byte_to_char_alphabet, Hx|].
    split; [|apply byte_to_char_table, Hx].
    rewrite byte_to_char_alphabet by exact Hx.
    unfold b64_char, b64_value.
    change (ch "A") with 65. change (ch "Z") with 90. change (ch "a") with 97.
    change (ch "z") with 122. change (ch "0") with 48. change (ch "9") with 57.
    change (ch "+") with 43. change (ch "/") with 47.
    destruct (Z.ltb_spec x 26); [|destruct (Z.ltb_spec x 52);
      [|destruct (Z.ltb_spec x 62); [|destruct (Z.eqb_spec x 62)]]];
      repeat match goal with
             | |- context [?a <=? ?b] => destruct (Z.leb_spec a b); try lia
             | |- context [?a =? ?b] => destruct (Z.eqb_spec a b); try lia
             end; cbn [andb]; f_equal; lia.
  - intros c Hc Hv. split; [|apply char_to_byte_back; assumption].
    destruct (char_to_byte_range c) as [H|H]; [unfold is_char; lia|contradiction|exact H].
Qed.

(** X17. On every character [c] with a value in 0..255, [b64_char_to_byte]
    gives the 6-bit value of [c] when [c] is in the alphabet (A-Z to
    0-25, a-z to 26-51, 0-9 to 52-61, '+' to 62, '/' to 63) and 0xFF
    for every other character; 'A' is the only character that it
    sends to 0.  Below zero it does not, see
    [b64_char_to_byte_below_zero]. *)
Theorem X17_char_to_byte_on_bytes (c : Z) :
  0 <= c <= 255 ->
  (ch "A" <= c <= ch "Z" -> b64_char_to_byte c = c - ch "A")
  /\ (ch "a" <= c <= ch "z" -> b64_char_to_byte c = c - ch "a" + 26)
  /\ (ch "0" <= c <= ch "9" -> b64_char_to_byte c = c - ch "0" + 52)
  /\ (c = ch "+" -> b64_char_to_byte c = 62)
  /\ (c = ch "/" -> b64_char_to_byte c = 63)
  /\ (b64_value c = None -> b64_char_to_byte c = 255)
  /\ (forall v, b64_value c = Some v -> b64_char_to_byte c = v /\ 0 <= v <= 63)
  /\ (b64_char_to_byte c = 0 <-> c = ch "A").
Proof.
  intros Hc.
  pose proof (char_to_byte_table c Hc) as Ht.
  pose proof (char_to_byte_zero_table c Hc) as Hz.
  destruct (b64_value_cases c) as (Vu & Vl & Vd & Vp & Vs).
  revert Ht Hz. unfold char_to_byte_agrees, char_to_byte_zero.
  generalize (b64_char_to_byte c). intros d Ht Hz.
  assert (Hv : forall v, b64_value c = Some v -> d = v /\ 0 <= v <= 63).
  { intros v Ev. rewrite Ev in Ht.
    apply andb_true_iff in Ht as [Ht H3]. apply andb_true_iff in Ht as [H1 H2].
    lia. }
  split; [intros H; apply (Hv _ (Vu H))|].
  split; [intros H; apply (Hv _ (Vl H))|].
  split; [intros H; apply (Hv _ (Vd H))|].
  split; [intros H; apply (Hv _ (Vp H))|].
  split; [intros H; apply (Hv _ (Vs H))|].
  split; [intros Ev; rewrite Ev in Ht; lia|].
  split; [exact Hv|].
  apply Bool.eqb_prop in Hz.
  destruct (Z.eqb_spec d 0), (Z.eqb_spec c (ch "A")); try discriminate; tauto.
Qed.

Lemma X17_char_to_byte_on_bytes_witness :
  0 <= ch "+" <= 255 /\ b64_char_to_byte (ch "+") = 62.
Proof.
  assert (H : 0 <= ch "+" <= 255) by (vm_compute; split; discriminate).
  split; [exact H|].
  destruct (X17_char_to_byte_on_bytes (ch "+") H) as (_ & _ & _ & Hplus & _).
  exact (Hplus eq_refl).
Defined.

Lemma char_to_byte_value (c : Z) :
  0 <= c <= 255 ->
  (b64_value c = None -> b64_char_to_byte c = 255)
  /\ (forall v, b64_value c = Some v -> b64_char_to_byte c = v).
Proof.
  intros Hc. pose proof (char_to_byte_table c Hc) as Ht.
  revert Ht. unfold char_to_byte_agrees.
  generalize (b64_char_to_byte c). intros d Ht.
  destruct (b64_value c) as [v|]; split; try discriminate.
  - intros w [= <-]. apply andb_true_iff in Ht as [Ht _].
    apply andb_true_iff in Ht as [Ht _]. lia.
  - intros _. lia.
Qed.

(** ** [to_base64] *)

Lemma base64_olen_formula (n : nat) : base64_olen n = ((4 * n + 2) / 3)%nat.
Proof.
  unfold base64_olen. rewrite Nat.shiftl_mul_pow2. change (2 ^ 2)%nat with 4%nat.
  pose proof (Nat.div_mod_eq n 3) as E.
  pose proof (Nat.mod_upper_bound n 3) as B.
  assert (H : forall a b q, (a = 3 * q + b -> b < 3 -> a / 3 = q)%nat).
  { intros a b q -> Hb. symmetry. apply (Nat.div_unique _ 3 q b); lia. }
  destruct (n mod 3)%nat as [|[|[|k]]] eqn:Em; try lia; symmetry.
  - apply (H _ 2%nat); lia.
  - apply (H _ 0%nat); lia.
  - apply (H _ 1%nat); lia.
Qed.

(** X3. [to_base64] on [n] bytes needs room for [(4n+2)/3] characters
    and the terminator.  Without it, it returns [(size_t)-1] and leaves
    the buffer as it was.  With it, it returns that length and writes
    that many characters of the alphabet, none of them zero, then a
    zero, from [dst] on, and nothing anywhere else. *)
Theorem X3_to_base64_contract (mem : list Z) (dst dst_len : nat)
    (src : list Z) (n : nat) :
  (n <= length src)%nat ->
  Forall is_byte (take n src) ->
  let olen := ((4 * n + 2) / 3)%nat in
  ((dst_len <= olen)%nat -> to_base64 mem dst dst_len src n = (None, mem))
  /\ ((olen < dst_len)%nat ->
      exists text,
        to_base64 mem dst dst_len src n = (Some olen, store mem dst (text ++ [0]))
        /\ length text = olen
        /\ Forall (fun c => exists v, b64_value c = Some v) text
        /\ length (store mem dst (text ++ [0])) = length mem
        /\ (forall i, (i < dst \/ dst + olen < i)%nat ->
              store mem dst (text ++ [0]) !! i = mem !! i)
        /\ ((dst + dst_len <= length mem)%nat ->
            take olen (drop dst (store mem dst (text ++ [0]))) = text
            /\ strlen (drop dst (store mem dst (text ++ [0]))) = olen)).
Proof.
  intros Hn Hb olen.
  assert (Hl : length (take n src) = n) by (rewrite length_take; lia).
  pose proof (length_b64_text (take n src)) as Ht.
  rewrite Hl, base64_olen_formula in Ht. fold olen in Ht.
  rewrite to_base64_text by assumption. cbv zeta. rewrite Ht.
  split.
  - intros Hsmall. destruct (Nat.leb_spec dst_len olen); [reflexivity|lia].
  - intros Hroom. destruct (Nat.leb_spec dst_len olen); [lia|].
    exists (b64_text (take n src)).
    split; [reflexivity|]. split; [exact Ht|].
    split.
    { eapply Forall_impl; [apply b64_text_chars, Hb|].
      intros c [Hc Hv]. simpl in Hc.
      destruct (b64_value c) as [v|] eqn:Ev; [exists v; reflexivity|].
      exfalso. apply Hv.
      destruct (char_to_byte_value c) as [Hnone _]; [lia|]. apply Hnone, Ev. }
    split; [apply length_store|].
    split.
    { intros i Hi. apply store_lookup_outside.
      rewrite length_app, Ht. cbn [length]. lia. }
    intros Hmem.
    rewrite store_middle by (rewrite length_app, Ht; cbn [length]; lia).
    rewrite drop_app_length' by (rewrite length_take; lia).
    rewrite <- app_assoc.
    split.
    + rewrite <- Ht. apply take_app_length.
    + rewrite <- Ht. apply strlen_no_zero; [apply b64_text_no_zero, Hb|reflexivity].
Qed.

Lemma X3_to_base64_contract_witness :
  to_base64 (repeat 9 4) 0 4 [255; 0; 16] 3 = (None, repeat 9 4)
  /\ exists text,
       to_base64 (repeat 9 6) 1 5 [255; 0; 16] 3
       = (Some 4%nat, store (repeat 9 6) 1 (text ++ [0]))
       /\ strlen (drop 1 (store (repeat 9 6) 1 (text ++ [0]))) = 4%nat.
Proof.
  assert (Hn : (3 <= length [255; 0; 16])%nat) by (simpl; lia).
  assert (Hb : Forall is_byte (take 3 [255; 0; 16]))
    by (repeat constructor; unfold is_byte; lia).
  split.
  - apply (X3_to_base64_contract (repeat 9 4) 0 4 [255; 0; 16] 3 Hn Hb).
    vm_compute. lia.
  - destruct (X3_to_base64_contract (repeat 9 6) 1 5 [255; 0; 16] 3 Hn Hb)
      as [_ H].
    destruct H as (text & H1 & _ & _ & _ & _ & H2); [vm_compute; lia|].
    exists text. split; [exact H1|]. apply H2. simpl. lia.
Defined.

(** ** [from_base64] *)

Section CanonicalBits.

Variables acc d1 d2 d3 d4 : Z.
Hypothesis H1 : 0 <= d1 <= 63.
Hypothesis H2 : 0 <= d2 <= 63.
Hypothesis H3 : 0 <= d3 <= 63.
Hypothesis H4 : 0 <= d4 <= 63.

Lemma scan_byte_1 :
  Z.land (Z.shiftr (u32 (Z.shiftl (u32 (Z.shiftl acc 6 + d1)) 6 + d2)) 4) 255
  = d1 * 4 + d2 / 16.
Proof. bits. Qed.

Lemma scan_byte_2 :
  Z.land (Z.shiftr (u32 (Z.shiftl (u32 (Z.shiftl acc 6 + d2)) 6 + d3)) 2) 255
  = d2 mod 16 * 16 + d3 / 4.
Proof. bits. Qed.

Lemma scan_byte_3 :
  Z.land (Z.shiftr (u32 (Z.shiftl (u32 (Z.shiftl acc 6 + d3)) 6 + d4)) 0) 255
  = d3 mod 4 * 64 + d4.
Proof. bits. Qed.

Lemma scan_zero_4 :
  Z.land (u32 (Z.shiftl acc 6 + d2)) (u32 (Z.shiftl 1 4 - 1)) = 0 ->
  d2 mod 16 = 0.
Proof.
  change (u32 (Z.shiftl 1 4 - 1)) with (Z.ones 4).
  rewrite Z.land_ones by lia. bits.
Qed.

Lemma scan_zero_2 :
  Z.land (u32 (Z.shiftl acc 6 + d3)) (u32 (Z.shiftl 1 2 - 1)) = 0 ->
  d3 mod 4 = 0.
Proof.
  change (u32 (Z.shiftl 1 2 - 1)) with (Z.ones 2).
  rewrite Z.land_ones by lia. bits.
Qed.

End CanonicalBits.

Lemma list_ind4 {A : Type} (P : list A -> Prop) :
  P [] ->
  (forall a, P [a]) ->
  (forall a b, P [a; b]) ->
  (forall a b c, P [a; b; c]) ->
  (forall a b c d l, P l -> P (a :: b :: c :: d :: l)) ->
  forall l, P l.
Proof.
  intros H0 H1 H2 H3 H4. fix IH 1.
  intros [|a [|b [|c [|d l]]]];
    [apply H0|apply H1|apply H2|apply H3|apply H4, IH].
Qed.

Lemma alphabet_char_sextet (c : Z) :
  alphabet_char c ->
  0 <= b64_char_to_byte c <= 63
  /\ b64_byte_to_char (b64_char_to_byte c) = c.
Proof.
  intros [Hc Hv]. split; [|apply char_to_byte_back; assumption].
  destruct (char_to_byte_range c) as [H|H];
    [unfold is_char, is_byte in *; lia|contradiction|exact H].
Qed.

(** The bytes of a run of the alphabet that leaves no bit are bytes
    whose text is the run. *)
Lemma b64_scan_canonical (rest : list Z) (run : list Z) :
  b64_char_to_byte (peek rest) = 255 ->
  Forall alphabet_char run ->
  forall acc,
    let '(bytes, rest', acc', al') := b64_scan (run ++ rest) acc 0 in
    rest' = rest
    /\ Forall is_byte bytes
    /\ (al' <= 4 -> Z.land acc' (u32 (Z.shiftl 1 al' - 1)) = 0 ->
        b64_text bytes = run).
Proof.
  intros Hrest.
  induction run as [|c1|c1 c2|c1 c2 c3|c1 c2 c3 c4 run IH] using list_ind4;
    intros Hrun acc.
  - cbn [app]. rewrite b64_scan_stop by assumption.
    split; [reflexivity|]. split; [constructor|]. reflexivity.
  - inversion_clear Hrun as [|? ? A1 _].
    cbn [app]. rewrite b64_scan_0 by apply A1.
    rewrite b64_scan_stop by assumption.
    split; [reflexivity|]. split; [constructor|]. intros; lia.
  - inversion_clear Hrun as [|? ? A1 Hr]. inversion_clear Hr as [|? ? A2 _].
    destruct (alphabet_char_sextet _ A1) as [S1 B1].
    destruct (alphabet_char_sextet _ A2) as [S2 B2].
    cbn [app]. rewrite b64_scan_0 by apply A1. rewrite b64_scan_6 by apply A2.
    rewrite b64_scan_stop by assumption.
    rewrite scan_byte_1 by assumption.
    split; [reflexivity|].
    split; [repeat constructor; unfold is_byte; revert S1 S2;
            generalize (b64_char_to_byte c1), (b64_char_to_byte c2); intros;
            Z.div_mod_to_equations; lia|].
    intros _ Hz. apply scan_zero_4 in Hz.
    cbn [b64_text]. clear A1 A2. revert S1 B1 S2 B2 Hz.
    generalize (b64_char_to_byte c1), (b64_char_to_byte c2).
    intros d1 d2 S1 <- S2 <- Hz.
    repeat f_equal; Z.div_mod_to_equations; lia.
  - inversion_clear Hrun as [|? ? A1 Hr]. inversion_clear Hr as [|? ? A2 Hr'].
    inversion_clear Hr' as [|? ? A3 _].
    destruct (alphabet_char_sextet _ A1) as [S1 B1].
    destruct (alphabet_char_sextet _ A2) as [S2 B2].
    destruct (alphabet_char_sextet _ A3) as [S3 B3].
    cbn [app]. rewrite b64_scan_0 by apply A1. rewrite b64_scan_6 by apply A2.
    rewrite b64_scan_4 by apply A3.
    rewrite b64_scan_stop by assumption.
    rewrite scan_byte_1, scan_byte_2 by assumption.
    split; [reflexivity|].
    split; [repeat constructor; unfold is_byte; revert S1 S2 S3;
            generalize (b64_char_to_byte c1), (b64_char_to_byte c2),
              (b64_char_to_byte c3); intros;
            Z.div_mod_to_equations; lia|].
    intros _ Hz. apply scan_zero_2 in Hz.
    cbn [b64_text]. clear A1 A2 A3. revert S1 B1 S2 B2 S3 B3 Hz.
    generalize (b64_char_to_byte c1), (b64_char_to_byte c2), (b64_char_to_byte c3).
    intros d1 d2 d3 S1 <- S2 <- S3 <- Hz.
    repeat f_equal; Z.div_mod_to_equations; lia.
  - inversion_clear Hrun as [|? ? A1 Hr]. inversion_clear Hr as [|? ? A2 Hr'].
    inversion_clear Hr' as [|? ? A3 Hr]. inversion_clear Hr as [|? ? A4 Hr'].
    destruct (alphabet_char_sextet _ A1) as [S1 B1].
    destruct (alphabet_char_sextet _ A2) as [S2 B2].
    destruct (alphabet_char_sextet _ A3) as [S3 B3].
    destruct (alphabet_char_sextet _ A4) as [S4 B4].
    cbn [app]. rewrite b64_scan_0 by apply A1. rewrite b64_scan_6 by apply A2.
    rewrite b64_scan_4 by apply A3. rewrite b64_scan_2 by apply A4.
    rewrite scan_byte_1, scan_byte_2, scan_byte_3 by assumption.
    match goal with
    | |- context [b64_scan _ ?a 0] => specialize (IH Hr' a)
    end.
    destruct (b64_scan (run ++ rest) _ 0) as [[[bytes rest'] acc'] al'].
    destruct IH as (Hre & Hby & Htext).
    split; [exact Hre|].
    split; [repeat (constructor;
                    [unfold is_byte; revert S1 S2 S3 S4;
                     generalize (b64_char_to_byte c1), (b64_char_to_byte c2),
                       (b64_char_to_byte c3), (b64_char_to_byte c4); intros;
                     Z.div_mod_to_equations; lia|]);
            exact Hby|].
    intros Hal Hz. cbn [b64_text]. rewrite (Htext Hal Hz).
    clear A1 A2 A3 A4 Htext Hz Hby. revert S1 B1 S2 B2 S3 B3 S4 B4.
    generalize (b64_char_to_byte c1), (b64_char_to_byte c2),
      (b64_char_to_byte c3), (b64_char_to_byte c4).
    intros d1 d2 d3 d4 S1 <- S2 <- S3 <- S4 <-.
    repeat f_equal; Z.div_mod_to_equations; lia.
Qed.

Lemma b64_run_split (src : list Z) :
  src = b64_run src ++ drop (length (b64_run src)) src.
Proof.
  induction src as [|c src IH]; cbn [b64_run]; [reflexivity|].
  destruct (b64_char_to_byte c =? 255); cbn [length drop app]; [reflexivity|].
  f_equal. exact IH.
Qed.

Lemma b64_scan_bytes (src : list Z) :
  forall acc al, Forall is_byte (fst (fst (fst (b64_scan src acc al)))).
Proof.
  induction src as [|c src IH]; intros acc al; cbn [b64_scan peek]; cbv zeta.
  - destruct (_ =? 255); constructor.
  - destruct (_ =? 255); [constructor|].
    destruct (8 <=? _); [|apply IH].
    specialize (IH (u32 (Z.shiftl acc 6 + b64_char_to_byte c))
                  (u32 (al + 6) - 8)).
    destruct (b64_scan src _ _) as [[[bytes rest] acc'] al'].
    cbn [fst] in *. constructor; [|exact IH].
    unfold is_byte. rewrite land_255. Z.div_mod_to_equations; lia.
Qed.

(** A successful call of [from_base64], read backwards. *)
Lemma from_base64_inversion (dst : list Z) (cap : nat) (src rest dst' : list Z)
    (len : nat) :
  from_base64 dst cap src = (Some rest, dst', len) ->
  exists bytes,
    Forall is_byte bytes /\ length bytes = len /\ (len <= cap)%nat
    /\ dst' = store dst 0 bytes
    /\ src = b64_run src ++ rest
    /\ b64_char_to_byte (peek rest) = 255
    /\ (Forall is_byte (b64_run src) -> b64_run src = b64_text bytes).
Proof.
  rewrite from_base64_scan.
  pose proof (b64_scan_bytes src 0 0) as Hb.
  pose proof (b64_scan_run src 0 0 (or_introl eq_refl)) as Hr.
  change (u32 0) with 0 in Hr. cbv zeta in Hr.
  pose proof (fun H => b64_scan_canonical (drop (length (b64_run src)) src)
                (b64_run src) (b64_run_stops src) H 0) as H.
  rewrite <- b64_run_split in H.
  destruct (b64_scan src 0 0) as [[[bytes rest'] acc] al].
  cbn [fst] in Hb. destruct Hr as (Hrest & _).
  destruct (Nat.ltb_spec cap (length bytes)) as [?|Hcap]; [discriminate|].
  destruct (Z.ltb_spec 4 al) as [?|Hal]; [discriminate|]. cbn [orb].
  destruct (Z.eqb_spec (Z.land acc (u32 (Z.shiftl 1 al - 1))) 0) as [Hz|?];
    [|discriminate]. cbn [negb].
  intros [= <- <- <-]. exists bytes.
  split; [exact Hb|]. split; [reflexivity|]. split; [exact Hcap|].
  split; [reflexivity|]. split; [|split].
  - rewrite Hrest. apply b64_run_split.
  - rewrite Hrest. apply b64_run_stops.
  - intros Hrun.
    assert (Ha : Forall alphabet_char (b64_run src)).
    { pose proof (b64_run_alphabet src) as Hn.
      revert Hrun Hn. generalize (b64_run src).
      induction 1 as [|c l Hc _ IH]; intros Hn; constructor.
      - split; [exact Hc|]. inversion Hn; assumption.
      - apply IH. inversion Hn; assumption. }
    destruct (H Ha) as (_ & _ & Ht). symmetry. apply Ht; assumption.
Qed.

Lemma b64_run_bytes (src : list Z) :
  Forall is_byte src -> Forall is_byte (b64_run src).
Proof.
  induction 1 as [|c src Hc _ IH]; cbn [b64_run]; [constructor|].
  destruct (_ =? 255); constructor; assumption.
Qed.

(** X4. What [from_base64] accepts is canonical: when it succeeds on
    characters in 0..255, the characters that it has consumed are
    those that [to_base64] writes for the bytes that it has decoded,
    and the character at which it stops is not of the alphabet. *)
Theorem X4_from_base64_canonical (dst : list Z) (cap : nat)
    (src rest dst' : list Z) (len : nat) :
  Forall is_byte src ->
  (cap <= length dst)%nat ->
  from_base64 dst cap src = (Some rest, dst', len) ->
  let k := (length src - length rest)%nat in
  src = take k src ++ rest
  /\ b64_char_to_byte (peek rest) = 255
  /\ (len <= cap)%nat
  /\ Forall is_byte (take len dst')
  /\ forall mem n,
       (k < n <= length mem)%nat ->
       to_base64 mem 0 n (take len dst') len
       = (Some k, take k src ++ 0 :: drop (S k) mem).
Proof.
  intros Hsrc Hdst Hfrom k.
  destruct (from_base64_inversion dst cap src rest dst' len Hfrom)
    as (bytes & Hb & Hl & Hcap & Hd & Hs & Hstop & Ht).
  rewrite (Ht (b64_run_bytes src Hsrc)) in Hs.
  assert (Hk : k = length (b64_text bytes)).
  { unfold k. rewrite Hs at 1. rewrite length_app. lia. }
  assert (Htk : take k src = b64_text bytes).
  { rewrite Hk, Hs. apply take_app_length. }
  assert (Hbytes : take len dst' = bytes).
  { rewrite Hd, store_at_0 by lia. rewrite <- Hl. apply take_app_length. }
  rewrite Hbytes, Htk.
  split; [exact Hs|]. split; [exact Hstop|]. split; [exact Hcap|].
  split; [exact Hb|].
  intros mem n Hn. rewrite <- Hl.
  rewrite to_base64_text by (rewrite ?take_ge by lia; auto).
  cbv zeta. rewrite take_ge by lia. rewrite <- Hk.
  destruct (Nat.leb_spec n k); [lia|].
  rewrite store_at_0 by (rewrite length_app, <- Hk; cbn [length]; lia).
  rewrite <- app_assoc, length_app, <- Hk. cbn [length app].
  replace (k + 1)%nat with (S k) by lia. reflexivity.
Qed.

Lemma X4_from_base64_canonical_witness :
  cs "Hj5+dsK0ZQ,data=" = take 10 (cs "Hj5+dsK0ZQ,data=") ++ cs ",data="
  /\ to_base64 (repeat 1 12) 0 12
       (take 7 (snd (fst (from_base64 (repeat 0 8) 8 (cs "Hj5+dsK0ZQ,data="))))) 7
     = (Some 10%nat, take 10 (cs "Hj5+dsK0ZQ,data=") ++ 0 :: drop 11 (repeat 1 12)).
Proof.
  assert (Hs : Forall is_byte (cs "Hj5+dsK0ZQ,data="))
    by (apply all_bytes_Forall; reflexivity).
  assert (Hd : (8 <= length (repeat 0 8))%nat) by (simpl; lia).
  destruct (X4_from_base64_canonical (repeat 0 8) 8 (cs "Hj5+dsK0ZQ,data=")
              (cs ",data=")
              (snd (fst (from_base64 (repeat 0 8) 8 (cs "Hj5+dsK0ZQ,data="))))
              7 Hs Hd eq_refl) as (H1 & _ & _ & _ & H2).
  split; [exact H1|]. apply (H2 (repeat 1 12) 12%nat). simpl. lia.
Defined.

(** [b64_char_to_byte] does not tell a character below zero from ['/']. *)
Lemma char_to_byte_as_slash (c : Z) :
  is_char c -> b64_char_to_byte (as_slash c) = b64_char_to_byte c.
Proof.
  intros Hc. apply Z.eqb_eq.
  apply (Z_range_forallb below_zero_agrees (-128) 384);
    [vm_compute; reflexivity|unfold is_char in Hc; lia].
Qed.

Lemma peek_map_as_slash (src : list Z) :
  peek (map as_slash src) = as_slash (peek src).
Proof. destruct src; reflexivity. Qed.

Lemma b64_scan_as_slash (src : list Z) :
  Forall is_char src ->
  forall acc al,
    b64_scan (map as_slash src) acc al =
    let '(bytes, rest, acc', al') := b64_scan src acc al in
    (bytes, map as_slash rest, acc', al').
Proof.
  induction 1 as [|c src Hc _ IH]; intros acc al.
  - reflexivity.
  - cbn [map b64_scan peek]. cbv zeta.
    rewrite (char_to_byte_as_slash c Hc).
    destruct (b64_char_to_byte c =? 255); [reflexivity|].
    destruct (8 <=? u32 (al + 6)); [|apply IH].
    rewrite IH.
    destruct (b64_scan src _ _) as [[[bytes rest] acc'] al']. reflexivity.
Qed.

(** X5. [from_base64] passes [*src] to [b64_char_to_byte] as it is.
    Where [char] is signed, a byte from 0x80 on is an [int] below zero
    there, outside the range of the comparison macros, and it is not
    refused: the call decodes it as ['/'], so it does on a string what
    it does on the same string with ['/'] for every such byte. *)
Theorem X5_from_base64_below_zero (dst : list Z) (cap : nat) (src : list Z) :
  Forall is_char src ->
  (forall c, -128 <= c < 0 -> b64_char_to_byte c = 63)
  /\ from_base64 dst cap (map as_slash src)
     = (option_map (map as_slash) (fst (fst (from_base64 dst cap src))),
        snd (fst (from_base64 dst cap src)),
        snd (from_base64 dst cap src)).
Proof.
  intros Hsrc. split; [apply b64_char_to_byte_below_zero|].
  rewrite !from_base64_scan, b64_scan_as_slash by exact Hsrc.
  destruct (b64_scan src 0 0) as [[[bytes rest] acc] al].
  destruct (cap <? length bytes)%nat; [reflexivity|].
  destruct (orb _ _); reflexivity.
Qed.

Lemma X5_from_base64_below_zero_witness :
  from_base64 (repeat 0 3) 3 (map as_slash [-1; -128; 65; -3])
  = (option_map (map as_slash)
       (fst (fst (from_base64 (repeat 0 3) 3 [-1; -128; 65; -3]))),
     snd (fst (from_base64 (repeat 0 3) 3 [-1; -128; 65; -3])),
     snd (from_base64 (repeat 0 3) 3 [-1; -128; 65; -3])).
Proof.
  apply (X5_from_base64_below_zero (repeat 0 3) 3 [-1; -128; 65; -3]).
  repeat constructor; unfold is_char; lia.
Defined.

(** ** [decode_decimal] *)

Lemma digits_value_snoc (l : list Z) (d : Z) :
  digits_value (l ++ [d]) = digits_value l * 10 + (d - ch "0").
Proof. unfold digits_value. rewrite fold_left_app. reflexivity. Qed.

Lemma digits_value_pos (l : list Z) :
  Forall (fun c => is_digit c = true) l ->
  l <> [] -> peek l <> ch "0" -> 1 <= digits_value l.
Proof.
  intros Hl Hne Hz. destruct l as [|h l]; [congruence|].
  inversion Hl as [|? ? Hh Hl']; subst.
  apply is_digit_range in Hh. cbn [peek] in Hz. change (ch "0") with 48 in Hz.
  unfold digits_value. cbn [fold_left].
  assert (Ha : add_digit 0 h = h - 48) by (unfold add_digit; reflexivity).
  rewrite Ha. pose proof (add_digits_ge l Hl' (h - 48)) as H. lia.
Qed.

(** A run of digits without a leading zero is what [sprintf] writes for
    its value. *)
Lemma decimal_digits_of_run (l : list Z) :
  Forall (fun c => is_digit c = true) l ->
  l <> [] ->
  (peek l = ch "0" -> length l = 1%nat) ->
  forall fuel,
    digits_value l < 2 ^ (Z.of_nat fuel + 1) ->
    decimal_digits fuel (digits_value l) = l.
Proof.
  induction l as [|d l IH] using rev_ind; intros Hl Hne Hz fuel Hv;
    [congruence|].
  apply Forall_app in Hl. destruct Hl as [Hl Hd].
  inversion Hd as [|? ? Hd' _]; subst. apply is_digit_range in Hd'.
  rewrite digits_value_snoc in *. change (ch "0") with 48 in *.
  destruct l as [|h l].
  - cbn [app]. change (digits_value []) with 0 in *.
    destruct fuel as [|fuel]; cbn [decimal_digits]; change (ch "0") with 48.
    + f_equal. rewrite Z.mod_small by lia. lia.
    + destruct (Z.ltb_spec (0 * 10 + (d - 48)) 10); [|lia]. f_equal. lia.
  - assert (Hh : peek (h :: l) <> 48).
    { intros Hp. cbn [peek] in Hp. cbn [app peek] in Hz.
      specialize (Hz Hp). cbn [length] in Hz. rewrite length_app in Hz.
      cbn [length] in Hz. lia. }
    pose proof (digits_value_pos (h :: l) Hl ltac:(discriminate) Hh) as Hpos.
    assert (IH' := fun fuel =>
      IH Hl ltac:(discriminate) ltac:(intros; contradiction) fuel).
    revert Hv Hpos IH'. generalize (digits_value (h :: l)). intros v Hv Hpos IH'.
    destruct fuel as [|fuel].
    + change (2 ^ (Z.of_nat 0 + 1)) with 2 in Hv. lia.
    + cbn [decimal_digits].
      destruct (Z.ltb_spec (v * 10 + (d - 48)) 10); [lia|].
      replace ((v * 10 + (d - 48)) / 10) with v
        by (Z.div_mod_to_equations; lia).
      replace ((v * 10 + (d - 48)) mod 10) with (d - 48)
        by (Z.div_mod_to_equations; lia).
      rewrite IH'.
      * change (ch "0") with 48. repeat f_equal. lia.
      * replace (Z.of_nat (S fuel) + 1) with (Z.succ (Z.of_nat fuel + 1)) in Hv
          by lia.
        rewrite Z.pow_succ_r in Hv by lia. lia.
Qed.

Lemma sprintf_lu_of_run (l : list Z) :
  Forall (fun c => is_digit c = true) l ->
  l <> [] ->
  (peek l = ch "0" -> length l = 1%nat) ->
  sprintf_lu (digits_value l) = l.
Proof.
  intros Hl Hne Hz. unfold sprintf_lu.
  apply decimal_digits_of_run; try assumption.
  assert (0 <= digits_value l)
    by (apply (add_digits_ge l Hl 0); lia).
  rewrite Z2Nat.id by apply Z.log2_nonneg.
  destruct (Z.eq_dec (digits_value l) 0) as [->|]; [reflexivity|].
  apply Z.log2_spec. lia.
Qed.

Lemma digit_run_split (str : list Z) :
  str = digit_run str ++ drop (length (digit_run str)) str.
Proof.
  induction str as [|c str IH]; cbn [digit_run]; [reflexivity|].
  destruct (is_digit c); cbn [length drop app]; [|reflexivity].
  f_equal. exact IH.
Qed.

Lemma peek_digit_run (str : list Z) :
  digit_run str <> [] -> peek (digit_run str) = peek str.
Proof.
  destruct str as [|c str]; cbn [digit_run]; [congruence|].
  destruct (is_digit c); [reflexivity|congruence].
Qed.

(** A successful call of [decode_decimal], read backwards. *)
Lemma decode_decimal_inversion (ULONG_MAX : Z) (str rest : list Z) (v : Z) :
  4294967295 <= ULONG_MAX ->
  decode_decimal ULONG_MAX str = Some (rest, v) ->
  str = sprintf_lu v ++ rest
  /\ 0 <= v <= ULONG_MAX
  /\ is_digit (peek rest) = false.
Proof.
  intros HU. rewrite decode_decimal_run by exact HU. cbv zeta.
  pose proof (digit_run_digits str) as Hd.
  pose proof (digit_run_stops str) as Hs.
  pose proof (digit_run_split str) as Hsplit.
  pose proof (peek_digit_run str) as Hp.
  revert Hd Hs Hsplit Hp. generalize (digit_run str). intros run Hd Hs Hsplit Hp.
  destruct (Nat.eqb_spec (length run) 0) as [|Hlen]; [discriminate|].
  cbn [orb].
  assert (Hne : run <> []) by (intros ->; apply Hlen; reflexivity).
  destruct (Z.eqb_spec (peek str) (ch "0")) as [Hz|Hz];
    [destruct (Nat.eqb_spec (length run) 1) as [H1|]; [|discriminate]|];
    cbn [andb negb];
    (destruct (Z.gtb_spec (digits_value run) ULONG_MAX); [discriminate|]);
    intros [= <- <-];
    (split; [|split; [split; [apply (add_digits_ge run Hd 0); lia|lia]
                     |exact Hs]]);
    rewrite sprintf_lu_of_run; try assumption; intros Hz';
    rewrite Hp in Hz' by assumption; [exact H1|contradiction].
Qed.

(** X6. [decode_decimal] accepts one writing of each number: when it
    returns a pointer and a value, the characters before the pointer
    are those that [sprintf] writes for the value with ["%lu"], the
    value is at most [ULONG_MAX], and the pointer is at a character
    that is not a digit. *)
Theorem X6_decode_decimal_canonical (ULONG_MAX : Z) (str rest : list Z) (v : Z) :
  4294967295 <= ULONG_MAX ->
  decode_decimal ULONG_MAX str = Some (rest, v) ->
  str = sprintf_lu v ++ rest
  /\ 0 <= v <= ULONG_MAX
  /\ is_digit (peek rest) = false
  /\ decode_decimal ULONG_MAX (sprintf_lu v ++ rest) = Some (rest, v).
Proof.
  intros HU H.
  destruct (decode_decimal_inversion ULONG_MAX str rest v HU H) as (Hs & Hv & Hr).
  split; [exact Hs|]. split; [exact Hv|]. split; [exact Hr|].
  rewrite <- Hs. exact H.
Qed.

Lemma X6_decode_decimal_canonical_witness :
  cs "4294967295,p=1" = sprintf_lu 4294967295 ++ cs ",p=1"
  /\ 0 <= 4294967295 <= 4294967295.
Proof.
  destruct (X6_decode_decimal_canonical 4294967295 (cs "4294967295,p=1")
              (cs ",p=1") 4294967295 ltac:(lia) eq_refl) as (H1 & H2 & _).
  split; [exact H1|exact H2].
Defined.

(** ** [argon2i_decode_string], read backwards *)

Lemma run_seq_Continue {S : Type} (f g : stmt S) (st s' : S) :
  f st = Continue s' -> run (f ;; g)%stmt st = run g s'.
Proof. intros H. unfold run at 1, seq_stmt. rewrite H. reflexivity. Qed.

Lemma run_seq_Return {S : Type} (f g : stmt S) (st s' : S) (r : Z) :
  f st = Return r s' -> run (f ;; g)%stmt st = (r, s').
Proof. intros H. unfold run, seq_stmt. rewrite H. reflexivity. Qed.

Lemma strncmp_eq_inv (lit : list Z) :
  no_zero lit ->
  forall s, strncmp_eq s lit (length lit) = true ->
            s = lit ++ drop (length lit) s.
Proof.
  induction 1 as [|c lit Hc _ IH]; intros s H; [reflexivity|].
  cbn [length strncmp_eq peek tl] in H.
  destruct (Z.eqb_spec (peek s) c) as [E|]; [|discriminate].
  destruct s as [|a s]; cbn [peek] in E; [congruence|]. subst a.
  cbn [peek tl] in H. destruct (Z.eqb_spec c 0); [contradiction|].
  cbn [length drop app]. f_equal. apply IH. exact H.
Qed.

Lemma strlen_lit (lit : list Z) : no_zero lit -> strlen lit = length lit.
Proof. intros H. apply (strncmp_eq_prefix lit [] H). Qed.

Section DecodeInversion.

Variable ULONG_MAX : Z.
Hypothesis ULONG_MAX_ge : 4294967295 <= ULONG_MAX.

Lemma inv_CC (lit : list Z) (g : stmt dstate) (st st' : dstate) :
  no_zero lit ->
  run (CC lit ;; g)%stmt st = (1, st') ->
  exists rest,
    d_str st = lit ++ rest
    /\ run g {| d_pp := d_pp st; d_str := rest |} = (1, st').
Proof.
  intros Hnz H.
  destruct (strncmp_eq (d_str st) lit (strlen lit)) eqn:E.
  - exists (drop (length lit) (d_str st)). split.
    + apply strncmp_eq_inv; [exact Hnz|]. rewrite <- strlen_lit; assumption.
    + rewrite <- H. symmetry. rewrite <- (strlen_lit lit Hnz).
      apply run_seq_Continue. unfold CC. rewrite E. reflexivity.
  - rewrite run_CC_fail in H by exact E. discriminate.
Qed.

Lemma inv_CC_opt (lit : list Z) (code g : stmt dstate) (st st' : dstate) :
  no_zero lit ->
  run (CC_opt lit code ;; g)%stmt st = (1, st') ->
  (exists rest,
      d_str st = lit ++ rest
      /\ run (code ;; g)%stmt {| d_pp := d_pp st; d_str := rest |} = (1, st'))
  \/ (strncmp_eq (d_str st) lit (strlen lit) = false
      /\ run g st = (1, st')).
Proof.
  intros Hnz H.
  destruct (strncmp_eq (d_str st) lit (strlen lit)) eqn:E.
  - left. exists (drop (length lit) (d_str st)). split.
    + apply strncmp_eq_inv; [exact Hnz|]. rewrite <- strlen_lit; assumption.
    + rewrite <- H. rewrite <- (strlen_lit lit Hnz).
      unfold run, seq_stmt, CC_opt. rewrite E. reflexivity.
  - right. split; [reflexivity|].
    rewrite run_CC_opt_no in H by exact E. exact H.
Qed.

Lemma inv_DECIMAL (set_x : Z -> argon2i_params -> argon2i_params)
    (g : stmt dstate) (st st' : dstate) :
  run (DECIMAL ULONG_MAX set_x ;; g)%stmt st = (1, st') ->
  exists v rest,
    d_str st = sprintf_lu v ++ rest
    /\ 0 <= v <= ULONG_MAX
    /\ is_digit (peek rest) = false
    /\ run g {| d_pp := set_x v (d_pp st); d_str := rest |} = (1, st').
Proof.
  intros H.
  destruct (decode_decimal ULONG_MAX (d_str st)) as [[rest v]|] eqn:E.
  - exists v, rest.
    destruct (decode_decimal_inversion ULONG_MAX _ _ _ ULONG_MAX_ge E)
      as (Hs & Hv & Hr).
    split; [exact Hs|]. split; [exact Hv|]. split; [exact Hr|].
    rewrite <- H. symmetry. apply run_seq_Continue.
    unfold DECIMAL. rewrite E. reflexivity.
  - rewrite run_DECIMAL_fail in H by exact E. discriminate.
Qed.

Lemma inv_guard_0 (c : dstate -> bool) (g : stmt dstate) (st st' : dstate) :
  run (when c (ret (fun _ => 0)) ;; g)%stmt st = (1, st') ->
  c st = false /\ run g st = (1, st').
Proof.
  intros H. destruct (c st) eqn:E.
  - rewrite run_guard_yes in H by exact E. discriminate.
  - rewrite run_guard in H by exact E. split; [reflexivity|exact H].
Qed.

Lemma inv_guard_1 (c : dstate -> bool) (g : stmt dstate) (st st' : dstate) :
  run (when c (ret (fun _ => 1)) ;; g)%stmt st = (1, st') ->
  (c st = true /\ st' = st) \/ (c st = false /\ run g st = (1, st')).
Proof.
  intros H. destruct (c st) eqn:E.
  - rewrite run_guard_yes in H by exact E. left. split; congruence.
  - rewrite run_guard in H by exact E. right. split; [reflexivity|exact H].
Qed.

Lemma inv_BIN (buf : argon2i_params -> list Z)
    (set_buf : list Z -> argon2i_params -> argon2i_params) (max_len : nat)
    (set_len : nat -> argon2i_params -> argon2i_params)
    (g : stmt dstate) (st st' : dstate) :
  run (BIN buf set_buf max_len set_len ;; g)%stmt st = (1, st') ->
  exists run_ bytes rest,
    d_str st = run_ ++ rest
    /\ b64_char_to_byte (peek rest) = 255
    /\ raw_ok 0 max_len (Some (run_, bytes))
    /\ run g {| d_pp := set_len (length bytes)
                          (set_buf (store (buf (d_pp st)) 0 bytes) (d_pp st));
                d_str := rest |} = (1, st').
Proof.
  intros H.
  destruct (from_base64 (buf (d_pp st)) max_len (d_str st))
    as [[[rest|] buf'] len] eqn:E.
  - destruct (from_base64_inversion _ _ _ _ _ _ E)
      as (bytes & Hb & Hl & Hcap & Hd & Hs & Hstop & Ht).
    exists (b64_run (d_str st)), bytes, rest.
    split; [exact Hs|]. split; [exact Hstop|].
    split; [cbn [raw_ok]; split; [exact Hb|split; [lia|exact Ht]]|].
    rewrite <- H. symmetry. apply run_seq_Continue.
    unfold BIN. rewrite E, Hl, Hd. reflexivity.
  - rewrite (run_seq_Return _ _ _
               {| d_pp := set_buf buf' (d_pp st); d_str := d_str st |} 0) in H;
      [discriminate|].
    unfold BIN. rewrite E. reflexivity.
Qed.

Lemma inv_ret_end (st st' : dstate) :
  run (ret (fun s => if peek (d_str s) =? 0 then 1 else 0)) st = (1, st') ->
  peek (d_str st) = 0 /\ st' = st.
Proof.
  unfold run, ret. destruct (Z.eqb_spec (peek (d_str st)) 0); intros H;
    [|discriminate]. split; [assumption|congruence].
Qed.

Lemma check_range32_inv (v : Z) :
  (v <? 1) || (Z.shiftr v 30 >? 3) = false -> 1 <= v <= 4294967295.
Proof.
  intros H. destruct (Z_le_gt_dec 1 v), (Z_le_gt_dec v 4294967295);
    try lia; rewrite check_range32_fail in H by lia; discriminate.
Qed.

Lemma check_p_inv (v : Z) : (v <? 1) || (v >? 255) = false -> 1 <= v <= 255.
Proof. lia. Qed.

Lemma check_m_inv (vm vp : Z) :
  1 <= vp <= 255 -> (vm <? ulong_shiftl ULONG_MAX vp 3) = false -> 8 * vp <= vm.
Proof. intros Hp. rewrite ulong_shiftl_p by assumption. lia. Qed.

End DecodeInversion.

Ltac project_in H :=
  cbn [d_pp d_str m t p key_id key_id_len associated_data associated_data_len
       salt salt_len output output_len
       set_m set_t set_p set_key_id set_key_id_len
       set_associated_data set_associated_data_len
       set_salt set_salt_len set_output set_output_len] in H.

Ltac lit_no_zero := repeat constructor; discriminate.

Ltac inv_lit H :=
  apply inv_CC in H; [|lit_no_zero];
  let r := fresh "rest" in
  let Hs := fresh "Hs" in
  destruct H as (r & Hs & H); cbn [d_str d_pp] in Hs, H; subst.

Ltac inv_num HU H v Hv :=
  apply (inv_DECIMAL _ HU) in H;
  let r := fresh "rest" in
  let Hs := fresh "Hs" in
  let Hd := fresh "Hd" in
  destruct H as (v & r & Hs & Hv & Hd & H); cbn [d_str d_pp] in Hs, H; subst.

Ltac inv_check H Hg :=
  apply inv_guard_0 in H; destruct H as (Hg & H); project_in Hg.

Ltac inv_bin H part Hok :=
  apply inv_BIN in H;
  let r := fresh "rest" in
  let Hs := fresh "Hs" in
  let Hstop := fresh "Hstop" in
  let rn := fresh "chars" in
  let bs := fresh "bytes" in
  destruct H as (rn & bs & r & Hs & Hstop & Hok & H);
  cbn [d_str d_pp] in Hs, H; subst;
  pose (part := Some (rn, bs)).

Ltac inv_opt H part Hok :=
  apply inv_CC_opt in H; [|lit_no_zero];
  let r := fresh "rest" in
  let Hs := fresh "Hs" in
  destruct H as [(r & Hs & H)|(Hs & H)];
  [ cbn [d_str d_pp] in Hs, H; subst; inv_bin H part Hok
  | clear Hs; pose (part := @None (list Z * list Z));
    assert (Hok : True) by exact I ].

Lemma raw_ok_lower (lo hi : nat) (chars bytes : list Z) :
  raw_ok 0 hi (Some (chars, bytes)) ->
  (length bytes <? lo)%nat = false ->
  raw_ok lo hi (Some (chars, bytes)).
Proof.
  cbn [raw_ok]. intros (Hb & Hl & Ht) Hlo. apply Nat.ltb_ge in Hlo.
  split; [exact Hb|]. split; [lia|exact Ht].
Qed.

Lemma decode_inversion (ULONG_MAX : Z) (pp0 pp' : argon2i_params) (str : list Z) :
  4294967295 <= ULONG_MAX ->
  argon2i_decode_string ULONG_MAX pp0 str = (1, pp') ->
  exists vm vt vp kp dp sp op rest,
    str = cs "$argon2i$m=" ++ sprintf_lu vm ++ cs ",t=" ++ sprintf_lu vt
          ++ cs ",p=" ++ sprintf_lu vp
          ++ raw_part (cs ",keyid=") kp ++ raw_part (cs ",data=") dp
          ++ raw_part (cs "$") sp ++ raw_part (cs "$") op ++ rest
    /\ peek rest = 0
    /\ (1 <= vm <= 4294967295 /\ 1 <= vt <= 4294967295
        /\ 1 <= vp <= 255 /\ 8 * vp <= vm)
    /\ raw_ok 0 sizeof_key_id kp /\ raw_ok 0 sizeof_associated_data dp
    /\ raw_ok 8 sizeof_salt sp /\ raw_ok 12 sizeof_output op
    /\ (sp = None -> op = None)
    /\ pp' = parts_params pp0
               {| h_m := vm; h_t := vt; h_p := vp;
                  h_keyid := raw_bytes kp; h_data := raw_bytes dp;
                  h_salt := raw_bytes sp; h_output := raw_bytes op |}.
Proof.
  intros HU H. unfold argon2i_decode_string in H.
  destruct (run (argon2i_decode_body ULONG_MAX) {| d_pp := pp0; d_str := str |})
    as [r st'] eqn:Hrun.
  injection H as -> <-.
  unfold argon2i_decode_body in Hrun. rewrite !run_assign in Hrun.
  cbn [d_str d_pp] in Hrun.
  inv_lit Hrun. inv_lit Hrun. inv_num HU Hrun vm Hvm.
  inv_lit Hrun. inv_num HU Hrun vt Hvt.
  inv_lit Hrun. inv_num HU Hrun vp Hvp.
  inv_check Hrun Rm. inv_check Hrun Rt. inv_check Hrun Rp. inv_check Hrun Rmp.
  apply check_range32_inv in Rm, Rt. apply check_p_inv in Rp.
  apply (check_m_inv _ HU) in Rmp; [|exact Rp].
  inv_opt Hrun kp Hkp; inv_opt Hrun dp Hdp;
    apply inv_guard_1 in Hrun;
    (destruct Hrun as [(Hend & ->)|(_ & Hrun)];
     [ apply Z.eqb_eq in Hend;
       pose (sp := @None (list Z * list Z)); assert (Hsp : True) by exact I;
       pose (op := @None (list Z * list Z)); assert (Hop : True) by exact I
     | inv_lit Hrun; inv_bin Hrun sp Hsp; inv_check Hrun Rs;
       apply (raw_ok_lower 8) in Hsp; [|exact Rs];
       apply inv_guard_1 in Hrun;
       destruct Hrun as [(Hend & ->)|(_ & Hrun)];
       [ apply Z.eqb_eq in Hend;
         pose (op := @None (list Z * list Z)); assert (Hop : True) by exact I
       | inv_lit Hrun; inv_bin Hrun op Hop; inv_check Hrun Ro;
         apply (raw_ok_lower 12) in Hop; [|exact Ro];
         apply inv_ret_end in Hrun; destruct Hrun as (Hend & ->) ] ]);
    cbn [d_str] in Hend;
    match type of Hend with
    | peek ?r = 0 => exists vm, vt, vp, kp, dp, sp, op, r
    end;
    subst kp dp sp op; cbn [raw_part raw_bytes];
    (split; [rewrite <- ?app_assoc; reflexivity|]);
    (split; [exact Hend|]);
    (split; [repeat split; lia|]);
    (split; [exact Hkp|]); (split; [exact Hdp|]);
    (split; [exact Hsp|]); (split; [exact Hop|]);
    (split; [intros E; first [reflexivity|discriminate E]|]);
    reflexivity.
Qed.

Ltac forward_step HU :=
  first
    [ rewrite run_assign
    | rewrite run_CC by lit_no_zero
    | rewrite (run_DECIMAL _ HU) by (first [lia | reflexivity])
    | rewrite run_guard_yes by reflexivity
    | rewrite run_guard by
        (project;
         first [ reflexivity
               | apply check_range32; lia
               | apply check_p_range; lia
               | apply (check_m_range _ HU); lia
               | apply Nat.ltb_ge; lia ])
    | rewrite run_CC_opt_yes by lit_no_zero
    | rewrite run_CC_opt_no by reflexivity
    | rewrite run_BIN by (first [reflexivity | assumption | lia]) ];
  project.

Lemma decode_parts (ULONG_MAX : Z) (pp0 : argon2i_params) (h : hash_parts)
    (rest : list Z) :
  4294967295 <= ULONG_MAX ->
  parts_valid h ->
  peek rest = 0 ->
  argon2i_decode_string ULONG_MAX pp0 (parts_text h ++ rest)
  = (1, parts_params pp0 h).
Proof.
  intros HU (Hm & Ht & Hp & Hmp & Hk & Hd & Hs & Ho & Hso) Hrest.
  unfold argon2i_decode_string, argon2i_decode_body, parts_text, parts_params.
  change (cs "$argon2i$m=") with (cs "$argon2i" ++ cs "$m=").
  unfold sizeof_key_id, sizeof_associated_data, sizeof_salt, sizeof_output in *.
  destruct h as [vm vt vp kp dp sp op]. cbn [h_m h_t h_p h_keyid h_data h_salt h_output] in *.
  destruct rest as [|c junk]; cbn [peek] in Hrest; [|subst c];
  destruct kp as [kb|], dp as [db|], sp as [sb|], op as [ob|];
  try (specialize (Hso eq_refl); discriminate Hso);
  cbn [part_ok part_text part_bytes] in *;
  repeat match goal with H : _ /\ _ |- _ => destruct H end;
  rewrite <- ?app_assoc; cbn [app];
  repeat (forward_step HU); reflexivity.
Qed.

Lemma raw_ok_part (lo hi : nat) (part : option (list Z * list Z)) :
  raw_ok lo hi part -> part_ok lo hi (raw_bytes part).
Proof.
  destruct part as [[chars bytes]|]; cbn [raw_ok raw_bytes part_ok];
    [|trivial]. intros (Hb & Hl & _). split; assumption.
Qed.

Lemma raw_part_text (lo hi : nat) (prefix : list Z)
    (part : option (list Z * list Z)) :
  raw_ok lo hi part ->
  Forall is_byte (raw_part prefix part) ->
  raw_part prefix part = part_text prefix (raw_bytes part).
Proof.
  destruct part as [[chars bytes]|]; cbn [raw_ok raw_part raw_bytes part_text];
    [|reflexivity].
  intros (_ & _ & Ht) Hb. apply Forall_app in Hb. destruct Hb as [_ Hb].
  rewrite (Ht Hb). reflexivity.
Qed.

(** The strings of characters in 0..255 that [argon2i_decode_string]
    accepts are those of the grammar. *)
Lemma decode_sound (ULONG_MAX : Z) (pp0 pp' : argon2i_params) (str : list Z) :
  4294967295 <= ULONG_MAX ->
  Forall is_byte str ->
  argon2i_decode_string ULONG_MAX pp0 str = (1, pp') ->
  exists h rest,
    str = parts_text h ++ rest /\ peek rest = 0 /\ parts_valid h
    /\ pp' = parts_params pp0 h.
Proof.
  intros HU Hstr H.
  destruct (decode_inversion _ _ _ _ HU H)
    as (vm & vt & vp & kp & dp & sp & op & rest
        & Hs & Hrest & Hnum & Hk & Hd & Hsa & Ho & Hso & Hpp).
  exists {| h_m := vm; h_t := vt; h_p := vp;
            h_keyid := raw_bytes kp; h_data := raw_bytes dp;
            h_salt := raw_bytes sp; h_output := raw_bytes op |}, rest.
  split; [|split; [exact Hrest|split; [|exact Hpp]]].
  - rewrite Hs in Hstr. unfold parts_text.
    cbn [h_m h_t h_p h_keyid h_data h_salt h_output].
    repeat (apply Forall_app in Hstr;
            let H1 := fresh "Hpart" in destruct Hstr as [H1 Hstr]).
    rewrite <- (raw_part_text _ _ _ _ Hk) by assumption.
    rewrite <- (raw_part_text _ _ _ _ Hd) by assumption.
    rewrite <- (raw_part_text _ _ _ _ Hsa) by assumption.
    rewrite <- (raw_part_text _ _ _ _ Ho) by assumption.
    rewrite Hs, <- !app_assoc. reflexivity.
  - unfold parts_valid. cbn [h_m h_t h_p h_keyid h_data h_salt h_output].
    destruct Hnum as (? & ? & ? & ?).
    repeat (split; [first [assumption | apply raw_ok_part; assumption]|]).
    destruct sp as [[? ?]|]; cbn [raw_bytes]; [discriminate|].
    intros _. rewrite (Hso eq_refl). reflexivity.
Qed.

Lemma parts_params_valid (pp0 : argon2i_params) (h : hash_parts) :
  parts_valid h -> params_valid (parts_params pp0 h).
Proof.
  intros (Hm & Ht & Hp & Hmp & Hk & Hd & Hs & Ho & Hso).
  unfold sizeof_key_id, sizeof_associated_data, sizeof_salt, sizeof_output in *.
  destruct h as [vm vt vp kp dp sp op].
  cbn [h_m h_t h_p h_keyid h_data h_salt h_output] in *.
  unfold params_valid, parts_params.
  cbn [m t p key_id_len associated_data_len salt_len output_len
       h_m h_t h_p h_keyid h_data h_salt h_output].
  destruct kp, dp, sp, op; try (specialize (Hso eq_refl); discriminate Hso);
    cbn [part_ok part_bytes length] in *;
    repeat match goal with H : _ /\ _ |- _ => destruct H end;
    repeat split; lia.
Qed.

Lemma decode_success_valid (ULONG_MAX : Z) (pp0 pp' : argon2i_params)
    (str : list Z) :
  4294967295 <= ULONG_MAX ->
  argon2i_decode_string ULONG_MAX pp0 str = (1, pp') ->
  params_valid pp'.
Proof.
  intros HU H.
  destruct (decode_inversion _ _ _ _ HU H)
    as (vm & vt & vp & kp & dp & sp & op & rest
        & _ & _ & Hnum & Hk & Hd & Hsa & Ho & Hso & ->).
  apply parts_params_valid. unfold parts_valid.
  cbn [h_m h_t h_p h_keyid h_data h_salt h_output].
  destruct Hnum as (? & ? & ? & ?).
  repeat (split; [first [assumption | apply raw_ok_part; assumption]|]).
  destruct sp as [[? ?]|]; cbn [raw_bytes]; [discriminate|].
  intros _. rewrite (Hso eq_refl). reflexivity.
Qed.

(** X7. The strings that [argon2i_decode_string] accepts are those of
    the grammar
    [$argon2i$m=<num>,t=<num>,p=<num>[,keyid=<bin>][,data=<bin>][$<bin>[$<bin>]]]
    up to the terminator, where each number is written as [sprintf]
    writes it and each binary part as [to_base64] writes it, with the
    numbers in their ranges and the parts within their lengths; the
    structure that the call leaves holds these numbers, and the bytes
    of each part at the start of its array. *)
Theorem X7_decode_accepts_the_grammar (ULONG_MAX : Z) (pp0 : argon2i_params)
    (str : list Z) :
  4294967295 <= ULONG_MAX ->
  Forall is_byte str ->
  (fst (argon2i_decode_string ULONG_MAX pp0 str) = 1 <->
   exists h rest, str = parts_text h ++ rest /\ peek rest = 0 /\ parts_valid h)
  /\ (forall h rest,
        str = parts_text h ++ rest -> peek rest = 0 -> parts_valid h ->
        argon2i_decode_string ULONG_MAX pp0 str = (1, parts_params pp0 h)).
Proof.
  intros HU Hstr. split; [split|].
  - destruct (argon2i_decode_string ULONG_MAX pp0 str) as [r pp'] eqn:E.
    cbn [fst]. intros ->.
    destruct (decode_sound _ _ _ _ HU Hstr E) as (h & rest & Hs & Hr & Hv & _).
    exists h, rest. split; [exact Hs|]. split; [exact Hr|exact Hv].
  - intros (h & rest & -> & Hr & Hv).
    rewrite (decode_parts _ pp0 h rest HU Hv Hr). reflexivity.
  - intros h rest -> Hr Hv. apply decode_parts; assumption.
Qed.

Lemma X7_decode_accepts_the_grammar_witness :
  exists h rest,
    cs "$argon2i$m=120,t=5000,p=2,keyid=Hj5+dsK0$4fXXG0spB92WPB1NitT8/OH0VKI"
    = parts_text h ++ rest /\ peek rest = 0 /\ parts_valid h.
Proof.
  assert (Hs : Forall is_byte
                 (cs "$argon2i$m=120,t=5000,p=2,keyid=Hj5+dsK0$4fXXG0spB92WPB1NitT8/OH0VKI"))
    by (apply all_bytes_Forall; reflexivity).
  destruct (X7_decode_accepts_the_grammar 4294967295 blank_params _
              ltac:(lia) Hs) as [[H _] _].
  apply H. vm_compute. reflexivity.
Defined.

(** X8. A structure that [argon2i_decode_string] leaves with the value 1
    satisfies the invariants of the data model, whatever the characters
    of the string and whatever the structure held before the call. *)
Theorem X8_decode_success_is_valid (ULONG_MAX : Z) (pp0 pp' : argon2i_params)
    (str : list Z) :
  4294967295 <= ULONG_MAX ->
  argon2i_decode_string ULONG_MAX pp0 str = (1, pp') ->
  params_valid pp'.
Proof. apply decode_success_valid. Qed.

Lemma X8_decode_success_is_valid_witness :
  params_valid
    (snd (argon2i_decode_string 18446744073709551615 used_params
            (cs "$argon2i$m=4294967295,t=1,p=255,data=sRlHhRmKUGzdOmXn01XmXygd5Kc$c2FsdHNhbHQ"))).
Proof.
  apply (X8_decode_success_is_valid 18446744073709551615 used_params _
           (cs "$argon2i$m=4294967295,t=1,p=255,data=sRlHhRmKUGzdOmXn01XmXygd5Kc$c2FsdHNhbHQ")).
  - lia.
  - vm_compute. reflexivity.
Defined.

(** ** Encoding what the decoder accepted *)

Lemma Forall_store (P : Z -> Prop) (l : list Z) :
  Forall P l -> forall mem i, Forall P mem -> Forall P (store mem i l).
Proof.
  induction 1 as [|x l Hx _ IH]; intros mem i Hmem; cbn [store];
    [exact Hmem|].
  apply IH. apply Forall_insert; assumption.
Qed.

Lemma part_ok_bytes (lo hi : nat) (part : option (list Z)) :
  part_ok lo hi part ->
  Forall is_byte (part_bytes part) /\ (length (part_bytes part) <= hi)%nat.
Proof.
  destruct part as [bytes|]; cbn [part_ok part_bytes length].
  - intros (Hb & Hl). split; [exact Hb|lia].
  - intros _. split; [constructor|lia].
Qed.

Lemma field_ok_store (buf : list Z) (size lo : nat) (part : option (list Z)) :
  length buf = size -> Forall is_byte buf ->
  part_ok lo size part ->
  field_ok (store buf 0 (part_bytes part)) (length (part_bytes part)) size.
Proof.
  intros Hl Hb Hp. destruct (part_ok_bytes _ _ _ Hp) as (Hpb & Hpl).
  unfold field_ok. rewrite length_store.
  split; [exact Hl|]. split; [exact Hpl|]. apply Forall_store; assumption.
Qed.

Lemma parts_params_typed (pp0 : argon2i_params) (h : hash_parts) :
  params_arrays pp0 -> parts_valid h -> params_typed (parts_params pp0 h).
Proof.
  intros ((Sk & Sd & Ss & So) & Bk & Bd & Bs & Bo)
         (Hm & Ht & Hp & Hmp & Hk & Hd & Hs & Ho & Hso).
  unfold params_typed, parts_params.
  cbn [m t p key_id key_id_len associated_data associated_data_len
       salt salt_len output output_len].
  split; [lia|]. split; [lia|]. split; [lia|].
  split; [|split; [|split]]; eapply field_ok_store; eassumption.
Qed.

Lemma field_text_store (buf bytes : list Z) :
  (length bytes <= length buf)%nat ->
  field_text (store buf 0 bytes) (length bytes) = b64_text bytes.
Proof.
  intros Hl. unfold field_text. rewrite store_at_0 by exact Hl.
  rewrite take_app_length. reflexivity.
Qed.

Lemma part_text_drop_empty (prefix : list Z) (part : option (list Z)) :
  (if (0 <? length (part_bytes part))%nat
   then prefix ++ b64_text (part_bytes part) else [])
  = part_text prefix (drop_empty part).
Proof. destruct part as [[|b bytes]|]; reflexivity. Qed.

Lemma part_text_present (prefix : list Z) (lo hi : nat) (part : option (list Z))
    (tail : list Z) :
  (0 < lo)%nat -> part_ok lo hi part ->
  (if (length (part_bytes part) =? 0)%nat then []
   else prefix ++ b64_text (part_bytes part) ++ tail)
  = match part with
    | None => []
    | Some _ => part_text prefix part ++ tail
    end.
Proof.
  intros Hlo. destruct part as [bytes|]; cbn [part_ok part_bytes part_text length];
    [|reflexivity].
  intros (_ & Hl). destruct (Nat.eqb_spec (length bytes) 0); [lia|].
  rewrite <- app_assoc. reflexivity.
Qed.

Lemma part_text_last (prefix : list Z) (lo hi : nat) (part : option (list Z)) :
  (0 < lo)%nat -> part_ok lo hi part ->
  (if (length (part_bytes part) =? 0)%nat then []
   else prefix ++ b64_text (part_bytes part))
  = part_text prefix part.
Proof.
  intros Hlo. destruct part as [bytes|]; cbn [part_ok part_bytes part_text length];
    [|reflexivity].
  intros (_ & Hl). destruct (Nat.eqb_spec (length bytes) 0); [lia|reflexivity].
Qed.

(** The hash string of the structure that holds the parts [h]. *)
Lemma hash_string_parts (pp0 : argon2i_params) (h : hash_parts) :
  params_sized pp0 -> parts_valid h ->
  hash_string (parts_params pp0 h) = parts_text (parts_normal h).
Proof.
  intros (Sk & Sd & Ss & So) (Hm & Ht & Hp & Hmp & Hk & Hd & Hs & Ho & Hso).
  destruct (part_ok_bytes _ _ _ Hk) as (_ & Lk).
  destruct (part_ok_bytes _ _ _ Hd) as (_ & Ld).
  destruct (part_ok_bytes _ _ _ Hs) as (_ & Ls).
  destruct (part_ok_bytes _ _ _ Ho) as (_ & Lo).
  unfold hash_string, parts_text, parts_params, parts_normal.
  cbn [m t p key_id key_id_len associated_data associated_data_len
       salt salt_len output output_len
       h_m h_t h_p h_keyid h_data h_salt h_output].
  rewrite !field_text_store by congruence.
  rewrite !part_text_drop_empty.
  rewrite (part_text_last (cs "$") 12 sizeof_output (h_output h))
    by (assumption || lia).
  rewrite (part_text_present (cs "$") 8 sizeof_salt (h_salt h))
    by (assumption || lia).
  do 8 f_equal.
  destruct (h_salt h) as [sb|]; [reflexivity|].
  rewrite (Hso eq_refl). reflexivity.
Qed.

Lemma parts_normal_valid (h : hash_parts) :
  parts_valid h -> parts_valid (parts_normal h).
Proof.
  intros (Hm & Ht & Hp & Hmp & Hk & Hd & Hs & Ho & Hso).
  unfold parts_valid, parts_normal.
  cbn [h_m h_t h_p h_keyid h_data h_salt h_output].
  repeat (split; [first [assumption
                        | destruct (h_keyid h) as [[|? ?]|]; exact Hk || exact I
                        | destruct (h_data h) as [[|? ?]|]; exact Hd || exact I]|]).
  exact Hso.
Qed.

Lemma parts_normal_params (pp0 : argon2i_params) (h : hash_parts) :
  parts_params pp0 (parts_normal h) = parts_params pp0 h.
Proof.
  unfold parts_params, parts_normal.
  cbn [h_m h_t h_p h_keyid h_data h_salt h_output].
  destruct (h_keyid h) as [[|? ?]|], (h_data h) as [[|? ?]|]; reflexivity.
Qed.

Lemma parts_text_no_zero (h : hash_parts) :
  parts_valid h -> no_zero (parts_text h).
Proof.
  intros (Hm & Ht & Hp & Hmp & Hk & Hd & Hs & Ho & Hso).
  assert (Hpart : forall prefix lo hi part,
             no_zero prefix -> part_ok lo hi part ->
             no_zero (part_text prefix part)).
  { intros prefix lo hi [bytes|] Hpre; cbn [part_ok part_text];
      [|constructor].
    intros (Hb & _). apply Forall_app. split; [exact Hpre|].
    apply b64_text_no_zero. exact Hb. }
  unfold parts_text, no_zero.
  repeat (apply Forall_app; split);
    first [ apply digits_no_zero, sprintf_lu_digits; lia
          | eapply Hpart; [|eassumption]; repeat constructor; discriminate
          | repeat constructor; discriminate ].
Qed.

Lemma take_strlen (s rest : list Z) :
  no_zero s -> peek rest = 0 -> take (strlen (s ++ rest)) (s ++ rest) = s.
Proof.
  intros Hs Hr. rewrite strlen_no_zero by assumption. apply take_app_length.
Qed.

(** X9. What the decoder accepts, the encoder writes back.  Let
    [argon2i_decode_string] return 1 on a string of characters in
    0..255.  The string is the text of valid parts, up to its
    terminator.  From the structure that the call has left,
    [argon2i_encode_string] writes, into every buffer of 260 characters
    or more, the text of these parts without the empty [keyid] and
    [data] parts, which is the string that was read when it has no such
    part; and [argon2i_decode_string] reads from that buffer the
    structure that it left the first time. *)
Theorem X9_encode_after_decode (ULONG_MAX : Z) (pp0 pp' : argon2i_params)
    (str mem : list Z) (cap : nat) :
  4294967295 <= ULONG_MAX ->
  params_arrays pp0 ->
  Forall is_byte str ->
  argon2i_decode_string ULONG_MAX pp0 str = (1, pp') ->
  (260 <= cap <= length mem)%nat ->
  (exists h rest, str = parts_text h ++ rest /\ peek rest = 0 /\ parts_valid h)
  /\ forall h rest,
       str = parts_text h ++ rest -> peek rest = 0 -> parts_valid h ->
       exists mem',
         argon2i_encode_string mem cap pp' = (1, mem')
         /\ take (strlen mem') mem' = parts_text (parts_normal h)
         /\ argon2i_decode_string ULONG_MAX pp0 mem' = (1, pp')
         /\ (h_keyid h <> Some [] -> h_data h <> Some [] ->
             take (strlen mem') mem' = take (strlen str) str).
Proof.
  intros HU Harr Hstr Hdec Hcap. split.
  - destruct (decode_sound _ _ _ _ HU Hstr Hdec) as (h & rest & Hs & Hr & Hv & _).
    exists h, rest. split; [exact Hs|]. split; [exact Hr|exact Hv].
  - intros h rest Hs Hrest Hv.
    assert (Hpp : pp' = parts_params pp0 h).
    { rewrite Hs, (decode_parts _ pp0 h rest HU Hv Hrest) in Hdec. congruence. }
    subst pp'.
    pose proof (parts_params_typed pp0 h Harr Hv) as Htyped.
    pose proof (parts_params_valid pp0 h Hv) as Hvalid.
    pose proof (length_hash_string _ Hvalid Htyped) as Hlen.
    pose proof (hash_string_parts pp0 h (proj1 Harr) Hv) as Hhash.
    pose proof (parts_text_no_zero _ (parts_normal_valid h Hv)) as Hnz.
    exists (hash_string (parts_params pp0 h)
            ++ 0 :: drop (S (length (hash_string (parts_params pp0 h)))) mem).
    split; [apply encode_buffer; [exact Htyped|lia|lia]|].
    rewrite Hhash.
    split; [apply take_strlen; [exact Hnz|reflexivity]|].
    split.
    + rewrite <- (parts_normal_params pp0 h).
      apply decode_parts;
        [exact HU|apply parts_normal_valid; exact Hv|reflexivity].
    + intros Hk Hd. rewrite Hs.
      rewrite !take_strlen
        by first [assumption | reflexivity | apply parts_text_no_zero; assumption].
      f_equal. unfold parts_normal.
      destruct h as [vm vt vp kp dp sp op].
      cbn [h_m h_t h_p h_keyid h_data h_salt h_output] in *.
      destruct kp as [[|? ?]|], dp as [[|? ?]|]; try reflexivity; congruence.
Qed.

Lemma X9_encode_after_decode_witness :
  exists mem',
    argon2i_encode_string (repeat 7 260) 260
      (snd (argon2i_decode_string 4294967295 blank_params
              (cs "$argon2i$m=120,t=5000,p=2,keyid=,data=")))
    = (1, mem')
    /\ take (strlen mem') mem' = cs "$argon2i$m=120,t=5000,p=2"
    /\ argon2i_decode_string 4294967295 blank_params mem'
       = (1, snd (argon2i_decode_string 4294967295 blank_params
                    (cs "$argon2i$m=120,t=5000,p=2,keyid=,data="))).
Proof.
  assert (Hstr : Forall is_byte (cs "$argon2i$m=120,t=5000,p=2,keyid=,data="))
    by (apply all_bytes_Forall; reflexivity).
  assert (Harr : params_arrays blank_params)
    by (apply params_arrays_check; reflexivity).
  assert (Hdec : argon2i_decode_string 4294967295 blank_params
                   (cs "$argon2i$m=120,t=5000,p=2,keyid=,data=")
                 = (1, snd (argon2i_decode_string 4294967295 blank_params
                              (cs "$argon2i$m=120,t=5000,p=2,keyid=,data="))))
    by (vm_compute; reflexivity).
  assert (Hcap : (260 <= 260 <= length (repeat 7 260))%nat) by (simpl; lia).
  destruct (X9_encode_after_decode 4294967295 blank_params _ _
              (repeat 7 260) 260 ltac:(lia) Harr Hstr Hdec Hcap) as (_ & H).
  destruct (H {| h_m := 120; h_t := 5000; h_p := 2;
                 h_keyid := Some []; h_data := Some [];
                 h_salt := None; h_output := None |} [])
    as (mem' & H1 & H2 & H3 & _).
  - vm_compute. reflexivity.
  - reflexivity.
  - unfold parts_valid, sizeof_key_id, sizeof_associated_data.
    cbn [h_m h_t h_p h_keyid h_data h_salt h_output part_ok length].
    repeat split; try lia; constructor.
  - exists mem'. split; [exact H1|]. split; [exact H2|exact H3].
Defined.

(** ** Records and their strings *)

Lemma same_record_sym (pp qq : argon2i_params) :
  same_record pp qq -> same_record qq pp.
Proof. unfold same_record. intuition congruence. Qed.

Lemma same_record_trans (pp qq rr : argon2i_params) :
  same_record pp qq -> same_record qq rr -> same_record pp rr.
Proof. unfold same_record. intuition congruence. Qed.

Lemma same_record_valid (pp qq : argon2i_params) :
  same_record pp qq -> params_valid pp -> params_valid qq.
Proof.
  unfold same_record, params_valid.
  intros (-> & -> & -> & -> & _ & -> & _ & -> & _ & -> & _). trivial.
Qed.

Lemma same_record_hash_string (pp qq : argon2i_params) :
  same_record pp qq -> hash_string pp = hash_string qq.
Proof.
  intros (Hm & Ht & Hp & Hk & Tk & Hd & Td & Hs & Ts & Ho & To).
  unfold hash_string, field_text.
  rewrite Tk, Td, Ts, To, Hm, Ht, Hp, Hk, Hd, Hs, Ho. reflexivity.
Qed.

(** Two strings with the same characters up to their terminators. *)
Lemma terminated_inj (a b x y : list Z) :
  no_zero a -> no_zero b -> a ++ 0 :: x = b ++ 0 :: y -> a = b.
Proof.
  intros Ha. revert b. induction Ha as [|c a Hc _ IH]; intros b Hb H.
  - destruct Hb as [|d b Hd _]; [reflexivity|].
    cbn [app] in H. congruence.
  - destruct Hb as [|d b Hd Hb]; cbn [app] in H; [congruence|].
    injection H as -> H. f_equal. apply IH; assumption.
Qed.

Lemma params_arrays_typed (r : argon2i_params) :
  params_valid r -> params_arrays r -> params_typed r.
Proof.
  intros Hv (Hs & Bk & Bd & Bs & Bo). apply params_valid_typed; assumption.
Qed.

(** X10. [argon2i_encode_string] does not check the ranges of the
    numbers, the least lengths of the salt and of the output, or that
    an output comes with a salt.  On a structure whose four lengths are
    within the sizes of its arrays, and with room for the string, it
    returns 1 and writes the hash string, whether the record satisfies
    the invariants of the data model or not.  Decoding what it has
    written gives the record back exactly when the record satisfies
    these invariants; the string of any other record is refused by
    [argon2i_decode_string], or read as another record. *)
Theorem X10_round_trip_iff_valid (ULONG_MAX : Z) (r pp0 : argon2i_params)
    (mem : list Z) (cap : nat) :
  4294967295 <= ULONG_MAX ->
  params_typed r ->
  params_sized pp0 ->
  (length (hash_string r) < cap <= length mem)%nat ->
  fst (argon2i_encode_string mem cap r) = 1
  /\ take (strlen (snd (argon2i_encode_string mem cap r)))
          (snd (argon2i_encode_string mem cap r)) = hash_string r
  /\ ((exists pp',
          argon2i_decode_string ULONG_MAX pp0
            (snd (argon2i_encode_string mem cap r)) = (1, pp')
          /\ same_record pp' r)
      <-> params_valid r).
Proof.
  intros HU Htyped Hsized Hcap.
  rewrite (encode_buffer mem cap r Htyped) by lia. cbn [fst snd].
  split; [reflexivity|].
  split; [apply take_strlen; [apply hash_string_no_zero; exact Htyped
                             |reflexivity]|].
  split.
  - intros (pp' & Hdec & Hsame).
    apply (same_record_valid pp' r Hsame).
    apply (decode_success_valid ULONG_MAX pp0 pp' _ HU Hdec).
  - intros Hvalid. apply decode_hash_string; assumption.
Qed.

Lemma X10_round_trip_iff_valid_witness :
  fst (argon2i_encode_string (repeat 0 100) 100 used_params) = 1
  /\ ~ (exists pp',
          argon2i_decode_string 4294967295 blank_params
            (snd (argon2i_encode_string (repeat 0 100) 100 used_params)) = (1, pp')
          /\ same_record pp' used_params).
Proof.
  assert (Ht : params_typed used_params).
  { unfold params_typed, field_ok, sizeof_key_id, sizeof_associated_data,
      sizeof_salt, sizeof_output.
    cbn [used_params m t p key_id key_id_len associated_data
         associated_data_len salt salt_len output output_len].
    repeat split;
      first [lia | reflexivity | apply all_bytes_Forall; reflexivity]. }
  assert (Hs : params_sized blank_params) by (repeat split).
  assert (Hc : (length (hash_string used_params) < 100 <= length (repeat 0 100))%nat)
    by (split; [apply Nat.ltb_lt; vm_compute; reflexivity
               |apply Nat.leb_le; vm_compute; reflexivity]).
  destruct (X10_round_trip_iff_valid 4294967295 used_params blank_params
              (repeat 0 100) 100 ltac:(lia) Ht Hs Hc) as (H1 & _ & H2).
  split; [exact H1|].
  intros H. apply H2 in H. destruct H as (_ & _ & _ & H & _).
  cbn in H. lia.
Defined.

(** X11. Two records that satisfy the invariants are written by
    [argon2i_encode_string] as the same string if and only if they are
    the same record: the same numbers, and the same bytes in use in
    every field. *)
Theorem X11_encode_injective (r1 r2 : argon2i_params) (mem : list Z) (cap : nat) :
  params_valid r1 -> params_arrays r1 ->
  params_valid r2 -> params_arrays r2 ->
  (260 <= cap <= length mem)%nat ->
  argon2i_encode_string mem cap r1 = argon2i_encode_string mem cap r2
  <-> same_record r1 r2.
Proof.
  intros V1 A1 V2 A2 Hcap.
  pose proof (params_arrays_typed r1 V1 A1) as T1.
  pose proof (params_arrays_typed r2 V2 A2) as T2.
  pose proof (length_hash_string r1 V1 T1) as L1.
  pose proof (length_hash_string r2 V2 T2) as L2.
  rewrite (encode_buffer mem cap r1 T1), (encode_buffer mem cap r2 T2) by lia.
  split.
  - intros E.
    assert (H : hash_string r1 = hash_string r2).
    { apply (terminated_inj (hash_string r1) (hash_string r2)
               (drop (S (length (hash_string r1))) mem)
               (drop (S (length (hash_string r2))) mem));
        try (apply hash_string_no_zero; assumption).
      congruence. }
    destruct (decode_hash_string 4294967295 ltac:(lia) r1 r1 (proj1 A1) V1 T1 [])
      as (p1 & D1 & S1).
    destruct (decode_hash_string 4294967295 ltac:(lia) r1 r2 (proj1 A1) V2 T2 [])
      as (p2 & D2 & S2).
    rewrite H in D1. rewrite D1 in D2. injection D2 as ->.
    apply (same_record_trans r1 p2 r2); [apply same_record_sym|]; assumption.
  - intros H. rewrite (same_record_hash_string r1 r2 H). reflexivity.
Qed.

Lemma X11_encode_injective_witness :
  argon2i_encode_string (repeat 0 260) 260 record_with_salt
  = argon2i_encode_string (repeat 0 260) 260
      (set_output (repeat 9 64) (set_key_id (repeat 9 8) record_with_salt)).
Proof.
  apply (X11_encode_injective record_with_salt
           (set_output (repeat 9 64) (set_key_id (repeat 9 8) record_with_salt))
           (repeat 0 260) 260).
  - unfold params_valid; cbn; lia.
  - apply params_arrays_check; reflexivity.
  - unfold params_valid; cbn; lia.
  - apply params_arrays_check; reflexivity.
  - simpl; lia.
  - repeat split.
Defined.

(** ** The width of [unsigned long] *)

(** X12. [argon2i_decode_string] returns the same value whatever the
    width of [unsigned long], from 32 bits on, and when this value is 1
    it leaves the same structure.  When it is 0 the structure can
    differ: of ["$argon2i$m=4294967296,t=1,p=1"], 64 bits leave the
    three numbers in the structure, and 32 bits none of them. *)
Theorem X12_decode_width (U1 U2 : Z) (pp : argon2i_params) (str : list Z) :
  4294967295 <= U1 -> 4294967295 <= U2 ->
  fst (argon2i_decode_string U1 pp str) = fst (argon2i_decode_string U2 pp str)
  /\ (fst (argon2i_decode_string U1 pp str) = 1 ->
      argon2i_decode_string U1 pp str = argon2i_decode_string U2 pp str)
  /\ argon2i_decode_string 18446744073709551615 used_params
       (cs "$argon2i$m=4294967296,t=1,p=1")
     = (0, set_p 1 (set_t 1 (set_m 4294967296 (lens_zeroed used_params))))
  /\ argon2i_decode_string 4294967295 used_params
       (cs "$argon2i$m=4294967296,t=1,p=1")
     = (0, lens_zeroed used_params).
Proof.
  intros H1 H2.
  destruct (decode_any_width U1 H1 pp str) as (F1 & E1).
  destruct (decode_any_width U2 H2 pp str) as (F2 & E2).
  split; [congruence|]. split; [|split; vm_compute; reflexivity].
  intros H. rewrite E1, E2; congruence.
Qed.

Lemma X12_decode_width_witness :
  fst (argon2i_decode_string 4294967295 blank_params
         (cs "$argon2i$m=120,t=4294967296,p=2"))
  = fst (argon2i_decode_string 340282366920938463463374607431768211455
           blank_params (cs "$argon2i$m=120,t=4294967296,p=2")).
Proof.
  apply (X12_decode_width 4294967295 340282366920938463463374607431768211455
           blank_params (cs "$argon2i$m=120,t=4294967296,p=2")); lia.
Defined.

(** ** What every call of [argon2i_encode_string] leaves *)

Section Keeps.

Variable P : estate -> Prop.

Lemma keeps_seq (f g : stmt estate) :
  keeps P f -> keeps P g -> keeps P (f ;; g)%stmt.
Proof.
  intros Hf Hg st Hst. unfold seq_stmt. specialize (Hf st Hst).
  destruct (f st) as [r st'|st']; [exact Hf|]. apply Hg. exact Hf.
Qed.

Lemma keeps_when (c : estate -> bool) (body : stmt estate) :
  keeps P body -> keeps P (when c body).
Proof.
  intros Hb st Hst. unfold when. destruct (c st); [apply Hb|]; exact Hst.
Qed.

Lemma keeps_ret (r : Z) : r = 0 \/ r = 1 -> keeps P (ret (fun _ => r)).
Proof. intros Hr st Hst. unfold ret. split; assumption. Qed.

Lemma keeps_same (f g : stmt estate) :
  (forall st, f st = g st) -> keeps P g -> keeps P f.
Proof. intros E Hg st Hst. rewrite E. apply Hg. exact Hst. Qed.

Lemma keeps_run (f : stmt estate) (st : estate) :
  keeps P f -> P st ->
  (fst (run f st) = 0 \/ fst (run f st) = 1) /\ P (snd (run f st)).
Proof.
  intros Hf Hst. specialize (Hf st Hst). unfold run.
  destruct (f st) as [r st'|st']; cbn [fst snd].
  - destruct Hf as (H & Hr). split; assumption.
  - split; [left; reflexivity|exact Hf].
Qed.

End Keeps.

Lemma keeps_emit (mem0 : list Z) (cap : nat) (s : list Z) :
  no_zero s -> keeps (in_bounds mem0 cap) (emit s).
Proof.
  intros Hs st (Hcap & Hlen & Hout & Hmem). unfold emit.
  destruct (Nat.leb_spec (e_dst_len st) (length s)) as [|Hroom].
  - split; [|left; reflexivity]. repeat split; assumption.
  - unfold in_bounds, advance. cbn [e_mem e_dst e_dst_len].
    split; [lia|]. split; [rewrite length_store; exact Hlen|]. split.
    + intros i Hi. rewrite store_lookup_outside; [apply Hout; exact Hi|].
      rewrite length_app. cbn [length]. lia.
    + right. destruct Hmem as [(Hd & Hm)|(text & Ht & Hd & _ & Hm)].
      * exists s. rewrite Hd, Hm. split; [exact Hs|].
        split; [reflexivity|]. split; [lia|reflexivity].
      * exists (text ++ s). split; [apply Forall_app; split; assumption|].
        split; [rewrite length_app; lia|]. split; [lia|].
        rewrite Hm, Hd, <- app_assoc.
        change (length text) with (0 + length text)%nat.
        apply store_continue. destruct s; discriminate.
Qed.

Lemma keeps_body (mem0 : list Z) (cap : nat) (pp : argon2i_params) :
  params_typed pp -> keeps (in_bounds mem0 cap) (argon2i_encode_body pp).
Proof.
  intros (Hm & Ht & Hp & Fk & Fd & Fs & Fo).
  assert (HSS : forall s, no_zero s -> keeps (in_bounds mem0 cap) (SS s)).
  { intros s Hs. apply (keeps_same _ _ (emit s)); [|apply keeps_emit; exact Hs].
    intros st. apply SS_emit. exact Hs. }
  assert (HSX : forall x, 0 <= x -> keeps (in_bounds mem0 cap) (SX x)).
  { intros x Hx. apply (keeps_same _ _ (emit (sprintf_lu x))).
    - intros st. apply SX_emit. exact Hx.
    - apply keeps_emit, digits_no_zero, sprintf_lu_digits. exact Hx. }
  assert (HSB : forall buf len size,
             field_ok buf len size -> keeps (in_bounds mem0 cap) (SB buf len)).
  { intros buf len size Hf.
    apply (keeps_same _ _ (emit (field_text buf len))).
    - intros st. apply (SB_emit buf len size). exact Hf.
    - apply keeps_emit, b64_text_no_zero.
      apply (field_ok_take buf len size Hf). }
  unfold argon2i_encode_body.
  repeat first
    [ apply keeps_seq
    | apply keeps_when
    | apply keeps_ret; auto
    | apply HSS; repeat constructor; discriminate
    | apply HSX; assumption
    | eapply HSB; eassumption ].
Qed.

(** X13. Every call of [argon2i_encode_string] on a structure whose
    four lengths are within the sizes of its arrays, whether it
    succeeds or not, returns 0 or 1, keeps the length of the buffer and
    writes nothing at the index [dst_len] or after it.  It returns 0
    and leaves the buffer as it was, or it leaves a string at the start
    of the buffer that ends before the index [dst_len]: characters that
    are not zero, then a zero.  The code does not check the lengths
    against the sizes of the arrays, and nothing is said here of a
    structure with a length above the size of its array. *)
Theorem X13_encode_stays_in_bounds (mem : list Z) (cap : nat)
    (pp : argon2i_params) :
  params_typed pp ->
  let r := fst (argon2i_encode_string mem cap pp) in
  let mem' := snd (argon2i_encode_string mem cap pp) in
  (r = 0 \/ r = 1)
  /\ length mem' = length mem
  /\ (forall i, (cap <= i)%nat -> mem' !! i = mem !! i)
  /\ ((r = 0 /\ mem' = mem)
      \/ exists text,
           no_zero text /\ (length text < cap)%nat
           /\ mem' = store mem 0 (text ++ [0])
           /\ ((cap <= length mem)%nat -> strlen mem' = length text)).
Proof.
  intros Htyped r mem'. subst r mem'. unfold argon2i_encode_string.
  pose proof (keeps_run _ _ {| e_mem := mem; e_dst := 0; e_dst_len := cap |}
                (keeps_body mem cap pp Htyped)) as H.
  pose proof (encode_run pp {| e_mem := mem; e_dst := 0; e_dst_len := cap |}
                Htyped) as (_ & Hok).
  cbn [e_dst_len] in Hok.
  destruct (run (argon2i_encode_body pp) _) as [r st] eqn:E. cbn [fst snd] in *.
  destruct H as (Hr & Hcap & Hlen & Hout & Hmem).
  { unfold in_bounds. cbn [e_mem e_dst e_dst_len].
    repeat split; try reflexivity. left. split; reflexivity. }
  split; [exact Hr|]. split; [exact Hlen|]. split; [exact Hout|].
  destruct Hmem as [(Hd & Hm)|(text & Ht & Hd & Hpos & Hm)].
  - destruct Hr as [->| ->]; [left; split; [reflexivity|exact Hm]|].
    exfalso.
    destruct (Nat.ltb_spec (length (hash_string pp)) cap) as [Hlt|Hge].
    + specialize (Hok Hlt). injection Hok as Hst. rewrite Hst in Hd.
      unfold advance in Hd. cbn [e_dst] in Hd.
      pose proof (hash_string_no_zero pp Htyped) as Hnz.
      unfold hash_string in Hd. rewrite length_app in Hd.
      cbn [cs length] in Hd. lia.
    + pose proof (encode_run pp {| e_mem := mem; e_dst := 0; e_dst_len := cap |}
                    Htyped) as (Hfail & _).
      cbn [e_dst_len] in Hfail. specialize (Hfail Hge).
      rewrite E in Hfail. cbn [fst] in Hfail. discriminate.
  - right. exists text. split; [exact Ht|]. split; [lia|].
    split; [exact Hm|]. intros Hc. rewrite Hm.
    rewrite store_at_0 by (rewrite length_app; cbn [length]; lia).
    rewrite <- app_assoc. apply strlen_no_zero; [exact Ht|reflexivity].
Qed.

Lemma X13_encode_stays_in_bounds_witness :
  length (snd (argon2i_encode_string (repeat 9 40) 30 record_with_salt)) = 40%nat
  /\ forall i, (30 <= i)%nat ->
       snd (argon2i_encode_string (repeat 9 40) 30 record_with_salt) !! i
       = repeat 9 40 !! i.
Proof.
  destruct (X13_encode_stays_in_bounds (repeat 9 40) 30 record_with_salt)
    as (_ & H1 & H2 & _).
  - apply params_arrays_typed.
    + unfold params_valid; cbn; lia.
    + apply params_arrays_check; reflexivity.
  - split; [exact H1|exact H2].
Defined.

(** X15. The buffer of 260 characters is the least one that is enough
    for every record: the hash string of a record that satisfies the
    invariants has at most 259 characters, so that
    [argon2i_encode_string] returns 1 with a capacity of 260, and there
    is such a record on which it returns 0 with a capacity of 259. *)
Theorem X15_least_capacity :
  (forall r mem,
      params_valid r -> params_arrays r ->
      (length (hash_string r) <= 259)%nat
      /\ fst (argon2i_encode_string mem 260 r) = 1)
  /\ params_valid longest_record
  /\ params_arrays longest_record
  /\ length (hash_string longest_record) = 259%nat
  /\ forall mem, fst (argon2i_encode_string mem 259 longest_record) = 0.
Proof.
  assert (Hv : params_valid longest_record)
    by (unfold params_valid; cbn; lia).
  assert (Ha : params_arrays longest_record)
    by (apply params_arrays_check; reflexivity).
  assert (Hl : length (hash_string longest_record) = 259%nat)
    by (vm_compute; reflexivity).
  split; [|split; [exact Hv|split; [exact Ha|split; [exact Hl|]]]].
  - intros r mem Hvalid Harr.
    pose proof (params_arrays_typed r Hvalid Harr) as Htyped.
    pose proof (length_hash_string r Hvalid Htyped) as Hlen.
    split; [exact Hlen|].
    rewrite encode_success by (assumption || lia). reflexivity.
  - intros mem. apply encode_failure.
    + apply params_arrays_typed; assumption.
    + rewrite Hl. lia.
Qed.

(** ** A call of [argon2i_encode_string] that fails *)

Lemma run_emit_eq (f g g' : stmt estate) (s : list Z) (st : estate) :
  f st = emit s st ->
  run g (advance st s) = run g' (advance st s) ->
  run (f ;; g)%stmt st = run (emit s ;; g')%stmt st.
Proof.
  intros Hf Hg. rewrite (run_emit_seq f g s st Hf).
  rewrite (run_emit_seq (emit s) g' s st eq_refl).
  destruct (e_dst_len st <=? length s)%nat; [reflexivity|exact Hg].
Qed.

(** The body of [argon2i_encode_string] writes the pieces in turn. *)
Lemma body_pieces (pp : argon2i_params) (st : estate) :
  params_typed pp ->
  run (argon2i_encode_body pp) st = run (emit_all (pieces pp)) st.
Proof.
  intros (Hm & Ht & Hp & Fk & Fd & Fs & Fo).
  unfold argon2i_encode_body, pieces.
  destruct (0 <? key_id_len pp)%nat, (0 <? associated_data_len pp)%nat,
           (salt_len pp =? 0)%nat, (output_len pp =? 0)%nat;
    cbn [app emit_all];
    repeat first
      [ rewrite run_when_true, ?run_seq_assoc
      | rewrite run_when_false
      | apply run_emit_eq;
        [ first [ apply SS_emit; repeat constructor; discriminate
                | apply SX_emit; assumption
                | eapply SB_emit; eassumption ] | ] ];
    reflexivity.
Qed.

Lemma concat_pieces (pp : argon2i_params) : concat (pieces pp) = hash_string pp.
Proof.
  unfold pieces, hash_string.
  destruct (0 <? key_id_len pp)%nat, (0 <? associated_data_len pp)%nat,
           (salt_len pp =? 0)%nat, (output_len pp =? 0)%nat;
    cbn [app concat]; rewrite ?app_nil_r, <- ?app_assoc; reflexivity.
Qed.

Lemma emit_all_run (l : list (list Z)) :
  forall st,
    run (emit_all l) st =
    (if (length (written l (e_dst_len st)) =? length l)%nat then 1 else 0,
     fold_left advance (written l (e_dst_len st)) st).
Proof.
  induction l as [|s l IH]; intros st; cbn [emit_all written]; [reflexivity|].
  rewrite (run_emit_seq (emit s) _ s st eq_refl).
  destruct (e_dst_len st <=? length s)%nat; [reflexivity|].
  rewrite IH. reflexivity.
Qed.

Lemma fold_advance (w : list (list Z)) :
  forall s st, fold_left advance w (advance st s) = advance st (s ++ concat w).
Proof.
  induction w as [|s' w IH]; intros s st; cbn [fold_left concat].
  - rewrite app_nil_r. reflexivity.
  - rewrite advance_advance, IH, app_assoc. reflexivity.
Qed.

Lemma written_split (l : list (list Z)) :
  forall s room,
    exists tail,
      s :: l = written (s :: l) room ++ tail
      /\ (tail = [] <-> (length (concat (s :: l)) < room)%nat).
Proof.
  induction l as [|s' l IH]; intros s room; cbn [written concat];
    destruct (Nat.leb_spec room (length s)) as [Hle|Hgt].
  - exists [s]. split; [reflexivity|].
    rewrite app_nil_r. split; [discriminate|lia].
  - exists []. split; [reflexivity|].
    rewrite app_nil_r. split; [lia|reflexivity].
  - exists (s :: s' :: l). split; [reflexivity|].
    rewrite length_app. split; [discriminate|lia].
  - destruct (IH s' (room - length s)%nat) as (tail & Hs & Ht).
    exists tail. split; [cbn [app]; f_equal; exact Hs|].
    rewrite Ht, !length_app. cbn [concat]. rewrite length_app. lia.
Qed.

(** X16. A call of [argon2i_encode_string] that fails has written a
    part of the hash string.  The call writes the pieces of the string
    in turn (the literal parts, the numbers and the Base64 of the
    fields), each with its terminator, and stops at the first piece
    that does not fit with its terminator; it returns 1 when no piece
    is left, which is when the capacity is above the length of the
    string.  So a call that returns 0 leaves the buffer as it was, when
    the capacity is 11 or less, or with the hash string cut before a
    piece, and a zero after it. *)
Theorem X16_encode_failure_is_a_prefix (mem : list Z) (cap : nat)
    (pp : argon2i_params) :
  params_typed pp ->
  exists tail,
    pieces pp = written (pieces pp) cap ++ tail
    /\ hash_string pp = concat (written (pieces pp) cap) ++ concat tail
    /\ (tail = [] <-> (length (hash_string pp) < cap)%nat)
    /\ (written (pieces pp) cap = [] <-> (cap <= 11)%nat)
    /\ argon2i_encode_string mem cap pp
       = (match tail with [] => 1 | _ :: _ => 0 end,
          match written (pieces pp) cap with
          | [] => mem
          | _ :: _ => store mem 0 (concat (written (pieces pp) cap) ++ [0])
          end).
Proof.
  intros Htyped. unfold argon2i_encode_string.
  rewrite (body_pieces pp _ Htyped), emit_all_run. cbn [e_dst_len].
  rewrite <- (concat_pieces pp).
  assert (Hp : exists s l, pieces pp = s :: l /\ s = cs "$argon2i$m=")
    by (eexists; eexists; split; reflexivity).
  destruct Hp as (s & l & Hp & Hs). rewrite Hp.
  destruct (written_split l s cap) as (tail & Hsplit & Htail).
  exists tail. split; [exact Hsplit|].
  split; [rewrite Hsplit at 1; apply concat_app|].
  split; [exact Htail|]. split.
  - cbn [written]. subst s. change (length (cs "$argon2i$m=")) with 11%nat.
    destruct (Nat.leb_spec cap 11) as [Hc|Hc]; split; intros Hw;
      first [reflexivity | assumption | discriminate Hw | lia].
  - assert (Hlen : length (s :: l)
                   = (length (written (s :: l) cap) + length tail)%nat)
      by (rewrite Hsplit at 1; apply length_app).
    f_equal.
    + revert Hlen. generalize (length (s :: l)).
      generalize (length (written (s :: l) cap)). intros k n Hlen.
      destruct tail as [|x tail]; cbn [length] in Hlen.
      * rewrite (proj2 (Nat.eqb_eq _ _)) by lia. reflexivity.
      * rewrite (proj2 (Nat.eqb_neq _ _)) by lia. reflexivity.
    + cbn [e_mem]. destruct (written (s :: l) cap) as [|x w]; [reflexivity|].
      cbn [fold_left]. rewrite fold_advance. reflexivity.
Qed.

Lemma X16_encode_failure_is_a_prefix_witness :
  exists tail,
    pieces record_with_salt = written (pieces record_with_salt) 30 ++ tail
    /\ argon2i_encode_string (repeat 9 40) 30 record_with_salt
       = (match tail with [] => 1 | _ :: _ => 0 end,
          match written (pieces record_with_salt) 30 with
          | [] => repeat 9 40
          | _ :: _ =>
              store (repeat 9 40) 0
                (concat (written (pieces record_with_salt) 30) ++ [0])
          end).
Proof.
  destruct (X16_encode_failure_is_a_prefix (repeat 9 40) 30 record_with_salt)
    as (tail & H1 & _ & _ & _ & H2).
  - apply params_arrays_typed.
    + unfold params_valid; cbn; lia.
    + apply params_arrays_check; reflexivity.
  - exists tail. split; [exact H1|exact H2].
Defined.

(** ** The test code *)

Lemma same_chars_eq (a : list Z) : forall b, same_chars a b = true -> a = b.
Proof.
  induction a as [|x a IH]; intros [|y b]; cbn [same_chars]; try discriminate;
    [reflexivity|].
  intros H. apply andb_true_iff in H. destruct H as (Hx & H).
  apply Z.eqb_eq in Hx. subst y. f_equal. apply IH. exact H.
Qed.

Lemma part_check_ok (lo hi : nat) (part : option (list Z)) :
  part_check lo hi part = true ->
  part_ok lo hi part /\ drop_empty part = part.
Proof.
  destruct part as [bytes|]; cbn [part_check part_ok drop_empty];
    [|intros _; split; [exact I|reflexivity]].
  intros H. apply andb_true_iff in H. destruct H as (H & Hhi).
  apply andb_true_iff in H. destruct H as (H & Hlo).
  apply andb_true_iff in H. destruct H as (H & Hpos).
  apply Nat.leb_le in Hhi, Hlo. apply Nat.ltb_lt in Hpos.
  split; [split; [apply all_bytes_Forall; exact H|lia]|].
  destruct bytes; [cbn [length] in Hpos; lia|reflexivity].
Qed.

Lemma parts_check_ok (h : hash_parts) :
  parts_check h = true -> parts_valid h /\ parts_normal h = h.
Proof.
  unfold parts_check. intros H.
  repeat (apply andb_true_iff in H; destruct H as (H & ?)).
  repeat match goal with
         | Hc : part_check _ _ _ = true |- _ => apply part_check_ok in Hc; destruct Hc
         end.
  split.
  - unfold parts_valid. repeat (split; [first [lia|assumption]|]).
    destruct (h_salt h), (h_output h); congruence.
  - unfold parts_normal. destruct h as [vm vt vp kp dp sp op].
    cbn [h_m h_t h_p h_keyid h_data h_salt h_output] in *. congruence.
Qed.

Lemma strcmp_eq_terminated (s x : list Z) :
  no_zero s -> strcmp_eq s (s ++ 0 :: x) = true.
Proof.
  induction 1 as [|c s Hc _ IH]; [reflexivity|].
  cbn [strcmp_eq app peek tl]. rewrite Z.eqb_refl.
  destruct (Z.eqb_spec c 0); [reflexivity|exact IH].
Qed.

Lemma for_each_passes (P : list Z -> Prop)
    (body : nat -> list Z -> stmt (list event)) (kat : list (list Z)) :
  Forall P kat ->
  (forall i str out, P str -> body i str out = Continue out) ->
  forall i out, for_each body i kat out = Continue out.
Proof.
  intros Hkat Hbody. induction Hkat as [|str kat Hstr _ IH]; intros i out.
  - reflexivity.
  - cbn [for_each]. unfold seq_stmt. rewrite (Hbody i str out Hstr). apply IH.
Qed.

Section MainProofs.

Variable ULONG_MAX : Z.
Hypothesis ULONG_MAX_ge : 4294967295 <= ULONG_MAX.
Variable EXIT_FAILURE : Z.
Variable pp_good : nat -> argon2i_params.
Variable tmp_good : nat -> list Z.
Variable pp_bad : nat -> argon2i_params.
Hypothesis pp_good_arrays : forall i, params_arrays (pp_good i).
Hypothesis tmp_good_size : forall i, length (tmp_good i) = sizeof_tmp.

Lemma good_body_passes (i : nat) (str : list Z) (out : list event) :
  kat_good_check str = true ->
  good_body ULONG_MAX EXIT_FAILURE pp_good tmp_good i str out = Continue out.
Proof.
  unfold kat_good_check. cbv zeta.
  generalize (parts_of (snd (argon2i_decode_string 4294967295 blank_params str))).
  intros h H. apply andb_true_iff in H. destruct H as (Hs & Hc).
  apply same_chars_eq in Hs. apply parts_check_ok in Hc.
  destruct Hc as (Hv & Hn).
  pose proof (parts_params_typed (pp_good i) h (pp_good_arrays i) Hv) as Htyped.
  pose proof (parts_params_valid (pp_good i) h Hv) as Hvalid.
  pose proof (length_hash_string _ Hvalid Htyped) as Hlen.
  pose proof (hash_string_parts (pp_good i) h (proj1 (pp_good_arrays i)) Hv)
    as Hhash.
  rewrite Hn, <- Hs in Hhash.
  pose proof (parts_text_no_zero h Hv) as Hnz. rewrite <- Hs in Hnz.
  pose proof (tmp_good_size i) as Htmp. unfold sizeof_tmp in *.
  unfold good_body, sizeof_tmp.
  rewrite <- (app_nil_r str) at 1. rewrite Hs at 1.
  rewrite (decode_parts ULONG_MAX (pp_good i) h [] ULONG_MAX_ge Hv eq_refl).
  cbn [Z.eqb].
  rewrite (encode_buffer (tmp_good i) 300 _ Htyped) by lia.
  cbn [Z.eqb]. rewrite Hhash.
  rewrite (strcmp_eq_terminated str _ Hnz). cbn [negb].
  rewrite (strlen_lit str Hnz).
  rewrite encode_success by (rewrite ?Hhash; assumption || lia).
  cbn [Z.eqb].
  match goal with
  | |- context [argon2i_encode_string ?mem3 (length str) ?q] =>
      pose proof (encode_failure mem3 (length str) q Htyped
                    ltac:(rewrite Hhash; lia)) as Hfail;
      destruct (argon2i_encode_string mem3 (length str) q) as [r tmp3]
  end.
  cbn [fst] in Hfail. subst r. reflexivity.
Qed.

Lemma bad_body_passes (i : nat) (str : list Z) (out : list event) :
  (forall pp, fst (argon2i_decode_string 4294967295 pp str) = 0) ->
  bad_body ULONG_MAX EXIT_FAILURE pp_bad i str out = Continue out.
Proof.
  intros H. unfold bad_body.
  pose proof (decode_returns_as_32 ULONG_MAX ULONG_MAX_ge (pp_bad i) str) as E.
  rewrite H in E.
  destruct (argon2i_decode_string ULONG_MAX (pp_bad i) str) as [r pp].
  cbn [fst] in E. subst r. reflexivity.
Qed.

End MainProofs.

Lemma KAT_GOOD_checked : Forall (fun str => kat_good_check str = true) KAT_GOOD.
Proof. apply Forall_forall. intros str H. 
  apply (proj1 (forallb_forall kat_good_check KAT_GOOD)); [vm_compute; reflexivity|].
  apply list_elem_of_In. exact H.
Qed.

Lemma KAT_BAD_refused :
  Forall (fun str => forall pp, fst (argon2i_decode_string 4294967295 pp str) = 0)
         KAT_BAD.
Proof. repeat constructor; intros pp; vm_compute; reflexivity. Qed.

(** X14. The test passes wherever [unsigned long] has 32 bits or more,
    and whatever the locals of [main] hold before they are written:
    [main] returns 0 after it has written ["All tests OK"] to the
    standard output, and nothing to the standard error.  So each string
    of [KAT_GOOD] is decoded, encoded back as the same string into 300
    characters and into room for its length and the terminator, and not
    into room for its length; and each string of [KAT_BAD] is
    refused. *)
Theorem X14_main_passes (ULONG_MAX EXIT_FAILURE : Z)
    (pp_good : nat -> argon2i_params) (tmp_good : nat -> list Z)
    (pp_bad : nat -> argon2i_params) :
  4294967295 <= ULONG_MAX ->
  (forall i, params_arrays (pp_good i)) ->
  (forall i, length (tmp_good i) = sizeof_tmp) ->
  main ULONG_MAX EXIT_FAILURE pp_good tmp_good pp_bad
  = (0, [Stdout (cs "All tests OK" ++ newline)]).
Proof.
  intros HU Hpp Htmp. unfold main, run, seq_stmt.
  rewrite (for_each_passes _ _ _ KAT_GOOD_checked)
    by (intros; apply good_body_passes; assumption).
  rewrite (for_each_passes _ _ _ KAT_BAD_refused)
    by (intros; apply bad_body_passes; assumption).
  reflexivity.
Qed.

Lemma X14_main_passes_witness :
  main 18446744073709551615 1 (fun _ => used_params) (fun _ => repeat 255 300)
    (fun _ => used_params)
  = (0, [Stdout (cs "All tests OK" ++ newline)]).
Proof.
  apply X14_main_passes.
  - lia.
  - intros _. apply params_arrays_check; reflexivity.
  - intros _. reflexivity.
Defined.
